(** * ShopBot: the cart / checkout / payment state machine

    A shallow embedding of the store-facing logic of the bot
    ([utils/database.py], [ui/views.py], [cogs/shop.py], [cogs/balance.py],
    [cogs/ticket.py], [utils/webhook_server.py]) together with the
    properties its specification states about it.

    Conventions of the embedding.
    - Every table with a PRIMARY KEY is a finite map from the key to the
      remaining columns; AUTO_INCREMENT counters are part of the state.
      A query without ORDER BY returns its rows in the order of the key.
    - Currency amounts (MySQL FLOAT, Python float) are exact integers
      counted in the minor currency unit (cents).  Where the binary
      rounding of the source decides, in a comparison of two amounts that
      are the same figure, the amounts are binary64 floats ([Float64]) and
      the statements in cents keep to strict inequalities.
    - A handler is a function from its first to its last statement.  What
      the chat platform and the payment gateway answer is an input of the
      handler (an [environment] of oracles, or an explicit argument for a
      freshly created channel or message identifier).  Handlers that
      overlap on the event loop are runs of steps ([Interleaving]): a step
      is a handler that is not interrupted, or one statement of a handler
      that is.
    - What a handler sends outside the store (replies, channel messages,
      gateway requests) is recorded in the [trace], most recent first.
    - Where Python would raise an exception that the handler does not
      catch, the handler stops and the store stays as it is at that
      point; every such place carries a comment. *)

From Stdlib Require Import Floats.
From stdpp Require Import gmap strings list fin_maps sorting.

Local Open Scope Z_scope.

(** ** Data model ([Database.setup_database]) *)

(** [carts.status], a VARCHAR defaulting to ['active']. *)
Inductive cart_status :=
| active
| pending_payment
| pending_manual_verification
| paid
| completed
| closed.

Global Instance cart_status_eq_dec : EqDecision cart_status.
Proof. solve_decision. Defined.

(** [tickets.status], a VARCHAR defaulting to ['open']. *)
Inductive ticket_status := ticket_open | ticket_closed.

Global Instance ticket_status_eq_dec : EqDecision ticket_status.
Proof. solve_decision. Defined.

(** [carts.payment_method]: ['paypal'] or [f"crypto_{coin}"]. *)
Inductive payment_method :=
| paypal
| crypto (coin : string).

Global Instance payment_method_eq_dec : EqDecision payment_method.
Proof. solve_decision. Defined.

(** One value of the JSON object stored in [carts.cart_data]. *)
Record line_item := LineItem {
  quantity : Z;
  price : Z;
  name : string
}.

(** The JSON object itself: item id (the decimal string of the id in the
    source, which MySQL casts back in [WHERE id = %s]) to line. *)
Abbreviation cart_contents := (gmap Z line_item).

Record item_row := ItemRow {
  item_name : string;
  item_price : Z;
  item_quantity : Z;
  item_message_id : Z;
  item_channel_id : Z
}.

Record cart_row := CartRow {
  user_id : Z;
  channel_id : option Z;
  cart_data : cart_contents;
  message_id : option Z;
  invoice_message_id : option Z;
  payment_id : option string;
  credit_applied : Z;
  last_activity : Z;
  status : cart_status;
  cart_payment_method : option payment_method
}.

Record user_row := UserRow {
  balance : Z;
  lifetime_spent : Z;
  delivery_value_handled : Z
}.

Record ticket_row := TicketRow {
  ticket_user_id : Z;
  ticket_channel_id : Z;
  ticket_state : ticket_status
}.

(** A row of the [analytics] table (the timestamp column is left out). *)
Record analytics_row := AnalyticsRow {
  event_type : string;
  event_item_id : Z;
  event_user_id : Z
}.

(** User-facing texts, one constructor per message of the source. *)
Inductive notice :=
| ShopClosed
| ShopClosedCheckout
| NotEnoughCredit
| MinimumNotMet (minimum : Z)
| InsufficientStock
| NoActiveCart
| CartNotFound
| CartChannelNotFound
| AlreadyProcessed
| PaymentAlreadyPending
| CartDisappeared
| PaymentLinkError
| PaymentLinkGenerated
| CheckoutInvoice (approval_url : string)
| InvoiceCanceled (reason : string)
| TransactionCanceled
| SelectCoin (total : Z)
| CoinPriceUnavailable
| WalletNotConfigured
| CryptoInvoice (coin : string) (total : Z)
| CryptoInstructionsSent
| PendingVerification
| DeliveryPing
| PaymentSuccessful
| CartSummary (cart : cart_contents) (total : Z)
| CreditApplied (amount new_total : Z)
| SelectPaymentMethod
| CartArchived
| OrderDelivered
| NotPaidCart
| NotPendingVerification
| MarkedPaid
| AlreadyOpenTicket
| TicketWelcome
| TicketCreated
| TicketClosed
| NoPermission
| AmountMustBePositive
| BalanceChanged.

(** What a handler does outside the store. *)
Inductive effect :=
| Reply (n : notice)
| ChannelSend (channel : Z) (n : notice)
| MessageEdit (message : Z) (n : notice)
| MessageDelete (message : Z)
| ChannelCreate (channel : Z)
| ChannelDelete (channel : Z)
| ChannelRename (channel : Z) (prefix : string) (cart : Z)
| RolesChecked (user : Z)
| GatewayCreate (total : Z) (cart : Z)
| GatewayQuery (payment : string)
| GatewayCapture (payment : string).

Record world := World {
  items : gmap Z item_row;
  carts : gmap Z cart_row;
  users : gmap Z user_row;
  tickets : gmap Z ticket_row;
  settings : gmap string string;
  analytics : list analytics_row;
  items_auto_increment : Z;
  carts_auto_increment : Z;
  tickets_auto_increment : Z;
  trace : list effect
}.

(** The store right after [setup_database] on an empty schema. *)
Definition initial_world : world :=
  {| items := ∅; carts := ∅; users := ∅; tickets := ∅;
     settings := {[ "shop_status" := "open"; "hide_stock" := "false";
                    "shop_status_channel_id" := "0" ]}%string;
     analytics := [];
     items_auto_increment := 1; carts_auto_increment := 1;
     tickets_auto_increment := 1;
     trace := [] |}.

(** What the handlers ask of the chat platform, the payment gateway and
    the process environment. *)
Record environment := Environment {
  (** [bot.get_channel(id)] is not [None] *)
  get_channel : Z → bool;
  (** [channel.fetch_message(id)] does not raise [discord.NotFound] *)
  fetch_message : Z → bool;
  (** [PayPalPayment.create_payment(total, ..., cart_id)] *)
  create_payment : Z → Z → option (string * string);
  (** the [status] of [PayPalPayment.get_payment_details(payment_id)];
      [None] for a failed request *)
  get_payment_details : string → option string;
  (** the [status] of [PayPalPayment.capture_payment(payment_id)] *)
  capture_payment : string → option string;
  (** [bot.get_cog('AnalyticsCog')] is not [None] *)
  analytics_cog : bool;
  (** [CryptoPayment.get_coin_price(coin)] is truthy *)
  get_coin_price : string → bool;
  (** [CryptoPayment.wallet_addresses.get(coin)] is truthy *)
  wallet_address : string → bool;
  (** [float(os.getenv("SHOP_PURCHASE_MINIMUM", "0.50"))] *)
  purchase_minimum : Z;
  (** [datetime.now(timezone.utc)] *)
  utcnow : Z;
  (** [guild.fetch_member(id)] does not raise (the user is still a member
      of the guild) *)
  fetch_member : Z → bool;
  (** [guild.get_role(int(os.getenv("SHOP_DELIVERY_PING_ROLE_ID")))]:
      [None] when the variable is not set, so that [int] raises
      [TypeError]; otherwise whether the guild has the role *)
  delivery_ping_role : option bool
}.

(** ** Store primitives ([Database.execute_query]) *)

Module Sql.

Definition set_items (f : gmap Z item_row → gmap Z item_row) (w : world) : world :=
  {| items := f (items w); carts := carts w; users := users w;
     tickets := tickets w; settings := settings w; analytics := analytics w;
     items_auto_increment := items_auto_increment w;
     carts_auto_increment := carts_auto_increment w;
     tickets_auto_increment := tickets_auto_increment w;
     trace := trace w |}.

Definition set_carts (f : gmap Z cart_row → gmap Z cart_row) (w : world) : world :=
  {| items := items w; carts := f (carts w); users := users w;
     tickets := tickets w; settings := settings w; analytics := analytics w;
     items_auto_increment := items_auto_increment w;
     carts_auto_increment := carts_auto_increment w;
     tickets_auto_increment := tickets_auto_increment w;
     trace := trace w |}.

Definition set_users (f : gmap Z user_row → gmap Z user_row) (w : world) : world :=
  {| items := items w; carts := carts w; users := f (users w);
     tickets := tickets w; settings := settings w; analytics := analytics w;
     items_auto_increment := items_auto_increment w;
     carts_auto_increment := carts_auto_increment w;
     tickets_auto_increment := tickets_auto_increment w;
     trace := trace w |}.

Definition set_tickets (f : gmap Z ticket_row → gmap Z ticket_row) (w : world) : world :=
  {| items := items w; carts := carts w; users := users w;
     tickets := f (tickets w); settings := settings w; analytics := analytics w;
     items_auto_increment := items_auto_increment w;
     carts_auto_increment := carts_auto_increment w;
     tickets_auto_increment := tickets_auto_increment w;
     trace := trace w |}.

Definition set_settings (f : gmap string string → gmap string string) (w : world) : world :=
  {| items := items w; carts := carts w; users := users w;
     tickets := tickets w; settings := f (settings w); analytics := analytics w;
     items_auto_increment := items_auto_increment w;
     carts_auto_increment := carts_auto_increment w;
     tickets_auto_increment := tickets_auto_increment w;
     trace := trace w |}.

Definition log_analytics (r : analytics_row) (w : world) : world :=
  {| items := items w; carts := carts w; users := users w;
     tickets := tickets w; settings := settings w; analytics := analytics w ++ [r];
     items_auto_increment := items_auto_increment w;
     carts_auto_increment := carts_auto_increment w;
     tickets_auto_increment := tickets_auto_increment w;
     trace := trace w |}.

(** Record an effect outside the store. *)
Definition emit (e : effect) (w : world) : world :=
  {| items := items w; carts := carts w; users := users w;
     tickets := tickets w; settings := settings w; analytics := analytics w;
     items_auto_increment := items_auto_increment w;
     carts_auto_increment := carts_auto_increment w;
     tickets_auto_increment := tickets_auto_increment w;
     trace := e :: trace w |}.

(** The order in which a query without ORDER BY returns the rows of a
    table read through its PRIMARY KEY: ascending [id]. *)
Definition by_id {A} (a b : Z * A) : Prop := a.1 ≤ b.1.

Global Instance by_id_dec {A} : RelDecision (@by_id A).
Proof. intros a b. unfold by_id. apply _. Defined.

(** [SELECT * FROM t WHERE p], [fetch='all']: the matching rows, lowest
    [id] first. *)
Definition select_all {A} (p : A → bool) (t : gmap Z A) : list (Z * A) :=
  merge_sort by_id (filter (λ kr, p kr.2 = true) (map_to_list t)).

(** [SELECT * FROM t WHERE p], [fetch='one']: the first of these rows, the
    match with the lowest [id]. *)
Definition select_one {A} (p : A → bool) (t : gmap Z A) : option (Z * A) :=
  head (select_all p t).

(** [UPDATE t SET ... WHERE id = k]. *)
Definition update_id {A} (k : Z) (f : A → A) (t : gmap Z A) : gmap Z A :=
  alter f k t.

(** [UPDATE t SET ... WHERE p]. *)
Definition update_where {A} (p : A → bool) (f : A → A) (t : gmap Z A) : gmap Z A :=
  (λ r, if p r then f r else r) <$> t.

(** [DELETE FROM t WHERE p]. *)
Definition delete_where {A} (p : A → bool) (t : gmap Z A) : gmap Z A :=
  filter (λ kr, p kr.2 = false) t.

(** [INSERT INTO carts (user_id, cart_data, last_activity) VALUES ...];
    the other columns take their defaults.  Returns [lastrowid]. *)
Definition insert_cart (user : Z) (now : Z) (w : world) : Z * world :=
  let k := carts_auto_increment w in
  let row := {| user_id := user; channel_id := None; cart_data := ∅;
                message_id := None; invoice_message_id := None;
                payment_id := None; credit_applied := 0;
                last_activity := now; status := active;
                cart_payment_method := None |} in
  (k, {| items := items w; carts := <[k := row]> (carts w); users := users w;
         tickets := tickets w; settings := settings w; analytics := analytics w;
         items_auto_increment := items_auto_increment w;
         carts_auto_increment := k + 1;
         tickets_auto_increment := tickets_auto_increment w;
         trace := trace w |}).

(** [INSERT INTO tickets (user_id, channel_id) VALUES ...]. *)
Definition insert_ticket (user channel : Z) (w : world) : world :=
  let k := tickets_auto_increment w in
  let row := {| ticket_user_id := user; ticket_channel_id := channel;
                ticket_state := ticket_open |} in
  {| items := items w; carts := carts w; users := users w;
     tickets := <[k := row]> (tickets w); settings := settings w;
     analytics := analytics w;
     items_auto_increment := items_auto_increment w;
     carts_auto_increment := carts_auto_increment w;
     tickets_auto_increment := k + 1;
     trace := trace w |}.

(** [INSERT INTO items (name, price, ..., quantity, message_id, channel_id)].
    The UNIQUE index on [name] makes the statement fail, and
    [execute_query] swallow the error, when the name is taken. *)
Definition insert_item (r : item_row) (w : world) : world :=
  match select_one (λ i, bool_decide (item_name i = item_name r)) (items w) with
  | Some _ => w
  | None =>
    let k := items_auto_increment w in
    {| items := <[k := r]> (items w); carts := carts w; users := users w;
       tickets := tickets w; settings := settings w; analytics := analytics w;
       items_auto_increment := k + 1;
       carts_auto_increment := carts_auto_increment w;
       tickets_auto_increment := tickets_auto_increment w;
       trace := trace w |}
  end.

(** [INSERT INTO users (id, col) VALUES (u, x) ON DUPLICATE KEY UPDATE ...]:
    [fresh] is the row inserted when [u] has none, [f] the update. *)
Definition upsert_user (u : Z) (fresh : user_row) (f : user_row → user_row)
    (t : gmap Z user_row) : gmap Z user_row :=
  match t !! u with
  | Some r => <[u := f r]> t
  | None => <[u := fresh]> t
  end.

(** [Database.get_setting]. *)
Definition get_setting (key : string) (w : world) : option string :=
  settings w !! key.

(** [Database.set_setting]. *)
Definition set_setting (key value : string) (w : world) : world :=
  set_settings (<[key := value]>) w.

End Sql.

Import Sql.

(** Python truthiness of a nullable BIGINT and of a nullable VARCHAR. *)
Definition truthy_id (o : option Z) : bool :=
  match o with
  | Some z => negb (z =? 0)
  | None => false
  end.

Definition truthy_str (o : option string) : bool :=
  match o with
  | Some s => negb (bool_decide (s = ""%string))
  | None => false
  end.

(** [db.get_setting('shop_status') == 'closed'] *)
Definition shop_closed (w : world) : bool :=
  bool_decide (get_setting "shop_status" w = Some "closed"%string).

(** [sum(i['quantity'] * i['price'] for i in cart.values())], counted in
    cents and exactly.  The source computes it on Python floats; what
    depends on the rounding of that sum, a comparison of two amounts that
    are equal in cents, is stated on [Float64.total_price] below. *)
Definition total_price (cart : cart_contents) : Z :=
  foldr (λ kv acc, quantity kv.2 * price kv.2 + acc) 0 (map_to_list cart).

(** [bot.get_channel(cart_data['channel_id'])] on a nullable column. *)
Definition channel_found (env : environment) (c : option Z) : bool :=
  match c with
  | Some ch => get_channel env ch
  | None => false
  end.

(** [user_data['balance'] if user_data else 0] ([CreditCog.balance_check]). *)
Definition balance_of (w : world) (u : Z) : Z :=
  match users w !! u with
  | Some r => balance r
  | None => 0
  end.

Definition lifetime_spent_of (w : world) (u : Z) : Z :=
  match users w !! u with
  | Some r => lifetime_spent r
  | None => 0
  end.

(** [items.quantity] of an item, when the row exists. *)
Definition stock_of (w : world) (i : Z) : option Z :=
  item_quantity <$> items w !! i.

(** ** Column updates, one per [SET] clause of the source *)

(** [SET invoice_message_id = NULL, payment_id = NULL,
    payment_method = NULL, status = 'active'] *)
Definition clear_invoice (r : cart_row) : cart_row :=
  {| user_id := user_id r; channel_id := channel_id r; cart_data := cart_data r;
     message_id := message_id r; invoice_message_id := None; payment_id := None;
     credit_applied := credit_applied r; last_activity := last_activity r;
     status := active; cart_payment_method := None |}.

(** [SET status = s] *)
Definition with_status (s : cart_status) (r : cart_row) : cart_row :=
  {| user_id := user_id r; channel_id := channel_id r; cart_data := cart_data r;
     message_id := message_id r; invoice_message_id := invoice_message_id r;
     payment_id := payment_id r; credit_applied := credit_applied r;
     last_activity := last_activity r; status := s;
     cart_payment_method := cart_payment_method r |}.

(** [SET channel_id = ch] *)
Definition set_channel_id (ch : Z) (r : cart_row) : cart_row :=
  {| user_id := user_id r; channel_id := Some ch; cart_data := cart_data r;
     message_id := message_id r; invoice_message_id := invoice_message_id r;
     payment_id := payment_id r; credit_applied := credit_applied r;
     last_activity := last_activity r; status := status r;
     cart_payment_method := cart_payment_method r |}.

(** [SET payment_id = p, payment_method = m, status = 'pending_payment',
    last_activity = now] *)
Definition set_payment (p : string) (m : payment_method) (now : Z)
    (r : cart_row) : cart_row :=
  {| user_id := user_id r; channel_id := channel_id r; cart_data := cart_data r;
     message_id := message_id r; invoice_message_id := invoice_message_id r;
     payment_id := Some p; credit_applied := credit_applied r;
     last_activity := now; status := pending_payment;
     cart_payment_method := Some m |}.

(** [SET payment_method = m, status = 'pending_payment', last_activity = now] *)
Definition set_method (m : payment_method) (now : Z) (r : cart_row) : cart_row :=
  {| user_id := user_id r; channel_id := channel_id r; cart_data := cart_data r;
     message_id := message_id r; invoice_message_id := invoice_message_id r;
     payment_id := payment_id r; credit_applied := credit_applied r;
     last_activity := now; status := pending_payment;
     cart_payment_method := Some m |}.

(** [SET invoice_message_id = m] *)
Definition set_invoice_message_id (m : Z) (r : cart_row) : cart_row :=
  {| user_id := user_id r; channel_id := channel_id r; cart_data := cart_data r;
     message_id := message_id r; invoice_message_id := Some m;
     payment_id := payment_id r; credit_applied := credit_applied r;
     last_activity := last_activity r; status := status r;
     cart_payment_method := cart_payment_method r |}.

(** [SET message_id = m, cart_data = cart] *)
Definition set_message_and_data (m : Z) (cart : cart_contents)
    (r : cart_row) : cart_row :=
  {| user_id := user_id r; channel_id := channel_id r; cart_data := cart;
     message_id := Some m; invoice_message_id := invoice_message_id r;
     payment_id := payment_id r; credit_applied := credit_applied r;
     last_activity := last_activity r; status := status r;
     cart_payment_method := cart_payment_method r |}.

(** [SET cart_data = cart, last_activity = now] *)
Definition set_data_and_activity (cart : cart_contents) (now : Z)
    (r : cart_row) : cart_row :=
  {| user_id := user_id r; channel_id := channel_id r; cart_data := cart;
     message_id := message_id r; invoice_message_id := invoice_message_id r;
     payment_id := payment_id r; credit_applied := credit_applied r;
     last_activity := now; status := status r;
     cart_payment_method := cart_payment_method r |}.

(** [SET credit_applied = credit_applied + x] *)
Definition add_credit_applied (x : Z) (r : cart_row) : cart_row :=
  {| user_id := user_id r; channel_id := channel_id r; cart_data := cart_data r;
     message_id := message_id r; invoice_message_id := invoice_message_id r;
     payment_id := payment_id r; credit_applied := credit_applied r + x;
     last_activity := last_activity r; status := status r;
     cart_payment_method := cart_payment_method r |}.

(** [SET quantity = quantity + x] *)
Definition add_quantity (x : Z) (r : item_row) : item_row :=
  {| item_name := item_name r; item_price := item_price r;
     item_quantity := item_quantity r + x;
     item_message_id := item_message_id r; item_channel_id := item_channel_id r |}.

(** [SET balance = balance + x] *)
Definition add_balance (x : Z) (r : user_row) : user_row :=
  {| balance := balance r + x; lifetime_spent := lifetime_spent r;
     delivery_value_handled := delivery_value_handled r |}.

(** [SET balance = x] *)
Definition set_balance (x : Z) (r : user_row) : user_row :=
  {| balance := x; lifetime_spent := lifetime_spent r;
     delivery_value_handled := delivery_value_handled r |}.

(** [SET lifetime_spent = lifetime_spent + x] *)
Definition add_lifetime_spent (x : Z) (r : user_row) : user_row :=
  {| balance := balance r; lifetime_spent := lifetime_spent r + x;
     delivery_value_handled := delivery_value_handled r |}.

(** [SET delivery_value_handled = delivery_value_handled + x] *)
Definition add_delivery_value (x : Z) (r : user_row) : user_row :=
  {| balance := balance r; lifetime_spent := lifetime_spent r;
     delivery_value_handled := delivery_value_handled r + x |}.

(** [SET status = 'closed'] on a ticket *)
Definition close_ticket_row (r : ticket_row) : ticket_row :=
  {| ticket_user_id := ticket_user_id r; ticket_channel_id := ticket_channel_id r;
     ticket_state := ticket_closed |}.

(** [WHERE channel_id = ch] on [carts]. *)
Definition in_channel (ch : Z) (r : cart_row) : bool :=
  bool_decide (channel_id r = Some ch).

(** [status in ['paid', 'completed', 'closed']] *)
Definition already_processed (s : cart_status) : bool :=
  match s with
  | paid | completed | closed => true
  | _ => false
  end.

(** ** [ui/views.py] *)

(** [cancel_invoice(cart_data, channel, reason)].  [cart] is the row the
    caller read earlier (identified by [cid]), not a fresh read. *)
Definition cancel_invoice (env : environment) (cid : Z) (cart : cart_row)
    (channel : Z) (reason : string) (w : world) : world :=
  match invoice_message_id cart with
  | Some m =>
    if m =? 0 then w else
    (* discord.NotFound is caught: the message may already be gone *)
    let w := if fetch_message env m then emit (MessageDelete m) w else w in
    let w := set_carts (update_id cid clear_invoice) w in
    emit (ChannelSend channel (InvoiceCanceled reason)) w
  | None => w
  end.

(** [for item_id in cart.keys(): if analytics_cog:
    analytics_cog.log_event('purchase', item_id, user_id)] *)
Definition log_purchases (env : environment) (user : Z) (item_ids : list Z)
    (w : world) : world :=
  foldl (λ w item_id,
    if analytics_cog env
    then log_analytics {| event_type := "purchase"; event_item_id := item_id;
                          event_user_id := user |} w
    else w) w item_ids.

(** Whether [process_paid_order] for a cart of [user] runs to its end.
    After its two writes and the analytics rows it raises when
    [guild.fetch_member] fails in [check_and_apply_roles] (the users row
    exists by then), and when [SHOP_DELIVERY_PING_ROLE_ID] is not set. *)
Definition order_announced (env : environment) (user : Z) : bool :=
  fetch_member env user && bool_decide (delivery_ping_role env ≠ None).

(** [process_paid_order(channel, cart_data, credit_spent=0)].  The roles
    granted by [check_and_apply_roles] are left to [Roles]; an exception
    ends the function where it is raised, the store staying as written. *)
Definition process_paid_order (env : environment) (channel : Z) (cid : Z)
    (cart_row : cart_row) (credit_spent : Z) (w : world) : world :=
  let cart := cart_data cart_row in
  let real_money_spent := total_price cart - credit_spent in
  let w := set_users (upsert_user (user_id cart_row)
             {| balance := 0; lifetime_spent := real_money_spent;
                delivery_value_handled := 0 |}
             (add_lifetime_spent real_money_spent)) w in
  let w := set_carts (update_id cid (with_status paid)) w in
  let w := log_purchases env (user_id cart_row) (map_to_list cart).*1 w in
  if fetch_member env (user_id cart_row) then
    let w := emit (RolesChecked (user_id cart_row)) w in
    match delivery_ping_role env with
    | Some found =>
      let w := if found then emit (ChannelSend channel DeliveryPing) w else w in
      let w := emit (ChannelSend channel PaymentSuccessful) w in
      emit (ChannelRename channel "paid-cart-" cid) w
    | None => w (* TypeError from int(None) *)
    end
  else w (* guild.fetch_member raises *).

Module CancelInvoiceView.

(** [cancel_transaction], the button under a hosted-link invoice. *)
Definition cancel_transaction (env : environment) (cart_id : Z) (w : world) : world :=
  match carts w !! cart_id with
  | Some c =>
    match channel_id c with
    | Some ch =>
      if get_channel env ch then
        let w := cancel_invoice env cart_id c ch
                   "You manually canceled the transaction." w in
        emit (Reply TransactionCanceled) w
      else emit (Reply CartChannelNotFound) w
    | None => emit (Reply CartChannelNotFound) w
    end
  | None => emit (Reply CartNotFound) w
  end.

End CancelInvoiceView.

Module CryptoCoinSelectionView.

(** [coin_select].  [cart_id], [cart] and [total] are the fields the view
    was constructed with; [invoice_message] is the id the platform gives
    to the posted instructions. *)
Definition coin_select (env : environment) (cart_id : Z) (cart : cart_row)
    (total : Z) (selected_coin : string) (invoice_message : Z)
    (w : world) : world :=
  if negb (get_coin_price env selected_coin)
  then emit (Reply CoinPriceUnavailable) w
  else if negb (wallet_address env selected_coin)
  then emit (Reply WalletNotConfigured) w
  else
    let w := set_carts (update_id cart_id
               (set_method (crypto selected_coin) (utcnow env))) w in
    match channel_id cart with
    | Some ch =>
      if get_channel env ch then
        let w := emit (ChannelSend ch (CryptoInvoice selected_coin total)) w in
        let w := set_carts (update_id cart_id
                   (set_invoice_message_id invoice_message)) w in
        emit (Reply CryptoInstructionsSent) w
      else emit (Reply CartChannelNotFound) w
    | None => emit (Reply CartChannelNotFound) w
    end.

End CryptoCoinSelectionView.

Module CryptoConfirmationView.

(** [confirm_payment], the "I Have Paid" button. *)
Definition confirm_payment (cart_id channel : Z) (w : world) : world :=
  let w := set_carts (update_id cart_id (with_status pending_manual_verification)) w in
  emit (ChannelSend channel PendingVerification) w.

(** [cancel_payment] *)
Definition cancel_payment (env : environment) (cart_id channel : Z)
    (w : world) : world :=
  let w := match carts w !! cart_id with
           | Some c => cancel_invoice env cart_id c channel
                         "You manually canceled the transaction." w
           | None => w
           end in
  emit (Reply TransactionCanceled) w.

End CryptoConfirmationView.

Module PaymentMethodView.

(** [crypto_checkout] *)
Definition crypto_checkout (env : environment) (channel : Z) (w : world) : world :=
  match select_one (in_channel channel) (carts w) with
  | None => emit (Reply CartNotFound) w
  | Some (cid, c) =>
    if already_processed (status c) then emit (Reply AlreadyProcessed) w
    else if bool_decide (status c = pending_payment)
    then emit (Reply PaymentAlreadyPending) w
    else if shop_closed w then emit (Reply ShopClosedCheckout) w
    else
      let total := total_price (cart_data c) in
      if total <? purchase_minimum env
      then emit (Reply (MinimumNotMet (purchase_minimum env))) w
      else
        let w := if truthy_id (invoice_message_id c) && channel_found env (channel_id c)
                 then cancel_invoice env cid c (default 0 (channel_id c))
                        "A new payment method was selected." w
                 else w in
        emit (Reply (SelectCoin total)) w
  end.

(** [handle_checkout(interaction, method)], reached from the PayPal
    button.  [invoice_message] is the id the platform gives to the posted
    invoice. *)
Definition handle_checkout (env : environment) (channel : Z)
    (method : payment_method) (invoice_message : Z) (w : world) : world :=
  match select_one (in_channel channel) (carts w) with
  | None => emit (Reply CartNotFound) w
  | Some (cid, c) =>
    if already_processed (status c) then emit (Reply AlreadyProcessed) w
    else if bool_decide (status c = pending_payment)
    then emit (Reply PaymentAlreadyPending) w
    else if shop_closed w && negb (truthy_str (payment_id c))
    then emit (Reply ShopClosedCheckout) w
    else
      let total := total_price (cart_data c) in
      if total <? purchase_minimum env
      then emit (Reply (MinimumNotMet (purchase_minimum env))) w
      else
        let canceling := truthy_id (invoice_message_id c)
                         && channel_found env (channel_id c) in
        let w := if canceling
                 then cancel_invoice env cid c (default 0 (channel_id c))
                        "A new payment method was selected or a new invoice was generated." w
                 else w in
        (* the cart is read again after a cancellation *)
        match (if canceling then select_one (in_channel channel) (carts w)
               else Some (cid, c)) with
        | None => emit (Reply CartDisappeared) w
        | Some (cid, c) =>
          let w := emit (GatewayCreate total cid) w in
          match create_payment env total cid with
          | Some (approval_url, payment) =>
            if negb (bool_decide (approval_url = ""%string))
               && negb (bool_decide (payment = ""%string))
            then
              let w := set_carts (update_id cid
                         (set_payment payment method (utcnow env))) w in
              let w := emit (ChannelSend channel (CheckoutInvoice approval_url)) w in
              let w := set_carts (update_id cid
                         (set_invoice_message_id invoice_message)) w in
              emit (Reply PaymentLinkGenerated) w
            else emit (Reply PaymentLinkError) w
          | None => emit (Reply PaymentLinkError) w
          end
        end
  end.

End PaymentMethodView.

Module LeaveReviewView.

(** [close_cart] of the review prompt: the buyer archives a delivered order. *)
Definition close_cart (channel : Z) (w : world) : world :=
  match select_one (in_channel channel) (carts w) with
  | None => w
  | Some (cid, c) =>
    let w := set_carts (update_id cid (with_status completed)) w in
    let w := emit (ChannelRename channel "completed-cart-" cid) w in
    emit (ChannelSend channel CartArchived) w
  end.

End LeaveReviewView.

Module DeleteCartView.

Definition delete_cart (channel : Z) (w : world) : world :=
  let w := emit (ChannelDelete channel) w in
  set_carts (delete_where (in_channel channel)) w.

End DeleteCartView.

Module DeleteTicketView.

Definition delete_ticket (channel : Z) (w : world) : world :=
  let w := emit (ChannelDelete channel) w in
  set_tickets (delete_where (λ t, bool_decide (ticket_channel_id t = channel))) w.

End DeleteTicketView.

Module ShopItemView.

(** The cart dictionary after the button's edit:
    [cart[item_id] = {'quantity': cart.get(item_id, {}).get('quantity', 0) + quantity, ...}]
    for an addition, and for a removal
    [cart[item_id]['quantity'] -= quantity], the line being deleted when
    nothing is left of it. *)
Definition edit_cart (add : bool) (item_id : Z) (item : item_row) (n : Z)
    (cart : cart_contents) : cart_contents :=
  if add then
    let held := match cart !! item_id with
                | Some l => quantity l
                | None => 0
                end in
    <[item_id := {| quantity := held + n; price := item_price item;
                    name := item_name item |}]> cart
  else
    match cart !! item_id with
    | Some l =>
      if quantity l - n <=? 0 then delete item_id cart
      else <[item_id := {| quantity := quantity l - n; price := price l;
                           name := name l |}]> cart
    | None => cart
    end.

(** [handle_cart_action(interaction, add)].  [user] is the caller,
    [message] the item message carrying the button, [n] the quantity typed
    into the modal (an [int]; other input raises [ValueError] before the
    store is touched).  [new_channel] and [new_message] are the ids the
    platform gives to a created cart channel and a posted cart summary. *)
Definition handle_cart_action (env : environment) (user message n : Z)
    (add : bool) (new_channel new_message : Z) (w : world) : world :=
  if shop_closed w then emit (Reply ShopClosed) w else
  let item := select_one (λ i, bool_decide (item_message_id i = message)) (items w) in
  (* find the caller's active cart, or open one *)
  let '(cart_row, cart_channel, w) :=
    match select_one (λ c, bool_decide (user_id c = user)
                           && bool_decide (status c = active)) (carts w) with
    | None =>
      let '(cid, w) := insert_cart user (utcnow env) w in
      let w := emit (ChannelCreate new_channel) w in
      let w := set_carts (update_id cid (set_channel_id new_channel)) w in
      ((λ c, (cid, c)) <$> carts w !! cid, Some new_channel, w)
    | Some (cid, c) =>
      (Some (cid, c),
       if channel_found env (channel_id c) then channel_id c else None, w)
    end in
  (* stock *)
  let checked :=
    if add then
      match item with
      | Some (item_id, i) =>
        if item_quantity i <? n then inl (emit (Reply InsufficientStock) w)
        else inr (set_items (update_id item_id (add_quantity (- n))) w)
      | None => inl (emit (Reply InsufficientStock) w)
      end
    else
      match cart_row with
      | None => inl (emit (Reply NoActiveCart) w)
      | Some _ =>
        match item with
        | Some (item_id, i) =>
          inr (set_items (update_id item_id (add_quantity n)) w)
        | None => inl w (* TypeError: item is None *)
        end
      end in
  match checked, item, cart_row with
  | inl w, _, _ => w
  | inr w, Some (item_id, i), Some (cid, c) =>
    (* a stale invoice goes first *)
    let stale := truthy_id (invoice_message_id c) in
    match (if stale then
             match cart_channel with
             | Some ch => Some (cancel_invoice env cid c ch "Your cart was modified." w)
             | None => None (* AttributeError: channel is None *)
             end
           else Some w) with
    | None => w
    | Some w =>
      let cart := edit_cart add item_id i n (cart_data c) in
      let summary := CartSummary cart (total_price cart) in
      match cart_channel with
      | None => w (* AttributeError: cart_channel is None *)
      | Some ch =>
        match message_id c with
        | Some m =>
          if m =? 0 then
            let w := emit (ChannelSend ch summary) w in
            set_carts (update_id cid (set_message_and_data new_message cart)) w
          else if fetch_message env m then
            let w := emit (MessageEdit m summary) w in
            set_carts (update_id cid (set_data_and_activity cart (utcnow env))) w
          else w (* discord.NotFound from fetch_message *)
        | None =>
          let w := emit (ChannelSend ch summary) w in
          set_carts (update_id cid (set_message_and_data new_message cart)) w
        end
      end
    end
  | inr w, _, _ => w (* TypeError: item or cart_data is None *)
  end.

Definition add_to_cart env user message n := handle_cart_action env user message n true.
Definition remove_from_cart env user message n := handle_cart_action env user message n false.

End ShopItemView.

Module CartView.

(** [apply_credit].  [user] is the caller, [channel] the cart channel,
    [amount] the number typed into the modal (a [float]; other input
    raises [ValueError] before the store is touched). *)
Definition apply_credit (env : environment) (user channel amount : Z)
    (w : world) : world :=
  if shop_closed w then emit (Reply ShopClosed) w else
  match users w !! user with
  | None => emit (ChannelSend channel NotEnoughCredit) w
  | Some user_data =>
    if amount >? balance user_data
    then emit (ChannelSend channel NotEnoughCredit) w
    else
      match select_one (in_channel channel) (carts w) with
      | None => w (* TypeError: cart_data is None *)
      | Some (cid, c) =>
        let total := total_price (cart_data c) in
        let credit_to_apply := Z.min amount total in
        let w := set_users (update_id user (add_balance (- credit_to_apply))) w in
        let w := set_carts (update_id cid (add_credit_applied credit_to_apply)) w in
        let w := emit (Reply (CreditApplied credit_to_apply (total - credit_to_apply))) w in
        if total - credit_to_apply <=? 0
        then process_paid_order env channel cid c credit_to_apply w
        else w
      end
  end.

(** [for item_id, i in cart.items():
    UPDATE items SET quantity = quantity + i['quantity'] WHERE id = item_id] *)
Definition restore_stock (lines : list (Z * line_item)) (w : world) : world :=
  foldl (λ w kv, set_items (update_id kv.1 (add_quantity (quantity kv.2))) w)
        w lines.

(** [checkout]: only opens the payment-method menu. *)
Definition checkout (channel : Z) (w : world) : world :=
  let paying := match select_one (in_channel channel) (carts w) with
                | Some (_, c) => truthy_str (payment_id c)
                | None => false
                end in
  if shop_closed w && negb paying then emit (Reply ShopClosed) w
  else emit (Reply SelectPaymentMethod) w.

(** [close_cart]: the buyer abandons the cart. *)
Definition close_cart (channel : Z) (w : world) : world :=
  match select_one (in_channel channel) (carts w) with
  | None => w
  | Some (cid, c) =>
    let w := restore_stock (map_to_list (cart_data c)) w in
    let w := if credit_applied c >? 0
             then set_users (update_id (user_id c) (add_balance (credit_applied c))) w
             else w in
    let w := emit (ChannelRename channel "closed-cart-" cid) w in
    let w := emit (ChannelSend channel CartArchived) w in
    set_carts (update_id cid (with_status closed)) w
  end.

End CartView.

Module TicketCreationView.

(** [SELECT * FROM tickets WHERE user_id = %s AND status = 'open'] *)
Definition is_open_ticket_of (user : Z) (t : ticket_row) : bool :=
  bool_decide (ticket_user_id t = user) && bool_decide (ticket_state t = ticket_open).

(** [open_ticket].  [new_channel] is the id of the created channel. *)
Definition open_ticket (user new_channel : Z) (w : world) : world :=
  match select_one (is_open_ticket_of user) (tickets w) with
  | Some _ => emit (Reply AlreadyOpenTicket) w
  | None =>
    let w := emit (ChannelCreate new_channel) w in
    let w := insert_ticket user new_channel w in
    let w := emit (ChannelSend new_channel TicketWelcome) w in
    emit (Reply TicketCreated) w
  end.

End TicketCreationView.

Module TicketChannelView.

Definition close_ticket (channel : Z) (w : world) : world :=
  let w := set_tickets (update_where
             (λ t, bool_decide (ticket_channel_id t = channel)) close_ticket_row) w in
  emit (ChannelSend channel TicketClosed) w.

End TicketChannelView.

(** [channel = self.bot.get_channel(row['channel_id'])] followed by
    [if channel: await channel.delete()] *)
Definition delete_channel (env : environment) (channel : option Z)
    (w : world) : world :=
  match channel with
  | Some ch => if get_channel env ch then emit (ChannelDelete ch) w else w
  | None => w
  end.

(** ** [cogs/shop.py] *)

Module ShopCog.

(** [complete_order]: an admin records a delivery in a paid cart channel. *)
Definition complete_order (admin channel : Z) (w : world) : world :=
  match select_one (in_channel channel) (carts w) with
  | None => emit (Reply NotPaidCart) w
  | Some (cid, c) =>
    if bool_decide (status c = paid) then
      let total_value := total_price (cart_data c) in
      let w := set_users (upsert_user admin
                 {| balance := 0; lifetime_spent := 0;
                    delivery_value_handled := total_value |}
                 (add_delivery_value total_value)) w in
      emit (Reply OrderDelivered) w
    else emit (Reply NotPaidCart) w
  end.

(** [complete_crypto_order]: an admin confirms a crypto payment. *)
Definition complete_crypto_order (env : environment) (cart_id : Z)
    (w : world) : world :=
  match carts w !! cart_id with
  | None => emit (Reply CartNotFound) w
  | Some c =>
    if bool_decide (status c = pending_manual_verification) then
      match channel_id c with
      | Some ch =>
        if get_channel env ch then
          let w := process_paid_order env ch cart_id c 0 w in
          (* an exception of process_paid_order ends the command *)
          if order_announced env (user_id c) then emit (Reply MarkedPaid) w
          else w
        else emit (Reply CartChannelNotFound) w
      | None => emit (Reply CartChannelNotFound) w
      end
    else emit (Reply NotPendingVerification) w
  end.

(** [create]: [message] is the id of the posted item message. *)
Definition create (item_name : string) (item_price item_quantity : Z)
    (message channel : Z) (w : world) : world :=
  insert_item {| item_name := item_name; item_price := item_price;
                 item_quantity := item_quantity; item_message_id := message;
                 item_channel_id := channel |} w.

Definition restock (item_id n : Z) (w : world) : world :=
  set_items (update_id item_id (add_quantity n)) w.

(** [remove]: by id when the identifier is all digits, by name otherwise. *)
Definition remove (identifier : Z + string) (w : world) : world :=
  let found := match identifier with
               | inl k => (λ i, (k, i)) <$> items w !! k
               | inr s => select_one (λ i, bool_decide (item_name i = s)) (items w)
               end in
  match found with
  | Some (k, i) =>
    let w := emit (MessageDelete (item_message_id i)) w in
    set_items (delete k) w
  | None => w
  end.

(** [set_status], on the lower-cased argument. *)
Definition set_status (s : string) (w : world) : world :=
  if bool_decide (s = "open"%string) || bool_decide (s = "closed"%string)
  then set_setting "shop_status" s w
  else w.

(** [wipe_all_carts], once the admin has confirmed. *)
Definition wipe_all_carts (env : environment) (w : world) : world :=
  foldl (λ w kc, set_carts (delete kc.1) (delete_channel env (channel_id kc.2) w))
        w (select_all (λ _, true) (carts w)).

(** [WHERE status = 'pending_payment' AND payment_method = 'paypal'
    AND payment_id IS NOT NULL] *)
Definition awaiting_paypal (c : cart_row) : bool :=
  bool_decide (status c = pending_payment)
  && bool_decide (cart_payment_method c = Some paypal)
  && bool_decide (payment_id c ≠ None).

(** The body of the loop of [check_pending_payments] for one cart of the
    result set. *)
Definition check_pending_payment (env : environment) (w : world)
    (kc : Z * cart_row) : world :=
  let '(cid, cart) := kc in
  match channel_id cart, payment_id cart with
  | Some ch, Some payment =>
    if get_channel env ch then
      let w := emit (GatewayQuery payment) w in
      match get_payment_details env payment with
      | None => w
      | Some order_status =>
        if bool_decide (order_status = "APPROVED"%string) then
          let w := emit (GatewayCapture payment) w in
          if bool_decide (capture_payment env payment = Some "COMPLETED"%string)
          then process_paid_order env ch cid cart 0 w
          else cancel_invoice env cid cart ch
                 "There was an issue finalizing your PayPal payment. Please contact support." w
        else w
      end
    else w (* channel not found: skipped *)
  | _, _ => w
  end.

(** [check_pending_payments], one tick of the 15-second loop. *)
Definition check_pending_payments (env : environment) (w : world) : world :=
  foldl (check_pending_payment env) w (select_all awaiting_paypal (carts w)).

(** [purge_closed_carts] *)
Definition purge_closed_carts (env : environment) (w : world) : world :=
  let w := foldl (λ w kc, delete_channel env (channel_id kc.2) w) w
             (select_all (λ c, bool_decide (status c = closed)
                               || bool_decide (status c = completed)) (carts w)) in
  set_carts (delete_where (λ c, bool_decide (status c = closed)
                                || bool_decide (status c = completed))) w.

End ShopCog.

(** ** [cogs/balance.py] *)

Module CreditCog.

(** [balance_add].  [administrator] is
    [interaction.user.guild_permissions.administrator] of the caller. *)
Definition balance_add (administrator : bool) (user amount : Z)
    (w : world) : world :=
  if negb administrator then emit (Reply NoPermission) w
  else if amount <=? 0 then emit (Reply AmountMustBePositive) w
  else
    let w := set_users (upsert_user user
               {| balance := amount; lifetime_spent := 0;
                  delivery_value_handled := 0 |} (add_balance amount)) w in
    emit (Reply BalanceChanged) w.

(** [balance_set] *)
Definition balance_set (administrator : bool) (user amount : Z)
    (w : world) : world :=
  if negb administrator then emit (Reply NoPermission) w
  else if amount <? 0 then w (* NameError: name 'T' is not defined *)
  else
    let w := set_users (upsert_user user
               {| balance := amount; lifetime_spent := 0;
                  delivery_value_handled := 0 |} (set_balance amount)) w in
    emit (Reply BalanceChanged) w.

End CreditCog.

(** ** [cogs/ticket.py] *)

Module TicketCog.

Definition purge_closed_tickets (env : environment) (w : world) : world :=
  let w := foldl (λ w kt, delete_channel env (Some (ticket_channel_id kt.2)) w) w
             (select_all (λ t, bool_decide (ticket_state t = ticket_closed)) (tickets w)) in
  set_tickets (delete_where (λ t, bool_decide (ticket_state t = ticket_closed))) w.

End TicketCog.

(** ** [utils/webhook_server.py] *)

Module WebhookServer.

Definition confirming (s : string) : bool :=
  bool_decide (s ∈ ["confirmed"; "finished"; "approved"]%string).

Definition failing (s : string) : bool :=
  bool_decide (s ∈ ["failed"; "refunded"; "expired"; "partially_paid"]%string).

(** [process_webhook_payment(cart_id, status, payload)] *)
Definition process_webhook_payment (env : environment) (cart_id : Z)
    (s : string) (w : world) : world :=
  match carts w !! cart_id with
  | None => w
  | Some cart =>
    if already_processed (status cart) then w
    else
      match channel_id cart with
      | Some ch =>
        if get_channel env ch then
          if confirming s then process_paid_order env ch cart_id cart 0 w
          else if failing s then
            cancel_invoice env cart_id cart ch
              ("Your payment has " +:+ s +:+ ". Please try again or contact support.") w
          else w
        else w
      | None => w
      end
  end.

End WebhookServer.

(** ** Every handler as one operation of the bot *)

Inductive operation :=
| CancelTransaction (cart_id : Z)
| CoinSelect (cart_id : Z) (cart : cart_row) (total : Z) (coin : string)
             (invoice_message : Z)
| ConfirmPayment (cart_id channel : Z)
| CancelPayment (cart_id channel : Z)
| CryptoCheckout (channel : Z)
| HandleCheckout (channel : Z) (method : payment_method) (invoice_message : Z)
| ArchiveCart (channel : Z)
| DeleteCart (channel : Z)
| DeleteTicket (channel : Z)
| CartAction (user message n : Z) (add : bool) (new_channel new_message : Z)
| ApplyCredit (user channel amount : Z)
| Checkout (channel : Z)
| CloseCart (channel : Z)
| OpenTicket (user new_channel : Z)
| CloseTicket (channel : Z)
| CompleteOrder (admin channel : Z)
| CompleteCryptoOrder (cart_id : Z)
| CreateItem (item_name : string) (item_price item_quantity message channel : Z)
| Restock (item_id n : Z)
| RemoveItem (identifier : Z + string)
| SetStatus (s : string)
| WipeAllCarts
| CheckPendingPayments
| PurgeClosedCarts
| BalanceAdd (administrator : bool) (user amount : Z)
| BalanceSet (administrator : bool) (user amount : Z)
| PurgeClosedTickets
| WebhookPayment (cart_id : Z) (s : string).

Definition run (env : environment) (op : operation) (w : world) : world :=
  match op with
  | CancelTransaction cart_id => CancelInvoiceView.cancel_transaction env cart_id w
  | CoinSelect cart_id cart total coin m =>
      CryptoCoinSelectionView.coin_select env cart_id cart total coin m w
  | ConfirmPayment cart_id channel =>
      CryptoConfirmationView.confirm_payment cart_id channel w
  | CancelPayment cart_id channel =>
      CryptoConfirmationView.cancel_payment env cart_id channel w
  | CryptoCheckout channel => PaymentMethodView.crypto_checkout env channel w
  | HandleCheckout channel method m =>
      PaymentMethodView.handle_checkout env channel method m w
  | ArchiveCart channel => LeaveReviewView.close_cart channel w
  | DeleteCart channel => DeleteCartView.delete_cart channel w
  | DeleteTicket channel => DeleteTicketView.delete_ticket channel w
  | CartAction user message n add new_channel new_message =>
      ShopItemView.handle_cart_action env user message n add new_channel new_message w
  | ApplyCredit user channel amount => CartView.apply_credit env user channel amount w
  | Checkout channel => CartView.checkout channel w
  | CloseCart channel => CartView.close_cart channel w
  | OpenTicket user new_channel => TicketCreationView.open_ticket user new_channel w
  | CloseTicket channel => TicketChannelView.close_ticket channel w
  | CompleteOrder admin channel => ShopCog.complete_order admin channel w
  | CompleteCryptoOrder cart_id => ShopCog.complete_crypto_order env cart_id w
  | CreateItem n p q message channel => ShopCog.create n p q message channel w
  | Restock item_id n => ShopCog.restock item_id n w
  | RemoveItem identifier => ShopCog.remove identifier w
  | SetStatus s => ShopCog.set_status s w
  | WipeAllCarts => ShopCog.wipe_all_carts env w
  | CheckPendingPayments => ShopCog.check_pending_payments env w
  | PurgeClosedCarts => ShopCog.purge_closed_carts env w
  | BalanceAdd administrator user amount =>
      CreditCog.balance_add administrator user amount w
  | BalanceSet administrator user amount =>
      CreditCog.balance_set administrator user amount w
  | PurgeClosedTickets => TicketCog.purge_closed_tickets env w
  | WebhookPayment cart_id s => WebhookServer.process_webhook_payment env cart_id s w
  end.

(** Running a list of operations in order, each to its end, under one
    environment. *)
Definition run_all (env : environment) (ops : list operation) (w : world) : world :=
  foldl (λ w op, run env op w) w ops.

(** ** Properties of interest *)

(** The quantity of an item held by a cart dictionary. *)
Definition held (cart : cart_contents) (item_id : Z) : Z :=
  match cart !! item_id with
  | Some l => quantity l
  | None => 0
  end.

(** The quantity of an item held by the lines of a dictionary, read as the
    list [cart.items()]. *)
Definition lines_held (l : list (Z * line_item)) (i : Z) : Z :=
  foldr (λ kv acc, if decide (kv.1 = i) then quantity kv.2 + acc else acc) 0 l.

(** A cart row never pairs ['active'] with an invoice reference. *)
Definition cart_ok (r : cart_row) : Prop :=
  status r = active → invoice_message_id r = None.

Definition invoice_invariant (w : world) : Prop :=
  ∀ cid r, carts w !! cid = Some r → cart_ok r.

(** No user has two open tickets. *)
Definition ticket_invariant (w : world) : Prop :=
  ∀ k1 k2 t1 t2,
    tickets w !! k1 = Some t1 → tickets w !! k2 = Some t2 →
    ticket_user_id t1 = ticket_user_id t2 →
    ticket_state t1 = ticket_open → ticket_state t2 = ticket_open →
    k1 = k2.

(** A column update that cannot produce an active row with an invoice. *)
Definition safe (f : cart_row → cart_row) : Prop :=
  ∀ r, cart_ok r → cart_ok (f r).

(** From [w0] to [w], no cart has acquired an invoice reference. *)
Definition no_new_invoice (w0 w : world) : Prop :=
  ∀ cid c', carts w !! cid = Some c' →
    invoice_message_id c' = None
    ∨ ∃ c, carts w0 !! cid = Some c ∧ invoice_message_id c = invoice_message_id c'.

(** Every invoice reference that [w] holds and [w0] did not sits on a cart
    awaiting payment. *)
Definition invoices_stored_pending (w0 w : world) : Prop :=
  ∀ cid c', carts w !! cid = Some c' →
    invoice_message_id c' = None
    ∨ (∃ c, carts w0 !! cid = Some c ∧ invoice_message_id c = invoice_message_id c')
    ∨ status c' = pending_payment.

(** The effects a handler added to the trace of [w] on the way to [w']. *)
Definition emitted (w w' : world) (new : list effect) : Prop :=
  trace w' = new ++ trace w.

(** ** Handlers that overlap

    Each handler above runs from its first line to its last.  On the
    event loop the run of a handler is cut at every [await], and other
    handlers run in the gap; what stays indivisible is one
    [execute_query], a single auto-committed statement.  A step of an
    overlapping run is either a handler that runs uninterrupted or one
    statement of a handler that is interrupted around it. *)

Module Interleaving.

(** The statements of the source that write [carts] or [tickets], each
    with the line of its [execute_query]. *)
Inductive statement :=
| InsertCart (user now : Z)
    (* views.py:406 INSERT INTO carts (user_id, cart_data, last_activity) *)
| UpdateChannel (cart_id channel : Z)
    (* views.py:417 UPDATE carts SET channel_id = %s WHERE id = %s *)
| UpdateMessageAndData (cart_id message : Z) (cart : cart_contents)
    (* views.py:454 UPDATE carts SET message_id = %s, cart_data = %s *)
| UpdateDataAndActivity (cart_id : Z) (cart : cart_contents) (now : Z)
    (* views.py:458 UPDATE carts SET cart_data = %s, last_activity = %s *)
| ClearInvoice (cart_id : Z)
    (* views.py:37 UPDATE carts SET invoice_message_id = NULL,
       payment_id = NULL, payment_method = NULL, status = 'active' *)
| UpdateMethod (cart_id : Z) (coin : string) (now : Z)
    (* views.py:109 UPDATE carts SET payment_method = %s,
       status = 'pending_payment', last_activity = %s *)
| UpdatePayment (cart_id : Z) (payment : string) (method : payment_method)
    (now : Z)
    (* views.py:285 UPDATE carts SET payment_id = %s, payment_method = %s,
       status = 'pending_payment', last_activity = %s *)
| UpdateInvoiceMessage (cart_id message : Z)
    (* views.py:135 and 297 UPDATE carts SET invoice_message_id = %s *)
| MarkPendingVerification (cart_id : Z)
    (* views.py:151 UPDATE carts SET status = 'pending_manual_verification' *)
| MarkCompleted (cart_id : Z)
    (* views.py:318 UPDATE carts SET status = 'completed' *)
| MarkPaid (cart_id : Z)
    (* views.py:336 UPDATE carts SET status = 'paid' *)
| MarkClosed (cart_id : Z)
    (* views.py:535 UPDATE carts SET status = 'closed' *)
| AddCreditApplied (cart_id amount : Z)
    (* views.py:493 UPDATE carts SET credit_applied = credit_applied + %s *)
| DeleteCartsInChannel (channel : Z)
    (* views.py:378 DELETE FROM carts WHERE channel_id = %s *)
| DeleteCartById (cart_id : Z)
    (* shop.py:294 DELETE FROM carts WHERE id = %s *)
| DeleteArchivedCarts
    (* shop.py:374 DELETE FROM carts WHERE status IN ('closed', 'completed') *)
| InsertTicket (user channel : Z)
    (* views.py:568 INSERT INTO tickets (user_id, channel_id) *)
| CloseTickets (channel : Z)
    (* views.py:577 UPDATE tickets SET status = 'closed' WHERE channel_id = %s *)
| DeleteTicketsInChannel (channel : Z)
    (* views.py:385 DELETE FROM tickets WHERE channel_id = %s *)
| DeleteClosedTickets
    (* ticket.py:53 DELETE FROM tickets WHERE status = 'closed' *).

Definition execute (s : statement) (w : world) : world :=
  match s with
  | InsertCart user now => (insert_cart user now w).2
  | UpdateChannel cid ch => set_carts (update_id cid (set_channel_id ch)) w
  | UpdateMessageAndData cid m cart =>
      set_carts (update_id cid (set_message_and_data m cart)) w
  | UpdateDataAndActivity cid cart now =>
      set_carts (update_id cid (set_data_and_activity cart now)) w
  | ClearInvoice cid => set_carts (update_id cid clear_invoice) w
  | UpdateMethod cid coin now =>
      set_carts (update_id cid (set_method (crypto coin) now)) w
  | UpdatePayment cid payment method now =>
      set_carts (update_id cid (set_payment payment method now)) w
  | UpdateInvoiceMessage cid m =>
      set_carts (update_id cid (set_invoice_message_id m)) w
  | MarkPendingVerification cid =>
      set_carts (update_id cid (with_status pending_manual_verification)) w
  | MarkCompleted cid => set_carts (update_id cid (with_status completed)) w
  | MarkPaid cid => set_carts (update_id cid (with_status paid)) w
  | MarkClosed cid => set_carts (update_id cid (with_status closed)) w
  | AddCreditApplied cid x => set_carts (update_id cid (add_credit_applied x)) w
  | DeleteCartsInChannel ch => set_carts (delete_where (in_channel ch)) w
  | DeleteCartById cid => set_carts (delete cid) w
  | DeleteArchivedCarts =>
      set_carts (delete_where (λ c, bool_decide (status c = closed)
                                    || bool_decide (status c = completed))) w
  | InsertTicket user ch => insert_ticket user ch w
  | CloseTickets ch =>
      set_tickets (update_where (λ t, bool_decide (ticket_channel_id t = ch))
                     close_ticket_row) w
  | DeleteTicketsInChannel ch =>
      set_tickets (delete_where (λ t, bool_decide (ticket_channel_id t = ch))) w
  | DeleteClosedTickets =>
      set_tickets (delete_where (λ t, bool_decide (ticket_state t = ticket_closed))) w
  end.

Inductive step :=
| Handler (env : environment) (op : operation)
| Statement (s : statement).

Definition perform (st : step) (w : world) : world :=
  match st with
  | Handler env op => run env op w
  | Statement s => execute s w
  end.

(** An overlapping run: its steps in the order in which they take
    effect. *)
Definition perform_all (l : list step) (w : world) : world :=
  foldl (λ w st, perform st w) w l.

(** The cart is not ['active'] (or is gone). *)
Definition not_active (cart_id : Z) (w : world) : bool :=
  match carts w !! cart_id with
  | Some c => bool_decide (status c ≠ active)
  | None => true
  end.

(** No checkout of the run is disturbed: whenever its invoice UPDATE takes
    effect, the cart has not been set back to ['active'] since its status
    UPDATE. *)
Fixpoint invoices_stored_undisturbed (l : list step) (w : world) : bool :=
  match l with
  | [] => true
  | st :: l =>
    match st with
    | Statement (UpdateInvoiceMessage cid _) => not_active cid w
    | _ => true
    end && invoices_stored_undisturbed l (perform st w)
  end.

(** No [open_ticket] of the run is disturbed: whenever its INSERT takes
    effect, its SELECT would still find no open ticket of the user. *)
Fixpoint tickets_inserted_undisturbed (l : list step) (w : world) : bool :=
  match l with
  | [] => true
  | st :: l =>
    match st with
    | Statement (InsertTicket user _) =>
        bool_decide (select_one (TicketCreationView.is_open_ticket_of user)
                       (tickets w) = None)
    | _ => true
    end && tickets_inserted_undisturbed l (perform st w)
  end.

End Interleaving.

(** ** Concrete scenarios

    One item, a sword at 10.00 with five in stock, posted as message 100;
    buyer 7, whose cart channel is 200. *)

Module Scenario.

(** The platform finds every channel and message; the gateway issues a
    link, reports the order approved and captures it. *)
Definition env : environment :=
  {| get_channel := λ _, true;
     fetch_message := λ _, true;
     create_payment := λ _ _, Some ("https://pay.example/1", "PAY-1")%string;
     get_payment_details := λ _, Some "APPROVED"%string;
     capture_payment := λ _, Some "COMPLETED"%string;
     analytics_cog := true;
     get_coin_price := λ _, true;
     wallet_address := λ _, true;
     purchase_minimum := 50;
     utcnow := 0;
     fetch_member := λ _, true;
     delivery_ping_role := Some true |}.

(** The same, but the cart channels are gone from the platform. *)
Definition env_channel_gone : environment :=
  {| get_channel := λ _, false;
     fetch_message := λ _, true;
     create_payment := λ _ _, Some ("https://pay.example/1", "PAY-1")%string;
     get_payment_details := λ _, Some "APPROVED"%string;
     capture_payment := λ _, Some "COMPLETED"%string;
     analytics_cog := true;
     get_coin_price := λ _, true;
     wallet_address := λ _, true;
     purchase_minimum := 50;
     utcnow := 0;
     fetch_member := λ _, true;
     delivery_ping_role := Some true |}.

(** The same as [env], but the capture is declined. *)
Definition env_capture_declined : environment :=
  {| get_channel := λ _, true;
     fetch_message := λ _, true;
     create_payment := λ _ _, Some ("https://pay.example/1", "PAY-1")%string;
     get_payment_details := λ _, Some "APPROVED"%string;
     capture_payment := λ _, Some "DECLINED"%string;
     analytics_cog := true;
     get_coin_price := λ _, true;
     wallet_address := λ _, true;
     purchase_minimum := 50;
     utcnow := 0;
     fetch_member := λ _, true;
     delivery_ping_role := Some true |}.

Definition shop : world :=
  run_all env [CreateItem "sword" 1000 5 100 1] initial_world.

(** Buyer 7 adds two swords: cart 1, total 20.00. *)
Definition cart_of_two : world :=
  run_all env [CartAction 7 100 2 true 200 300] shop.

Definition two_swords : cart_contents :=
  {[ 1 := {| quantity := 2; price := 1000; name := "sword" |} ]}.

(** The row of cart 1 in [cart_of_two]. *)
Definition active_cart : cart_row :=
  {| user_id := 7; channel_id := Some 200; cart_data := two_swords;
     message_id := Some 300; invoice_message_id := None; payment_id := None;
     credit_applied := 0; last_activity := 0; status := active;
     cart_payment_method := None |}.

(** The buyer checks out with the hosted link; the invoice is message 400. *)
Definition invoiced : world :=
  run_all env [HandleCheckout 200 paypal 400] cart_of_two.

(** The row of cart 1 in [invoiced]. *)
Definition invoiced_cart : cart_row :=
  {| user_id := 7; channel_id := Some 200; cart_data := two_swords;
     message_id := Some 300; invoice_message_id := Some 400;
     payment_id := Some "PAY-1"%string;
     credit_applied := 0; last_activity := 0; status := pending_payment;
     cart_payment_method := Some paypal |}.

(** The state of [invoiced] between the two UPDATE statements of
    [handle_checkout]: the payment reference is stored, the invoice
    message is not yet. *)
Definition invoice_not_recorded : world :=
  set_carts (update_id 1 (set_payment "PAY-1" paypal 0)) cart_of_two.

(** Buyer 7 holds 40.00 of credit, puts two swords in the cart and applies
    5.00 of credit before checking out with the hosted link. *)
Definition part_credit_invoiced : world :=
  run_all env [BalanceAdd true 7 4000;
               CartAction 7 100 2 true 200 300;
               ApplyCredit 7 200 500;
               HandleCheckout 200 paypal 400] shop.

(** Buyer 7 holds 40.00 of credit, puts two swords in the cart and applies
    15.00 of credit. *)
Definition credit_once : world :=
  run_all env [BalanceAdd true 7 4000;
               CartAction 7 100 2 true 200 300;
               ApplyCredit 7 200 1500] shop.

(** A user row for buyer 7 with an empty balance, and two swords in the
    cart. *)
Definition no_credit : world :=
  run_all env [BalanceSet true 7 0; CartAction 7 100 2 true 200 300] shop.

(** Buyer 7 holds 5.00 of credit, puts three swords in the cart and applies
    2.00 of it. *)
Definition three_with_credit : world :=
  run_all env [BalanceAdd true 7 500;
               CartAction 7 100 3 true 200 300;
               ApplyCredit 7 200 200] shop.

(** The row of cart 1 in [three_with_credit]. *)
Definition three_with_credit_cart : cart_row :=
  {| user_id := 7; channel_id := Some 200;
     cart_data := {[ 1 := {| quantity := 3; price := 1000; name := "sword" |} ]};
     message_id := Some 300; invoice_message_id := None; payment_id := None;
     credit_applied := 200; last_activity := 0; status := active;
     cart_payment_method := None |}.

(** Buyer 7 has opened a ticket in channel 500. *)
Definition ticket_opened : world :=
  run_all env [OpenTicket 7 500] initial_world.

End Scenario.

(** ** The specification's sentences that the code does not satisfy,
    as stated *)

(** Order completion applied twice to a cart counts once: the second
    call, on the row as the first call left it, adds nothing to the
    owner's lifetime spend. *)
Definition completion_applied_once : Prop :=
  ∀ env ch cid c credit w,
    carts w !! cid = Some c →
    let w1 := process_paid_order env ch cid c credit w in
    ∀ c1, carts w1 !! cid = Some c1 →
    let w2 := process_paid_order env ch cid c1 credit w1 in
    lifetime_spent_of w2 (user_id c) = lifetime_spent_of w1 (user_id c).

(** One tick reconciles every cart of the result set of the query:
    the gateway is asked; an approved order is captured; a completed
    capture marks the cart paid; any other capture result cancels the
    invoice with a reason and reopens the cart. *)
Definition reconciles_every_pending_cart (env : environment) (w : world) : Prop :=
  ∀ cid c ch p,
    carts w !! cid = Some c → ShopCog.awaiting_paypal c = true →
    channel_id c = Some ch → payment_id c = Some p →
    let w' := ShopCog.check_pending_payments env w in
    GatewayQuery p ∈ trace w'
    ∧ (get_payment_details env p = Some "APPROVED"%string →
       GatewayCapture p ∈ trace w'
       ∧ (capture_payment env p = Some "COMPLETED"%string →
          carts w' !! cid = Some (with_status paid c)
          ∧ ChannelSend ch PaymentSuccessful ∈ trace w')
       ∧ (capture_payment env p ≠ Some "COMPLETED"%string →
          carts w' !! cid = Some (clear_invoice c)
          ∧ ∃ reason, ChannelSend ch (InvoiceCanceled reason) ∈ trace w')).

(** In every run, overlapping or not, no cart is ['active'] with an
    invoice reference. *)
Definition no_invoice_while_active_in_any_run : Prop :=
  ∀ l, invoice_invariant (Interleaving.perform_all l initial_world).

(** In every run, overlapping or not, no user has two open tickets. *)
Definition one_open_ticket_in_any_run : Prop :=
  ∀ l, ticket_invariant (Interleaving.perform_all l initial_world).

(** Closing an active cart restores its lines to stock, adds the credit
    applied to it to the balance of its owner and leaves it closed. *)
Definition closing_refunds_applied_credit (w : world) : Prop :=
  ∀ channel cid c,
    select_one (in_channel channel) (carts w) = Some (cid, c) →
    status c = active →
    let w' := CartView.close_cart channel w in
    (∀ i, stock_of w' i = (λ q, q + held (cart_data c) i) <$> stock_of w i)
    ∧ balance_of w' (user_id c) = balance_of w (user_id c) + credit_applied c
    ∧ carts w' !! cid = Some (with_status closed c).

(** ** Read-only queries of the cogs *)

(** [SELECT COUNT] of the rows of [analytics] with [event_type = 'purchase']
    and the given [item_id] ([AnalyticsCog.item_analytics]). *)
Definition purchase_count (w : world) (item : Z) : nat :=
  length (filter (λ r, event_type r = "purchase"%string ∧ event_item_id r = item)
                 (analytics w)).

(** [AnalyticsCog.item_analytics]: the number shown, or [None] for the
    "Item not found." answer. *)
Definition item_analytics (w : world) (item : Z) : option nat :=
  match items w !! item with
  | Some _ => Some (purchase_count w item)
  | None => None
  end.

(** [user_data['delivery_value_handled'] if user_data ... else 0.0]
    ([DeliveryCog.user_stats]). *)
Definition delivery_value_of (w : world) (u : Z) : Z :=
  match users w !! u with
  | Some r => delivery_value_handled r
  | None => 0
  end.


(** ** Role tiers ([cogs/buyerroles.py], [check_and_apply_roles]) *)

Module Roles.

(** The table [role_tiers]: [role_id], the PRIMARY KEY, to
    [amount_required]. *)
Abbreviation role_tiers := (gmap Z Z).

(** [BuyerRolesCog.add_role]:
    [INSERT ... ON DUPLICATE KEY UPDATE amount_required = %s] *)
Definition add_role (role amount : Z) (tiers : role_tiers) : role_tiers :=
  <[role := amount]> tiers.

(** [BuyerRolesCog.remove_role]: [DELETE FROM role_tiers WHERE role_id = %s] *)
Definition remove_role (role : Z) (tiers : role_tiers) : role_tiers :=
  delete role tiers.

(** The order of [ORDER BY amount_required ASC] on rows [(role_id,
    amount_required)]. *)
Definition tier_le (a b : Z * Z) : Prop := a.2 ≤ b.2.

Global Instance tier_le_dec : RelDecision tier_le.
Proof. intros a b. unfold tier_le. apply _. Defined.

(** [SELECT * FROM role_tiers ORDER BY amount_required ASC] *)
Definition tiers_ascending (tiers : role_tiers) : list (Z * Z) :=
  merge_sort tier_le (map_to_list tiers).

(** The loop of [check_and_apply_roles]: the roles handed to
    [member.add_roles], in the order of the calls.  [guild_roles] are the
    roles [guild.get_role] finds, [roles] is [member.roles]. *)
Definition granted_roles (guild_roles : gset Z) (lifetime : Z)
    (tiers : role_tiers) (roles : gset Z) : list Z :=
  (filter (λ tier, tier.2 ≤ lifetime ∧ tier.1 ∈ guild_roles ∧ tier.1 ∉ roles)
          (tiers_ascending tiers)).*1.

(** [check_and_apply_roles] of [ui/views.py], called by
    [process_paid_order].  [member] is [None] when [guild.fetch_member]
    raises [discord.NotFound]; the result is then [None] as well, and
    otherwise the roles granted. *)
Definition check_and_apply_roles (w : world) (tiers : role_tiers)
    (guild_roles : gset Z) (member : option (gset Z)) (user : Z)
    : option (list Z) :=
  match users w !! user with
  | Some user_data =>
    match member with
    | Some roles =>
      Some (granted_roles guild_roles (lifetime_spent user_data) tiers roles)
    | None => None
    end
  | None => Some []
  end.

(** [DeliveryCog.check_and_apply_roles], called when a member joins: a
    user without a row counts as having spent nothing. *)
Definition check_and_apply_roles_on_join (w : world) (tiers : role_tiers)
    (guild_roles : gset Z) (member : option (gset Z)) (user : Z)
    : option (list Z) :=
  match member with
  | Some roles =>
    Some (granted_roles guild_roles (lifetime_spent_of w user) tiers roles)
  | None => None
  end.

(** [member.roles] once the platform has applied the grants. *)
Definition roles_after (roles : gset Z) (granted : list Z) : gset Z :=
  roles ∪ list_to_set granted.

End Roles.

(** ** Giveaways ([cogs/giveaway.py], [GiveawayView]) *)

Module Giveaway.

Inductive giveaway_status := giveaway_active | giveaway_ended.

Global Instance giveaway_status_eq_dec : EqDecision giveaway_status.
Proof. solve_decision. Defined.

Record giveaway_row := GiveawayRow {
  giveaway_message_id : Z;
  end_time : Z;
  giveaway_state : giveaway_status
}.

(** What the cog posts in the giveaway channel. *)
Inductive announcement :=
| GiveawayOpened (ends : Z)
| WinnerAnnounced (winner prize : Z)
| MessageUpdated (message winner : Z)
| NoEntrants.

(** The answers of the "Enter Giveaway" button. *)
Inductive answer := NoGiveaway | AlreadyEntered | Entered.

(** The shop's store with the two giveaway tables: [giveaways], keyed by
    its AUTO_INCREMENT id, and [giveaway_entrants], whose PRIMARY KEY is
    the pair [(giveaway_id, user_id)]. *)
Record store := Store {
  shop : world;
  giveaways : gmap Z giveaway_row;
  giveaway_entrants : gset (Z * Z);
  giveaways_auto_increment : Z;
  announced : list announcement
}.

Definition initial_store : store :=
  {| shop := initial_world; giveaways := ∅; giveaway_entrants := ∅;
     giveaways_auto_increment := 1; announced := [] |}.

(** What a run of the cog's task depends on. *)
Record conditions := Conditions {
  (** [bot.get_channel(GIVEAWAY_CHANNEL_ID)] is not [None] *)
  channel_found : bool;
  (** [float(os.getenv("GIVEAWAY_CREDIT_PRIZE"))] *)
  prize : Z;
  (** [datetime.now(timezone.utc)], in seconds *)
  now : Z;
  (** the index [random.choice] draws, before reduction to the length *)
  draw : nat;
  (** [bot.fetch_user(id)] does not raise [discord.NotFound] *)
  fetch_user : Z → bool;
  (** [channel.fetch_message(id)] does not raise [discord.NotFound] *)
  fetch_giveaway_message : Z → bool
}.

(** [SELECT ... WHERE p ORDER BY id DESC LIMIT 1] *)
Definition latest {A} (p : A → bool) (t : gmap Z A) : option (Z * A) :=
  foldr (λ kr best,
           if p kr.2 then
             match best with
             | Some (k', r') => if k' <? kr.1 then Some kr else Some (k', r')
             | None => Some kr
             end
           else best) None (map_to_list t).

(** [SELECT user_id FROM giveaway_entrants WHERE giveaway_id = %s] *)
Definition entrants_of (gid : Z) (s : store) : list Z :=
  (elements (filter (λ e, e.1 = gid) (giveaway_entrants s))).*2.

(** [UPDATE giveaways SET status = 'ended' WHERE id = %s] *)
Definition end_row (r : giveaway_row) : giveaway_row :=
  {| giveaway_message_id := giveaway_message_id r; end_time := end_time r;
     giveaway_state := giveaway_ended |}.

Definition set_ended (gid : Z) (s : store) : store :=
  {| shop := shop s; giveaways := alter end_row gid (giveaways s);
     giveaway_entrants := giveaway_entrants s;
     giveaways_auto_increment := giveaways_auto_increment s;
     announced := announced s |}.

(** [DELETE FROM giveaway_entrants WHERE giveaway_id = %s] *)
Definition clear_entrants (gid : Z) (s : store) : store :=
  {| shop := shop s; giveaways := giveaways s;
     giveaway_entrants := filter (λ e, e.1 ≠ gid) (giveaway_entrants s);
     giveaways_auto_increment := giveaways_auto_increment s;
     announced := announced s |}.

Definition announce (a : announcement) (s : store) : store :=
  {| shop := shop s; giveaways := giveaways s;
     giveaway_entrants := giveaway_entrants s;
     giveaways_auto_increment := giveaways_auto_increment s;
     announced := a :: announced s |}.

(** [INSERT INTO users (id, balance) VALUES (%s, %s)
    ON DUPLICATE KEY UPDATE balance = balance + %s] *)
Definition credit_prize (winner amount : Z) (s : store) : store :=
  {| shop := set_users (upsert_user winner
               {| balance := amount; lifetime_spent := 0;
                  delivery_value_handled := 0 |} (add_balance amount)) (shop s);
     giveaways := giveaways s;
     giveaway_entrants := giveaway_entrants s;
     giveaways_auto_increment := giveaways_auto_increment s;
     announced := announced s |}.

(** [random.choice(entrants) if entrants else None] *)
Definition choose (draw : nat) (entrants : list Z) : option Z :=
  match entrants with
  | [] => None
  | _ => entrants !! (draw `mod` length entrants)%nat
  end.

(** [GiveawayView.enter_giveaway] *)
Definition enter_giveaway (user : Z) (s : store) : answer * store :=
  match latest (λ _, true) (giveaways s) with
  | None => (NoGiveaway, s)
  | Some (gid, _) =>
    if bool_decide ((gid, user) ∈ giveaway_entrants s) then (AlreadyEntered, s)
    else (Entered,
          {| shop := shop s; giveaways := giveaways s;
             giveaway_entrants := {[ (gid, user) ]} ∪ giveaway_entrants s;
             giveaways_auto_increment := giveaways_auto_increment s;
             announced := announced s |})
  end.

(** [GiveawayCog.end_giveaway].  The boolean is [false] when
    [bot.fetch_user] raises, which also ends the run of the task. *)
Definition end_giveaway (c : conditions) (gid : Z) (g : giveaway_row)
    (s : store) : bool * store :=
  if negb (channel_found c) then (true, set_ended gid s)
  else
    match choose (draw c) (entrants_of gid s) with
    | Some winner =>
      if winner =? 0 then
        (* [if winner_id:] is false for the id 0 *)
        (true, set_ended gid (clear_entrants gid (announce NoEntrants s)))
      else
        let s := credit_prize winner (prize c) s in
        if fetch_user c winner then
          let s := announce (WinnerAnnounced winner (prize c)) s in
          let s := if fetch_giveaway_message c (giveaway_message_id g)
                   then announce (MessageUpdated (giveaway_message_id g) winner) s
                   else s in
          (true, set_ended gid (clear_entrants gid s))
        else (false, s) (* discord.NotFound from fetch_user *)
    | None =>
      (true, set_ended gid (clear_entrants gid (announce NoEntrants s)))
    end.

(** [GiveawayCog.start_new_giveaway]; [message] is the id of the posted
    announcement. *)
Definition start_new_giveaway (c : conditions) (message : Z) (s : store) : store :=
  if negb (channel_found c) then s
  else
    let ends := now c + 86400 in
    let s := announce (GiveawayOpened ends) s in
    let k := giveaways_auto_increment s in
    {| shop := shop s;
       giveaways := <[k := {| giveaway_message_id := message; end_time := ends;
                              giveaway_state := giveaway_active |}]> (giveaways s);
       giveaway_entrants := giveaway_entrants s;
       giveaways_auto_increment := k + 1;
       announced := announced s |}.

(** [GiveawayCog.giveaway_manager], one run of the one-minute task. *)
Definition giveaway_manager (c : conditions) (message : Z) (s : store) : store :=
  match latest (λ g, bool_decide (giveaway_state g = giveaway_active)) (giveaways s) with
  | Some (gid, g) =>
    if now c >? end_time g then
      let '(finished, s) := end_giveaway c gid g s in
      if finished then start_new_giveaway c message s else s
    else s
  | None => start_new_giveaway c message s
  end.

(** What can happen to the giveaway tables. *)
Inductive action :=
| Tick (c : conditions) (message : Z)
| Enter (user : Z).

Definition perform (a : action) (s : store) : store :=
  match a with
  | Tick c message => giveaway_manager c message s
  | Enter user => (enter_giveaway user s).2
  end.

Inductive reachable_store : store → Prop :=
| reachable_initial_store : reachable_store initial_store
| reachable_perform a s : reachable_store s → reachable_store (perform a s).

(** No two giveaways are active at once. *)
Definition one_active (s : store) : Prop :=
  ∀ k1 k2 g1 g2,
    giveaways s !! k1 = Some g1 → giveaways s !! k2 = Some g2 →
    giveaway_state g1 = giveaway_active → giveaway_state g2 = giveaway_active →
    k1 = k2.

End Giveaway.

(** ** Amounts as the handlers compute them ([ui/views.py]) *)

Module Float64.

(** One value of [json.loads(cart_data['cart_data'])]: the quantity an
    [int], the price a [float]. *)
Record line := Line {
  quantity : Z;
  price : float
}.

(** [float(n)] of an [int]; exact below 2^53. *)
Definition of_int (n : Z) : float :=
  if (n <? 0)%Z then PrimFloat.opp (PrimFloat.of_uint63 (Uint63.of_Z (- n)))
  else PrimFloat.of_uint63 (Uint63.of_Z n).

(** [sum(i['quantity'] * i['price'] for i in cart.values())]: every
    product and every partial sum is rounded to the nearest float. *)
Definition total_price (cart : list line) : float :=
  foldl (λ acc l, PrimFloat.add acc (PrimFloat.mul (of_int (quantity l)) (price l)))
        (of_int 0) cart.

(** [if total_price < purchase_minimum:] of [handle_checkout] and
    [crypto_checkout], the test that refuses the checkout. *)
Definition below_minimum (cart : list line) (purchase_minimum : float) : bool :=
  PrimFloat.ltb (total_price cart) purchase_minimum.

(** [float("0.57")], the float nearest to 57/100: 0.56999999999999995. *)
Definition fifty_seven_cents : float := 0x1.23d70a3d70a3dp-1%float.

End Float64.

(** ** The hosted-link adapter's credential ([utils/payments.py]) *)

Module PayPalPayment.

(** [self._access_token] and [self._token_expires_at]. *)
Record token_cache := TokenCache {
  access_token : option string;
  token_expires_at : Z
}.

(** The fields as [__init__] sets them. *)
Definition no_token : token_cache :=
  {| access_token := None; token_expires_at := 0 |}.

(** [_get_access_token].  [now] is [time.time()] at the test of the cache;
    [response] is the answer to the token request, the token and its
    [expires_in], or [None] for a [RequestException]; [received] is
    [time.time()] when the answer is stored. *)
Definition get_access_token (now : Z) (response : option (string * Z))
    (received : Z) (s : token_cache) : option string * token_cache :=
  if truthy_str (access_token s) && (now <? token_expires_at s)
  then (access_token s, s)
  else
    match response with
    | Some (token, expires_in) =>
      (Some token, {| access_token := Some token;
                      token_expires_at := received + expires_in - 300 |})
    | None => (None, s)
    end.

(** [get_payment_details] and [capture_payment]: without a credential
    there is no request and the result is [None]; [order] is what the
    request returns. *)
Definition with_token {A} (now : Z) (response : option (string * Z))
    (received : Z) (order : option A) (s : token_cache)
    : option A * token_cache :=
  let '(token, s) := get_access_token now response received s in
  match token with
  | Some t => if bool_decide (t = ""%string) then (None, s) else (order, s)
  | None => (None, s)
  end.

End PayPalPayment.

(** ** Paging of [/shop list_carts] ([cogs/shop.py]) *)

Module ListCarts.

(** ["\n"] *)
Definition newline : string := String (Ascii.ascii_of_nat 10) EmptyString.

(** One turn of the loop over [description_lines]: the descriptions sent so
    far and [current_description]. *)
Definition add_line (st : list string * string) (line : string)
    : list string * string :=
  let '(sent, current) := st in
  if (4000 <? String.length current + String.length line)%nat
  then (sent ++ [current], line)
  else (sent, current +:+ line +:+ newline).

(** The embed descriptions the command sends, in order. *)
Definition descriptions (lines : list string) : list string :=
  let '(sent, current) := foldl add_line ([], ""%string) lines in
  if bool_decide (current = ""%string) then sent else sent ++ [current].

End ListCarts.

(** Further scenarios on the shop of [Scenario]. *)

Module Walkthrough.

(** The buyer's cart of two swords, paid through the hosted link. *)
Definition settled : world :=
  run_all Scenario.env [CheckPendingPayments] Scenario.invoiced.

(** The row of cart 1 in [settled]. *)
Definition paid_cart : cart_row :=
  {| user_id := 7; channel_id := Some 200; cart_data := Scenario.two_swords;
     message_id := Some 300; invoice_message_id := Some 400;
     payment_id := Some "PAY-1"%string;
     credit_applied := 0; last_activity := 0; status := paid;
     cart_payment_method := Some paypal |}.

(** The shop of [Scenario], closed by an admin. *)
Definition closed_shop : world :=
  run_all Scenario.env [SetStatus "closed"] Scenario.cart_of_two.

(** The giveaway task at second 1000, with a prize of 5.00. *)
Definition morning : Giveaway.conditions :=
  {| Giveaway.channel_found := true; Giveaway.prize := 500;
     Giveaway.now := 1000; Giveaway.draw := 3;
     Giveaway.fetch_user := λ _, true;
     Giveaway.fetch_giveaway_message := λ _, true |}.

(** The same, a day and a second later. *)
Definition next_day : Giveaway.conditions :=
  {| Giveaway.channel_found := true; Giveaway.prize := 500;
     Giveaway.now := 87401; Giveaway.draw := 3;
     Giveaway.fetch_user := λ _, true;
     Giveaway.fetch_giveaway_message := λ _, true |}.

(** The first run of the task opens giveaway 1, announced in message 900. *)
Definition first_giveaway : Giveaway.store :=
  Giveaway.perform (Giveaway.Tick morning 900) Giveaway.initial_store.

(** Users 7 and 8 enter it. *)
Definition two_entrants : Giveaway.store :=
  Giveaway.perform (Giveaway.Enter 8)
    (Giveaway.perform (Giveaway.Enter 7) first_giveaway).

(** The next day's run ends giveaway 1 and opens giveaway 2. *)
Definition second_giveaway : Giveaway.store :=
  Giveaway.perform (Giveaway.Tick next_day 901) two_entrants.

(** A cart line of 3000 characters. *)
Definition long_line : string :=
  Nat.iter 3000 (String (Ascii.ascii_of_nat 120)) EmptyString.

(** Buyer 7 opens the coin menu twice and picks a coin in each: the
    payment instructions are posted twice, as messages 400 and 401, each
    with its "I Have Paid" button.  The buyer presses the first and the
    admin confirms the payment; the buyer presses the second and the admin
    confirms again. *)
Definition confirmed_twice : world :=
  run_all Scenario.env
    [CryptoCheckout 200; CryptoCheckout 200;
     CoinSelect 1 Scenario.active_cart 2000 "BTC" 400;
     CoinSelect 1 Scenario.active_cart 2000 "BTC" 401;
     ConfirmPayment 1 200; CompleteCryptoOrder 1;
     ConfirmPayment 1 200; CompleteCryptoOrder 1] Scenario.cart_of_two.

(** Buyer 7, with a users row and no credit, types -5.00 into the credit
    modal of the cart of two swords. *)
Definition negative_credit : world :=
  run_all Scenario.env [ApplyCredit 7 200 (-500)] Scenario.no_credit.

(** Admin 99 applies 5.00 of their own credit in the cart channel of
    buyer 7, who has no users row. *)
Definition credit_of_another : world :=
  run_all Scenario.env [BalanceAdd true 99 4000;
                        CartAction 7 100 2 true 200 300;
                        ApplyCredit 99 200 500] Scenario.shop.


(** Buyer 7 opens the coin menu, checks out with the hosted link instead
    (invoice 400), then picks a coin in the menu; "Cancel Transaction" on
    invoice 400 takes effect between the two UPDATEs of [coin_select],
    while the instructions (message 401) are being posted. *)
Definition canceled_midway : list Interleaving.step :=
  [Interleaving.Handler Scenario.env (CreateItem "sword" 1000 5 100 1);
   Interleaving.Handler Scenario.env (CartAction 7 100 2 true 200 300);
   Interleaving.Handler Scenario.env (CryptoCheckout 200);
   Interleaving.Handler Scenario.env (HandleCheckout 200 paypal 400);
   Interleaving.Statement (Interleaving.UpdateMethod 1 "BTC" 0);
   Interleaving.Handler Scenario.env (CancelTransaction 1);
   Interleaving.Statement (Interleaving.UpdateInvoiceMessage 1 401)].

(** The same presses with the cancellation after [coin_select] has
    ended. *)
Definition canceled_afterwards : list Interleaving.step :=
  [Interleaving.Handler Scenario.env (CreateItem "sword" 1000 5 100 1);
   Interleaving.Handler Scenario.env (CartAction 7 100 2 true 200 300);
   Interleaving.Handler Scenario.env (CryptoCheckout 200);
   Interleaving.Handler Scenario.env (HandleCheckout 200 paypal 400);
   Interleaving.Statement (Interleaving.UpdateMethod 1 "BTC" 0);
   Interleaving.Statement (Interleaving.UpdateInvoiceMessage 1 401);
   Interleaving.Handler Scenario.env (CancelTransaction 1)].

(** User 7 presses "Open Ticket" twice: both SELECTs run on the empty
    table, the channels 500 and 501 are created, then both INSERTs take
    effect. *)
Definition pressed_twice : list Interleaving.step :=
  [Interleaving.Statement (Interleaving.InsertTicket 7 500);
   Interleaving.Statement (Interleaving.InsertTicket 7 501)].

(** The second press after the first has ended. *)
Definition pressed_in_turn : list Interleaving.step :=
  [Interleaving.Statement (Interleaving.InsertTicket 7 500);
   Interleaving.Handler Scenario.env (OpenTicket 7 501)].

End Walkthrough.

(** ** Lemmas on the store primitives *)

Section SqlFacts.
Context {A : Type}.
Implicit Types (p : A → bool) (t : gmap Z A) (k : Z) (r : A).

Lemma elem_of_select_all p t k r :
  (k, r) ∈ select_all p t ↔ t !! k = Some r ∧ p r = true.
Proof.
  unfold select_all. rewrite merge_sort_Permutation.
  rewrite list_elem_of_filter, elem_of_map_to_list.
  simpl. tauto.
Qed.

Lemma NoDup_select_all p t : NoDup (select_all p t).*1.
Proof.
  unfold select_all. rewrite merge_sort_Permutation.
  generalize (NoDup_fst_map_to_list t).
  induction (map_to_list t) as [|[k r] l IH]; simpl; intros Hnd.
  - constructor.
  - apply NoDup_cons in Hnd as [Hk Hnd].
    rewrite filter_cons. case_decide; simpl; [|by apply IH].
    apply NoDup_cons. split; [|by apply IH].
    intros Hin. apply Hk.
    apply list_elem_of_fmap in Hin as [[k' r'] [-> Hin]].
    apply list_elem_of_filter in Hin as [_ Hin].
    apply list_elem_of_fmap. by exists (k', r').
Qed.

Lemma select_one_Some p t k r :
  select_one p t = Some (k, r) → t !! k = Some r ∧ p r = true.
Proof.
  unfold select_one. intros H.
  apply head_Some_elem_of in H. by apply elem_of_select_all.
Qed.

Lemma select_one_None p t k r :
  select_one p t = None → t !! k = Some r → p r = false.
Proof.
  unfold select_one. intros H Hk.
  destruct (p r) eqn:Hp; [|done].
  apply head_None in H.
  assert ((k, r) ∈ select_all p t) as Hin by by apply elem_of_select_all.
  rewrite H in Hin. by apply elem_of_nil in Hin.
Qed.


Lemma select_one_is_Some p t k r :
  t !! k = Some r → p r = true → is_Some (select_one p t).
Proof.
  intros Hk Hp. destruct (select_one p t) eqn:H; [eauto|].
  rewrite (select_one_None p t k r H Hk) in Hp. done.
Qed.

Lemma lookup_update_where p (f : A → A) t k :
  update_where p f t !! k = (λ r, if p r then f r else r) <$> t !! k.
Proof. unfold update_where. by rewrite lookup_fmap. Qed.

Lemma lookup_delete_where_Some p t k r :
  delete_where p t !! k = Some r → t !! k = Some r.
Proof. unfold delete_where. intros H. by apply map_lookup_filter_Some in H as [? _]. Qed.

End SqlFacts.

(** ** The invoice invariant, handler by handler *)

Section InvoiceInvariant.

Lemma inv_alter k f w :
  safe f → invoice_invariant w → invoice_invariant (set_carts (update_id k f) w).
Proof.
  intros Hf Hw cid r. unfold update_id. simpl. rewrite lookup_alter.
  case_decide; [|by apply Hw].
  subst. destruct (carts w !! cid) as [r0|] eqn:Hr0; simpl; [|done].
  intros [= <-]. apply Hf. by eapply Hw.
Qed.

(** Two updates of the same row whose composition is safe, whatever was
    sent in between. *)
Lemma inv_alter_twice k f g e w :
  (∀ r, cart_ok (g (f r))) → invoice_invariant w →
  invoice_invariant
    (set_carts (update_id k g) (emit e (set_carts (update_id k f) w))).
Proof.
  intros Hgf Hw cid r. unfold update_id. simpl. rewrite !lookup_alter.
  repeat case_decide; try done; [|by apply Hw].
  subst. destruct (carts w !! cid) as [r0|]; simpl; [|done].
  intros [= <-]. apply Hgf.
Qed.

Lemma inv_emit e w : invoice_invariant w → invoice_invariant (emit e w).
Proof. intros H. exact H. Qed.

Lemma inv_set_items f w : invoice_invariant w → invoice_invariant (set_items f w).
Proof. intros H. exact H. Qed.

Lemma inv_set_users f w : invoice_invariant w → invoice_invariant (set_users f w).
Proof. intros H. exact H. Qed.

Lemma inv_set_tickets f w : invoice_invariant w → invoice_invariant (set_tickets f w).
Proof. intros H. exact H. Qed.

Lemma inv_set_settings f w : invoice_invariant w → invoice_invariant (set_settings f w).
Proof. intros H. exact H. Qed.

Lemma inv_log_analytics r w : invoice_invariant w → invoice_invariant (log_analytics r w).
Proof. intros H. exact H. Qed.

Lemma inv_insert_cart user now w k w' :
  insert_cart user now w = (k, w') → invoice_invariant w → invoice_invariant w'.
Proof.
  intros [= <- <-] Hw cid r. simpl. rewrite lookup_insert.
  case_decide; [|by apply Hw].
  by intros [= <-].
Qed.

Lemma inv_insert_ticket user channel w :
  invoice_invariant w → invoice_invariant (insert_ticket user channel w).
Proof. intros H. exact H. Qed.

Lemma inv_insert_item r w : invoice_invariant w → invoice_invariant (insert_item r w).
Proof. intros H. unfold insert_item. by case_match. Qed.

Lemma inv_delete k w : invoice_invariant w → invoice_invariant (set_carts (delete k) w).
Proof.
  intros Hw cid r. simpl. intros H.
  apply lookup_delete_Some in H as [_ H]. by eapply Hw.
Qed.

Lemma inv_delete_where p w :
  invoice_invariant w → invoice_invariant (set_carts (delete_where p) w).
Proof.
  intros Hw cid r. simpl. intros H.
  apply lookup_delete_where_Some in H. by eapply Hw.
Qed.

Lemma inv_foldl {B} (f : world → B → world) l w :
  (∀ w x, invoice_invariant w → invoice_invariant (f w x)) →
  invoice_invariant w → invoice_invariant (foldl f w l).
Proof.
  intros Hf. revert w. induction l as [|x l IH]; simpl; [done|].
  intros w Hw. apply IH. by apply Hf.
Qed.

End InvoiceInvariant.

Ltac safe_update :=
  intros [] ?; unfold cart_ok in *; simpl in *; (done || tauto || congruence).

Create HintDb inv discriminated.

#[local] Hint Resolve inv_emit inv_set_items inv_set_users inv_set_tickets
  inv_set_settings inv_log_analytics inv_insert_cart inv_insert_ticket
  inv_insert_item inv_delete inv_delete_where : inv.
#[local] Hint Extern 2 (invoice_invariant (set_carts (update_id _ _) _)) =>
  apply inv_alter; [safe_update|] : inv.
#[local] Hint Extern 3 (invoice_invariant (set_carts (update_id _ _) (emit _ (set_carts (update_id _ _) _)))) =>
  apply inv_alter_twice; [intros []; unfold cart_ok; simpl; congruence|] : inv.

Ltac by_cases := repeat (case_match; simplify_eq); eauto 12 with inv.

Lemma inv_cancel_invoice env cid c ch reason w :
  invoice_invariant w → invoice_invariant (cancel_invoice env cid c ch reason w).
Proof. intros. unfold cancel_invoice. by_cases. Qed.

Lemma inv_log_purchases env user l w :
  invoice_invariant w → invoice_invariant (log_purchases env user l w).
Proof.
  intros. unfold log_purchases. apply inv_foldl; [|done].
  intros. by_cases.
Qed.

#[local] Hint Resolve inv_cancel_invoice inv_log_purchases : inv.

Lemma inv_process_paid_order env ch cid c credit w :
  invoice_invariant w → invoice_invariant (process_paid_order env ch cid c credit w).
Proof. intros. unfold process_paid_order. by_cases. Qed.

#[local] Hint Resolve inv_process_paid_order : inv.

Lemma inv_delete_channel env ch w :
  invoice_invariant w → invoice_invariant (delete_channel env ch w).
Proof. intros. unfold delete_channel. by_cases. Qed.

Lemma inv_restore_stock l w :
  invoice_invariant w → invoice_invariant (CartView.restore_stock l w).
Proof.
  intros. unfold CartView.restore_stock. apply inv_foldl; [|done].
  intros. by_cases.
Qed.

#[local] Hint Resolve inv_delete_channel inv_restore_stock : inv.

Lemma inv_check_pending_payment env w kc :
  invoice_invariant w → invoice_invariant (ShopCog.check_pending_payment env w kc).
Proof. intros. unfold ShopCog.check_pending_payment. by_cases. Qed.

Lemma inv_handle_cart_action env user message n add new_channel new_message w :
  invoice_invariant w →
  invoice_invariant
    (ShopItemView.handle_cart_action env user message n add new_channel new_message w).
Proof. intros. unfold ShopItemView.handle_cart_action. by_cases. Qed.

Lemma inv_handle_checkout env channel method m w :
  invoice_invariant w →
  invoice_invariant (PaymentMethodView.handle_checkout env channel method m w).
Proof. intros. unfold PaymentMethodView.handle_checkout. by_cases. Qed.

Lemma inv_coin_select env cid c total coin m w :
  invoice_invariant w →
  invoice_invariant (CryptoCoinSelectionView.coin_select env cid c total coin m w).
Proof. intros. unfold CryptoCoinSelectionView.coin_select. by_cases. Qed.

Lemma invoice_invariant_run env op w :
  invoice_invariant w → invoice_invariant (run env op w).
Proof.
  intros Hw. destruct op; simpl.
  - unfold CancelInvoiceView.cancel_transaction. by_cases.
  - by apply inv_coin_select.
  - unfold CryptoConfirmationView.confirm_payment. by_cases.
  - unfold CryptoConfirmationView.cancel_payment. by_cases.
  - unfold PaymentMethodView.crypto_checkout. by_cases.
  - by apply inv_handle_checkout.
  - unfold LeaveReviewView.close_cart. by_cases.
  - unfold DeleteCartView.delete_cart. by_cases.
  - unfold DeleteTicketView.delete_ticket. by_cases.
  - by apply inv_handle_cart_action.
  - unfold CartView.apply_credit. by_cases.
  - unfold CartView.checkout. by_cases.
  - unfold CartView.close_cart. by_cases.
  - unfold TicketCreationView.open_ticket. by_cases.
  - unfold TicketChannelView.close_ticket. by_cases.
  - unfold ShopCog.complete_order. by_cases.
  - unfold ShopCog.complete_crypto_order. by_cases.
  - unfold ShopCog.create. by_cases.
  - unfold ShopCog.restock. by_cases.
  - unfold ShopCog.remove. by_cases.
  - unfold ShopCog.set_status, set_setting. by_cases.
  - unfold ShopCog.wipe_all_carts. apply inv_foldl; [|done]. intros. by_cases.
  - unfold ShopCog.check_pending_payments. apply inv_foldl; [|done].
    intros. by apply inv_check_pending_payment.
  - unfold ShopCog.purge_closed_carts. apply inv_delete_where.
    apply inv_foldl; [|done]. intros. by_cases.
  - unfold CreditCog.balance_add. by_cases.
  - unfold CreditCog.balance_set. by_cases.
  - unfold TicketCog.purge_closed_tickets. apply inv_set_tickets.
    apply inv_foldl; [|done]. intros. by_cases.
  - unfold WebhookServer.process_webhook_payment. by_cases.
Qed.

(** ** The ticket invariant, handler by handler *)

Section TicketInvariant.

(** Open tickets of the new table were open tickets of the same user, under
    the same key, in the old one. *)
Lemma tinv_shrink w w' :
  (∀ k t', tickets w' !! k = Some t' → ticket_state t' = ticket_open →
     ∃ t, tickets w !! k = Some t ∧ ticket_user_id t = ticket_user_id t'
          ∧ ticket_state t = ticket_open) →
  ticket_invariant w → ticket_invariant w'.
Proof.
  intros Hsub Hw k1 k2 t1 t2 H1 H2 Hu Ho1 Ho2.
  destruct (Hsub _ _ H1 Ho1) as (s1 & Hs1 & Hu1 & Hso1).
  destruct (Hsub _ _ H2 Ho2) as (s2 & Hs2 & Hu2 & Hso2).
  eapply (Hw k1 k2 s1 s2); eauto. congruence.
Qed.

Lemma tinv_same w w' :
  tickets w' = tickets w → ticket_invariant w → ticket_invariant w'.
Proof. intros Heq. apply tinv_shrink. rewrite Heq. eauto. Qed.

Lemma tinv_emit e w : ticket_invariant w → ticket_invariant (emit e w).
Proof. by apply tinv_same. Qed.

Lemma tinv_set_items f w : ticket_invariant w → ticket_invariant (set_items f w).
Proof. by apply tinv_same. Qed.

Lemma tinv_set_carts f w : ticket_invariant w → ticket_invariant (set_carts f w).
Proof. by apply tinv_same. Qed.

Lemma tinv_set_users f w : ticket_invariant w → ticket_invariant (set_users f w).
Proof. by apply tinv_same. Qed.

Lemma tinv_set_settings f w : ticket_invariant w → ticket_invariant (set_settings f w).
Proof. by apply tinv_same. Qed.

Lemma tinv_log_analytics r w : ticket_invariant w → ticket_invariant (log_analytics r w).
Proof. by apply tinv_same. Qed.

Lemma tinv_insert_cart user now w k w' :
  insert_cart user now w = (k, w') → ticket_invariant w → ticket_invariant w'.
Proof. intros [= <- <-]. by apply tinv_same. Qed.

Lemma tinv_insert_item r w : ticket_invariant w → ticket_invariant (insert_item r w).
Proof. intros H. unfold insert_item. case_match; [done|]. revert H. by apply tinv_same. Qed.

Lemma tinv_foldl {B} (f : world → B → world) l w :
  (∀ w x, ticket_invariant w → ticket_invariant (f w x)) →
  ticket_invariant w → ticket_invariant (foldl f w l).
Proof.
  intros Hf. revert w. induction l as [|x l IH]; simpl; [done|].
  intros w Hw. apply IH. by apply Hf.
Qed.

(** [DELETE FROM tickets WHERE ...] *)
Lemma tinv_delete_where p w :
  ticket_invariant w → ticket_invariant (set_tickets (delete_where p) w).
Proof.
  apply tinv_shrink. simpl. intros k t' H Ho.
  apply lookup_delete_where_Some in H. eauto.
Qed.

(** [UPDATE tickets SET status = 'closed' WHERE ...] *)
Lemma tinv_close_where p w :
  ticket_invariant w →
  ticket_invariant (set_tickets (update_where p close_ticket_row) w).
Proof.
  apply tinv_shrink. simpl. intros k t' H Ho.
  rewrite lookup_update_where in H.
  destruct (tickets w !! k) as [t|]; simplify_eq/=.
  destruct (p t); simplify_eq/=. eauto.
Qed.

(** The insertion of [open_ticket], behind its guard. *)
Lemma tinv_insert_ticket user channel w :
  select_one (TicketCreationView.is_open_ticket_of user) (tickets w) = None →
  ticket_invariant w → ticket_invariant (insert_ticket user channel w).
Proof.
  intros Hnone Hw k1 k2 t1 t2. simpl. rewrite !lookup_insert.
  assert (∀ k t, tickets w !! k = Some t → ticket_user_id t = user →
                 ticket_state t = ticket_open → False) as Hfree.
  { intros k t Hk Hu Ho.
    pose proof (select_one_None _ _ _ _ Hnone Hk) as Hp.
    unfold TicketCreationView.is_open_ticket_of in Hp.
    rewrite !bool_decide_eq_true_2 in Hp by done. done. }
  repeat case_decide; simplify_eq/=; intros; simplify_eq/=; try done.
  - exfalso. eapply Hfree; eauto.
  - exfalso. eapply Hfree; eauto.
  - eapply Hw; eauto.
Qed.

End TicketInvariant.

#[local] Hint Resolve tinv_emit tinv_set_items tinv_set_carts tinv_set_users
  tinv_set_settings tinv_log_analytics tinv_insert_cart tinv_insert_item
  tinv_delete_where tinv_close_where tinv_insert_ticket : inv.

Lemma tinv_cancel_invoice env cid c ch reason w :
  ticket_invariant w → ticket_invariant (cancel_invoice env cid c ch reason w).
Proof. intros. unfold cancel_invoice. by_cases. Qed.

Lemma tinv_log_purchases env user l w :
  ticket_invariant w → ticket_invariant (log_purchases env user l w).
Proof.
  intros. unfold log_purchases. apply tinv_foldl; [|done].
  intros. by_cases.
Qed.

#[local] Hint Resolve tinv_cancel_invoice tinv_log_purchases : inv.

Lemma tinv_process_paid_order env ch cid c credit w :
  ticket_invariant w → ticket_invariant (process_paid_order env ch cid c credit w).
Proof. intros. unfold process_paid_order. by_cases. Qed.

Lemma tinv_delete_channel env ch w :
  ticket_invariant w → ticket_invariant (delete_channel env ch w).
Proof. intros. unfold delete_channel. by_cases. Qed.

Lemma tinv_restore_stock l w :
  ticket_invariant w → ticket_invariant (CartView.restore_stock l w).
Proof.
  intros. unfold CartView.restore_stock. apply tinv_foldl; [|done].
  intros. by_cases.
Qed.

#[local] Hint Resolve tinv_process_paid_order tinv_delete_channel
  tinv_restore_stock : inv.

Lemma ticket_invariant_run env op w :
  ticket_invariant w → ticket_invariant (run env op w).
Proof.
  intros Hw. destruct op; simpl.
  - unfold CancelInvoiceView.cancel_transaction. by_cases.
  - unfold CryptoCoinSelectionView.coin_select. by_cases.
  - unfold CryptoConfirmationView.confirm_payment. by_cases.
  - unfold CryptoConfirmationView.cancel_payment. by_cases.
  - unfold PaymentMethodView.crypto_checkout. by_cases.
  - unfold PaymentMethodView.handle_checkout. by_cases.
  - unfold LeaveReviewView.close_cart. by_cases.
  - unfold DeleteCartView.delete_cart. by_cases.
  - unfold DeleteTicketView.delete_ticket. by_cases.
  - unfold ShopItemView.handle_cart_action. by_cases.
  - unfold CartView.apply_credit. by_cases.
  - unfold CartView.checkout. by_cases.
  - unfold CartView.close_cart. by_cases.
  - unfold TicketCreationView.open_ticket. by_cases.
  - unfold TicketChannelView.close_ticket. by_cases.
  - unfold ShopCog.complete_order. by_cases.
  - unfold ShopCog.complete_crypto_order. by_cases.
  - unfold ShopCog.create. by_cases.
  - unfold ShopCog.restock. by_cases.
  - unfold ShopCog.remove. by_cases.
  - unfold ShopCog.set_status, set_setting. by_cases.
  - unfold ShopCog.wipe_all_carts. apply tinv_foldl; [|done]. intros. by_cases.
  - unfold ShopCog.check_pending_payments. apply tinv_foldl; [|done].
    intros. unfold ShopCog.check_pending_payment. by_cases.
  - unfold ShopCog.purge_closed_carts. apply tinv_set_carts.
    apply tinv_foldl; [|done]. intros. by_cases.
  - unfold CreditCog.balance_add. by_cases.
  - unfold CreditCog.balance_set. by_cases.
  - unfold TicketCog.purge_closed_tickets. apply tinv_delete_where.
    apply tinv_foldl; [|done]. intros. by_cases.
  - unfold WebhookServer.process_webhook_payment. by_cases.
Qed.

(** ** Order completion *)

Section Completion.
Variable env : environment.

Lemma log_purchases_frame user l w :
  let w' := log_purchases env user l w in
  items w' = items w ∧ carts w' = carts w ∧ users w' = users w
  ∧ tickets w' = tickets w ∧ trace w' = trace w.
Proof.
  unfold log_purchases. revert w. induction l as [|x l IH]; simpl; [done|].
  intros w. destruct (IH (if analytics_cog env
    then log_analytics {| event_type := "purchase"; event_item_id := x;
                          event_user_id := user |} w else w))
    as (-> & -> & -> & -> & ->).
  by destruct (analytics_cog env).
Qed.

(** [process_paid_order] marks its cart paid, whatever its status was. *)
Lemma process_paid_order_carts ch cid c credit w :
  carts (process_paid_order env ch cid c credit w)
  = alter (with_status paid) cid (carts w).
Proof.
  unfold process_paid_order.
  destruct (log_purchases_frame (user_id c) (map_to_list (cart_data c)).*1
    (set_carts (update_id cid (with_status paid))
       (set_users (upsert_user (user_id c)
          {| balance := 0; lifetime_spent := total_price (cart_data c) - credit;
             delivery_value_handled := 0 |}
          (add_lifetime_spent (total_price (cart_data c) - credit))) w)))
    as (_ & Hcarts & _).
  repeat case_match; cbn [carts emit]; by rewrite Hcarts.
Qed.

Lemma process_paid_order_users ch cid c credit w :
  users (process_paid_order env ch cid c credit w)
  = upsert_user (user_id c)
      {| balance := 0; lifetime_spent := total_price (cart_data c) - credit;
         delivery_value_handled := 0 |}
      (add_lifetime_spent (total_price (cart_data c) - credit)) (users w).
Proof.
  unfold process_paid_order.
  destruct (log_purchases_frame (user_id c) (map_to_list (cart_data c)).*1
    (set_carts (update_id cid (with_status paid))
       (set_users (upsert_user (user_id c)
          {| balance := 0; lifetime_spent := total_price (cart_data c) - credit;
             delivery_value_handled := 0 |}
          (add_lifetime_spent (total_price (cart_data c) - credit))) w)))
    as (_ & _ & Husers & _).
  repeat case_match; cbn [users emit]; by rewrite Husers.
Qed.

(** The lifetime spend of the owner grows by the total less the
    [credit_spent] argument, on every call. *)
Lemma process_paid_order_lifetime ch cid c credit w :
  lifetime_spent_of (process_paid_order env ch cid c credit w) (user_id c)
  = lifetime_spent_of w (user_id c) + (total_price (cart_data c) - credit).
Proof.
  unfold lifetime_spent_of. rewrite process_paid_order_users.
  unfold upsert_user.
  destruct (users w !! user_id c) as [u|] eqn:Hu;
    rewrite lookup_insert_eq; simpl; lia.
Qed.

(** The guard of the notification endpoint: a processed cart is left alone. *)
Lemma webhook_ignores_processed cid s w c :
  carts w !! cid = Some c → already_processed (status c) = true →
  WebhookServer.process_webhook_payment env cid s w = w.
Proof.
  intros Hc Hp. unfold WebhookServer.process_webhook_payment.
  by rewrite Hc, Hp.
Qed.

(** The filter of the reconciliation query: a processed cart is not polled. *)
Lemma poll_ignores_processed cid c w :
  already_processed (status c) = true →
  (cid, c) ∉ select_all ShopCog.awaiting_paypal (carts w).
Proof.
  intros Hp Hin. apply elem_of_select_all in Hin as [_ Hin].
  unfold ShopCog.awaiting_paypal in Hin.
  destruct (status c); simpl in *; try done;
    rewrite bool_decide_eq_false_2 in Hin by done; done.
Qed.

(** The guard of the manual confirmation: a processed cart is refused. *)
Lemma complete_crypto_order_refuses_processed cid c w :
  carts w !! cid = Some c → already_processed (status c) = true →
  ShopCog.complete_crypto_order env cid w = emit (Reply NotPendingVerification) w.
Proof.
  intros Hc Hp. unfold ShopCog.complete_crypto_order. rewrite Hc.
  rewrite bool_decide_eq_false_2; [done|].
  intros Heq. by rewrite Heq in Hp.
Qed.

End Completion.

Example cart_of_two_row : carts Scenario.cart_of_two !! 1 = Some Scenario.active_cart.
Proof. vm_compute. reflexivity. Qed.

Example invoiced_row : carts Scenario.invoiced !! 1 = Some Scenario.invoiced_cart.
Proof. vm_compute. reflexivity. Qed.

(** *** C1 *)

(** [process_paid_order] has no status check of its own: called twice on
    the cart of two swords, it adds the total to the buyer's lifetime
    spend both times. *)
Lemma completion_applied_twice : ¬ completion_applied_once.
Proof.
  intros H.
  specialize (H Scenario.env 200 1 Scenario.active_cart 0 Scenario.cart_of_two
                cart_of_two_row (with_status paid Scenario.active_cart)).
  cbv zeta in H.
  rewrite process_paid_order_carts, lookup_alter_eq, cart_of_two_row in H.
  specialize (H eq_refl).
  pose proof (process_paid_order_lifetime Scenario.env 200 1
                (with_status paid Scenario.active_cart) 0
                (process_paid_order Scenario.env 200 1 Scenario.active_cart 0
                   Scenario.cart_of_two)) as E.
  change (user_id (with_status paid Scenario.active_cart))
    with (user_id Scenario.active_cart) in E.
  rewrite E in H. vm_compute in H. discriminate H.
Qed.

(** C1, at the failing input: the cart of two swords (20.00) of buyer 7,
    paid in crypto, with the payment instructions posted twice.  Neither
    [process_paid_order] nor the handlers that lead to it here
    ([confirm_payment], which writes ['pending_manual_verification'] over
    any status, and [complete_crypto_order]) test for a cart that is
    already paid, as [process_webhook_payment] and the query of the
    poller do: the completion is applied twice, and the owner's lifetime
    spend is 40.00 for one cart of 20.00.  The stock is as the additions
    to the cart left it. *)
Theorem completion_applied_twice_by_handlers :
  let w := Walkthrough.confirmed_twice in
  (λ c, (status c, total_price (cart_data c))) <$> carts w !! 1
    = Some (paid, 2000)
  ∧ lifetime_spent_of Scenario.cart_of_two 7 = 0
  ∧ lifetime_spent_of w 7 = 4000
  ∧ stock_of w 1 = stock_of Scenario.cart_of_two 1.
Proof. vm_compute. repeat split; reflexivity. Qed.

(** *** C2 *)

(** C2, at the failing input: a cart of 20.00 with 5.00 of credit applied,
    awaiting a hosted-link payment.  The reconciliation tick captures the
    payment and calls [process_paid_order] without [credit_spent]; the
    buyer's lifetime spend grows by the full 20.00, not by 15.00. *)
Theorem poll_counts_applied_credit_as_spent :
  let w := Scenario.part_credit_invoiced in
  let w' := ShopCog.check_pending_payments Scenario.env w in
  (λ c, (status c, total_price (cart_data c), credit_applied c)) <$> carts w !! 1
    = Some (pending_payment, 2000, 500)
  ∧ status <$> carts w' !! 1 = Some paid
  ∧ lifetime_spent_of w 7 = 0
  ∧ lifetime_spent_of w' 7 = 2000.
Proof. vm_compute. repeat split; reflexivity. Qed.

(** ** Applying credit *)

Section ApplyCredit.
Variable env : environment.

(** An amount above the caller's balance, or a caller without a row in
    [users], is refused and the store stays as it is. *)
Lemma apply_credit_rejects_overdraft user channel amount w :
  shop_closed w = false →
  amount > balance_of w user ∨ users w !! user = None →
  CartView.apply_credit env user channel amount w
  = emit (ChannelSend channel NotEnoughCredit) w.
Proof.
  intros Hopen Hover. unfold CartView.apply_credit, balance_of in *.
  rewrite Hopen. destruct (users w !! user) as [r|]; [|done].
  destruct Hover as [Hgt|]; [|done].
  by rewrite (proj2 (Z.gtb_gt _ _)).
Qed.

(** The debit never takes the caller's balance below zero. *)
Lemma apply_credit_balance_nonneg user channel amount w :
  0 ≤ balance_of w user →
  0 ≤ balance_of (CartView.apply_credit env user channel amount w) user.
Proof.
  intros Hpos. unfold CartView.apply_credit.
  destruct (shop_closed w); [done|].
  destruct (users w !! user) as [r|] eqn:Hr; [|done].
  destruct (amount >? balance r) eqn:Hgt; [done|].
  destruct (select_one (in_channel channel) (carts w)) as [[cid c]|]; [|done].
  assert (amount ≤ balance r) as Hle by lia.
  case_match; unfold balance_of.
  - rewrite process_paid_order_users. simpl. unfold upsert_user, update_id.
    destruct (decide (user_id c = user)) as [->|Hne].
    + rewrite lookup_alter_eq, Hr. simpl. rewrite lookup_insert_eq. simpl. lia.
    + destruct (alter _ user (users w) !! user_id c);
        rewrite lookup_insert_ne by done;
        rewrite lookup_alter_eq, Hr; simpl; lia.
  - simpl. unfold update_id. rewrite lookup_alter_eq, Hr. simpl. lia.
Qed.

End ApplyCredit.

(** *** C3 *)

(** C3, at the failing input: a cart of 20.00 that already carries 15.00 of
    credit, and a buyer with 25.00 left who applies 15.00 again.  The cap
    is the full total, not what is still outstanding: all 15.00 are
    debited and the cart carries 30.00 of credit against a total of
    20.00. *)
Theorem credit_applied_beyond_outstanding :
  let w := Scenario.credit_once in
  let w' := CartView.apply_credit Scenario.env 7 200 1500 w in
  (λ c, (status c, total_price (cart_data c), credit_applied c)) <$> carts w !! 1
    = Some (active, 2000, 1500)
  ∧ balance_of w 7 = 2500
  ∧ (λ c, (status c, total_price (cart_data c), credit_applied c)) <$> carts w' !! 1
    = Some (active, 2000, 3000)
  ∧ balance_of w' 7 = 1000.
Proof. vm_compute. repeat split; reflexivity. Qed.

(** ** Stock and the cart buttons *)

Section CartAction.
Variable env : environment.

Lemma cancel_invoice_items cid c ch reason w :
  items (cancel_invoice env cid c ch reason w) = items w.
Proof. unfold cancel_invoice. by repeat case_match. Qed.

(** An accepted addition of [n] units takes exactly [n] from the stock of
    the item; a removal of [n] units puts exactly [n] back, whatever the
    cart holds. *)
Lemma cart_action_stock user message n add new_channel new_message w item_id i :
  shop_closed w = false →
  select_one (λ i, bool_decide (item_message_id i = message)) (items w)
    = Some (item_id, i) →
  (add = true → n ≤ item_quantity i) →
  stock_of (ShopItemView.handle_cart_action env user message n add
              new_channel new_message w) item_id
  = Some (if add then item_quantity i - n else item_quantity i + n).
Proof.
  intros Hopen Hitem Hstock.
  pose proof (select_one_Some _ _ _ _ Hitem) as [Hi _].
  unfold ShopItemView.handle_cart_action, stock_of. rewrite Hopen, Hitem.
  destruct add.
  - rewrite (proj2 (Z.ltb_ge _ _) (Hstock eq_refl)).
    repeat case_match; simplify_eq; cbn [items set_items set_carts emit];
      try rewrite cancel_invoice_items; cbn [items set_items set_carts emit];
      unfold update_id, insert_cart in *; simplify_eq;
      cbn [items set_items set_carts emit];
      rewrite lookup_alter_eq, Hi; simpl; f_equal; lia.
  - repeat case_match; simplify_eq; cbn [items set_items set_carts emit];
      try rewrite cancel_invoice_items; cbn [items set_items set_carts emit];
      unfold update_id, insert_cart in *; simplify_eq;
      cbn [items set_items set_carts emit];
      try (rewrite lookup_alter_eq, Hi; simpl; f_equal; lia).
    (* the row just inserted is read back *)
    exfalso.
    match goal with
    | H : _ <$> _ !! _ = None |- _ =>
        cbn [carts set_carts emit] in H;
        rewrite lookup_alter_eq, lookup_insert_eq in H; discriminate H
    end.
Qed.

End CartAction.

(** *** C5 *)

(** C5, at the failing input: five swords in stock, two of them in the
    buyer's cart, and the buyer removes ten.  The stock grows by ten while
    the cart gives up the two it held: thirteen swords in stock with no
    cart holding any. *)
Theorem remove_restores_more_than_held :
  let w := Scenario.cart_of_two in
  let w' := ShopItemView.remove_from_cart Scenario.env 7 100 10 200 300 w in
  stock_of Scenario.shop 1 = Some 5
  ∧ stock_of w 1 = Some 3
  ∧ (λ c, held (cart_data c) 1) <$> carts w !! 1 = Some 2
  ∧ stock_of w' 1 = Some 13
  ∧ (λ c, held (cart_data c) 1) <$> carts w' !! 1 = Some 0
  ∧ (λ c, status c) <$> carts w' !! 1 = Some active.
Proof. vm_compute. repeat split; reflexivity. Qed.

(** *** C9 *)

(** C9, at the failing inputs.  A negative amount typed into the credit
    modal is not rejected: with an empty balance and -5.00 applied, the
    buyer's balance becomes 5.00 and the cart's credit -5.00.  And a
    request for more than the stock is rejected only after the caller's
    cart row has been inserted: buyer 8, who has no cart, asks for ten
    swords of five. *)
Theorem rejected_input_changes_the_store :
  (let w := Scenario.no_credit in
   let w' := CartView.apply_credit Scenario.env 7 200 (-500) w in
   balance_of w 7 = 0
   ∧ credit_applied <$> carts w !! 1 = Some 0
   ∧ balance_of w' 7 = 500
   ∧ credit_applied <$> carts w' !! 1 = Some (-500)
   ∧ head (trace w') = Some (Reply (CreditApplied (-500) 2500)))
  ∧ (let w := Scenario.shop in
     let w' := ShopItemView.add_to_cart Scenario.env 8 100 10 201 301 w in
     carts w = ∅
     ∧ head (trace w') = Some (Reply InsufficientStock)
     ∧ stock_of w' 1 = Some 5
     ∧ (λ c, (user_id c, status c)) <$> carts w' !! 1 = Some (8, active)).
Proof. vm_compute. repeat split; reflexivity. Qed.

(** ** Closing a cart *)

Section CloseCart.

Lemma restore_stock_frame l w :
  let w' := CartView.restore_stock l w in
  carts w' = carts w ∧ users w' = users w ∧ tickets w' = tickets w
  ∧ trace w' = trace w.
Proof.
  unfold CartView.restore_stock. revert w.
  induction l as [|kv l IH]; simpl; [done|].
  intros w. by destruct (IH (set_items (update_id kv.1 (add_quantity (quantity kv.2))) w))
    as (-> & -> & -> & ->).
Qed.

Lemma restore_stock_items l w i :
  stock_of (CartView.restore_stock l w) i
  = (λ q, q + lines_held l i) <$> stock_of w i.
Proof.
  unfold CartView.restore_stock, stock_of. revert w.
  induction l as [|[k x] l IH]; intros w; simpl.
  - destruct (items w !! i); simpl; [|done]. f_equal. lia.
  - rewrite IH. simpl. unfold update_id. rewrite lookup_alter.
    destruct (decide (k = i)) as [->|Hne]; [|done].
    destruct (items w !! i); simpl; [|done]. f_equal. lia.
Qed.

Lemma lines_held_absent l i : i ∉ l.*1 → lines_held l i = 0.
Proof.
  induction l as [|[k x] l IH]; simpl; [done|].
  intros Hni. apply not_elem_of_cons in Hni as [Hne Hni].
  rewrite decide_False by done. by apply IH.
Qed.

Lemma lines_held_present l i x :
  NoDup l.*1 → (i, x) ∈ l → lines_held l i = quantity x.
Proof.
  induction l as [|[k y] l IH]; simpl; intros Hnd Hin.
  - by apply elem_of_nil in Hin.
  - apply NoDup_cons in Hnd as [Hk Hnd].
    apply elem_of_cons in Hin as [[= <- <-]|Hin].
    + rewrite decide_True by done. rewrite lines_held_absent by done. lia.
    + rewrite decide_False.
      * by apply IH.
      * intros ->. apply Hk. apply list_elem_of_fmap. by exists (i, x).
Qed.

Lemma lines_held_map_to_list (cart : cart_contents) i :
  lines_held (map_to_list cart) i = held cart i.
Proof.
  unfold held. destruct (cart !! i) as [x|] eqn:Hx.
  - apply lines_held_present; [apply NoDup_fst_map_to_list|].
    by apply elem_of_map_to_list.
  - apply lines_held_absent. intros Hin.
    apply list_elem_of_fmap in Hin as [[k y] [-> Hin]].
    apply elem_of_map_to_list in Hin. simpl in *. congruence.
Qed.

(** What [close_cart] does to the stock, the balance and the cart row,
    whatever the sign of the credit. *)
Lemma close_cart_effect channel w cid c :
  select_one (in_channel channel) (carts w) = Some (cid, c) →
  let w' := CartView.close_cart channel w in
  (∀ i, stock_of w' i = (λ q, q + held (cart_data c) i) <$> stock_of w i)
  ∧ users w' = (if credit_applied c >? 0
                then update_id (user_id c) (add_balance (credit_applied c)) (users w)
                else users w)
  ∧ carts w' !! cid = Some (with_status closed c).
Proof.
  intros Hsel w'. pose proof (select_one_Some _ _ _ _ Hsel) as [Hc _].
  unfold w', CartView.close_cart. rewrite Hsel.
  pose proof (restore_stock_frame (map_to_list (cart_data c)) w)
    as (Hcarts & Husers & _).
  split; [|split].
  - intros i. rewrite <- lines_held_map_to_list, <- restore_stock_items.
    by destruct (credit_applied c >? 0).
  - destruct (credit_applied c >? 0); simpl; by rewrite Husers.
  - destruct (credit_applied c >? 0); simpl;
      unfold update_id; rewrite lookup_alter_eq, Hcarts, Hc; done.
Qed.

End CloseCart.

(** *** C6 *)

(** The sentence of the specification fails where the credit on the cart
    is not a positive amount (the refund is guarded by
    [credit_applied > 0]): after buyer 7 has typed -5.00, closing the cart
    leaves the balance at 5.00.  It also fails where the credit was
    applied by someone else and the owner has no row in [users]: the
    UPDATE of the refund finds no row. *)
Lemma close_cart_without_refund :
  ¬ closing_refunds_applied_credit Walkthrough.negative_credit
  ∧ ¬ closing_refunds_applied_credit Walkthrough.credit_of_another.
Proof.
  split; intros H.
  - destruct (H 200 1
      {| user_id := 7; channel_id := Some 200; cart_data := Scenario.two_swords;
         message_id := Some 300; invoice_message_id := None; payment_id := None;
         credit_applied := -500; last_activity := 0; status := active;
         cart_payment_method := None |}) as (_ & Hbalance & _);
      [vm_compute; reflexivity|reflexivity|].
    vm_compute in Hbalance. discriminate Hbalance.
  - destruct (H 200 1
      {| user_id := 7; channel_id := Some 200; cart_data := Scenario.two_swords;
         message_id := Some 300; invoice_message_id := None; payment_id := None;
         credit_applied := 500; last_activity := 0; status := active;
         cart_payment_method := None |}) as (_ & Hbalance & _);
      [vm_compute; reflexivity|reflexivity|].
    vm_compute in Hbalance. discriminate Hbalance.
Qed.

(** C6, as amended: closing an active cart puts back into stock, item by
    item, the quantity the cart's lines hold and leaves the cart closed.
    A positive credit applied to the cart is added to the balance of the
    cart's owner, who has a row in [users]; a credit of zero or less
    changes no balance.  No other user's balance changes. *)
Theorem close_cart_restores_and_refunds channel w cid c :
  select_one (in_channel channel) (carts w) = Some (cid, c) →
  status c = active →
  (0 < credit_applied c → is_Some (users w !! user_id c)) →
  let w' := CartView.close_cart channel w in
  (∀ i, stock_of w' i = (λ q, q + held (cart_data c) i) <$> stock_of w i)
  ∧ balance_of w' (user_id c)
    = balance_of w (user_id c) + Z.max 0 (credit_applied c)
  ∧ (∀ u, u ≠ user_id c → balance_of w' u = balance_of w u)
  ∧ carts w' !! cid = Some (with_status closed c).
Proof.
  intros Hsel _ Huser w'.
  destruct (close_cart_effect channel w cid c Hsel) as (Hstock & Husers & Hcart).
  split; [done|split; [|split; [|done]]].
  - unfold balance_of, w'. rewrite Husers.
    destruct (credit_applied c >? 0) eqn:Hgt.
    + destruct Huser as [u Hu]; [lia|].
      unfold update_id. rewrite lookup_alter_eq, Hu. simpl. lia.
    + destruct (users w !! user_id c); lia.
  - intros u Hu. unfold balance_of, w'. rewrite Husers.
    destruct (credit_applied c >? 0); [|done].
    unfold update_id. by rewrite lookup_alter_ne.
Qed.

Lemma close_cart_restores_and_refunds_witness :
  let w := Scenario.three_with_credit in
  let w' := CartView.close_cart 200 w in
  (stock_of w 1 = Some 2 ∧ stock_of w' 1 = Some 5)
  ∧ (balance_of w 7 = 300 ∧ balance_of w' 7 = 500)
  ∧ status <$> carts w' !! 1 = Some closed.
Proof.
  destruct (close_cart_restores_and_refunds 200 Scenario.three_with_credit 1
              Scenario.three_with_credit_cart) as (Hstock & Hbalance & _ & Hcart).
  - vm_compute. reflexivity.
  - reflexivity.
  - intros _. vm_compute. eexists. reflexivity.
  - cbv zeta. split; [|split].
    + split; [vm_compute; reflexivity|]. rewrite (Hstock 1). vm_compute. reflexivity.
    + split; [vm_compute; reflexivity|].
      etrans; [exact Hbalance|]. vm_compute. reflexivity.
    + rewrite Hcart. reflexivity.
Defined.

(** ** Checkout *)

Lemma cancel_invoice_emitted env cid c ch reason w :
  ∃ new, emitted w (cancel_invoice env cid c ch reason w) new
         ∧ ∀ e, e ∈ new → (∃ m, e = MessageDelete m) ∨ e = ChannelSend ch (InvoiceCanceled reason).
Proof.
  unfold cancel_invoice, emitted.
  destruct (invoice_message_id c) as [m|]; [|exists []; split; [done|set_solver]].
  destruct (m =? 0); [exists []; split; [done|set_solver]|].
  destruct (fetch_message env m); simpl.
  - exists [ChannelSend ch (InvoiceCanceled reason); MessageDelete m].
    split; [done|]. intros e He.
    apply elem_of_cons in He as [->|He]; [by right|].
    apply elem_of_cons in He as [->|He]; [left; eauto|set_solver].
  - exists [ChannelSend ch (InvoiceCanceled reason)].
    split; [done|]. intros e He.
    apply elem_of_cons in He as [->|He]; [by right|set_solver].
Qed.

(** A cancellation leaves the cart in its channel. *)
Lemma cancel_invoice_keeps_channel env cid c ch reason w channel :
  carts w !! cid = Some c → in_channel channel c = true →
  is_Some (select_one (in_channel channel) (carts (cancel_invoice env cid c ch reason w))).
Proof.
  intros Hc Hin. unfold cancel_invoice.
  destruct (invoice_message_id c) as [m|]; [|by eapply select_one_is_Some].
  destruct (m =? 0); [by eapply select_one_is_Some|].
  apply (select_one_is_Some _ _ cid (clear_invoice c)); [|done].
  destruct (fetch_message env m); simpl;
    unfold update_id; by rewrite lookup_alter_eq, Hc.
Qed.

(** *** C7 *)

(** C7, at the failing input: a cart of 100 units at 0.57 against a
    purchase minimum of 57.00.  In cents the total is the minimum, and the
    claim allows the checkout.  [handle_checkout] computes [100 * 0.57] on
    floats, which is 56.99999999999999, and its test
    [total_price < purchase_minimum] refuses the checkout.  A total that
    meets the minimum as a float, one unit at 0.50 against 0.50, passes
    the same test. *)
Theorem checkout_refused_at_the_minimum :
  let cart := [ {| Float64.quantity := 100;
                   Float64.price := Float64.fifty_seven_cents |} ] in
  100 * 57 = 5700
  ∧ PrimFloat.div (Float64.of_int 57) (Float64.of_int 100) = Float64.fifty_seven_cents
  ∧ Float64.total_price cart = 0x1.c7fffffffffffp+5%float
  ∧ Float64.below_minimum cart (Float64.of_int 57) = true
  ∧ Float64.below_minimum [ {| Float64.quantity := 1; Float64.price := 0.5%float |} ]
      0.5%float = false.
Proof. vm_compute. repeat split; reflexivity. Qed.

(** ** The reconciliation tick *)

Section Reconciliation.
Variable env : environment.

Lemma emitted_refl w : emitted w w [].
Proof. done. Qed.

Lemma emitted_trans w1 w2 w3 l1 l2 :
  emitted w1 w2 l1 → emitted w2 w3 l2 → emitted w1 w3 (l2 ++ l1).
Proof. unfold emitted. intros H1 H2. by rewrite H2, H1, app_assoc. Qed.

Lemma emitted_inj w w' l1 l2 : emitted w w' l1 → emitted w w' l2 → l1 = l2.
Proof.
  unfold emitted. intros H1 H2. rewrite H1 in H2. by apply app_inv_tail in H2.
Qed.

(** What [process_paid_order] posts: the success message exactly when it
    runs to its end. *)
Lemma process_paid_order_emitted ch cid c credit w :
  ∃ new, emitted w (process_paid_order env ch cid c credit w) new
    ∧ (ChannelSend ch PaymentSuccessful ∈ new
       ↔ order_announced env (user_id c) = true).
Proof.
  unfold process_paid_order, emitted, order_announced.
  destruct (log_purchases_frame env (user_id c) (map_to_list (cart_data c)).*1
    (set_carts (update_id cid (with_status paid))
       (set_users (upsert_user (user_id c)
          {| balance := 0; lifetime_spent := total_price (cart_data c) - credit;
             delivery_value_handled := 0 |}
          (add_lifetime_spent (total_price (cart_data c) - credit))) w)))
    as (_ & _ & _ & _ & Htrace).
  destruct (fetch_member env (user_id c)); [|exists []; split; [done|set_solver]].
  destruct (delivery_ping_role env) as [[]|]; cbn [trace emit]; rewrite Htrace.
  - exists [ChannelRename ch "paid-cart-" cid; ChannelSend ch PaymentSuccessful;
            ChannelSend ch DeliveryPing; RolesChecked (user_id c)].
    split; [done|]. split; [done|]. intros _. set_solver.
  - exists [ChannelRename ch "paid-cart-" cid; ChannelSend ch PaymentSuccessful;
            RolesChecked (user_id c)].
    split; [done|]. split; [done|]. intros _. set_solver.
  - exists [RolesChecked (user_id c)].
    split; [done|]. split; [|done]. intros H.
    apply elem_of_cons in H as [H|H]; [discriminate H|by apply elem_of_nil in H].
Qed.

Lemma cancel_invoice_other cid c ch reason w k :
  k ≠ cid → carts (cancel_invoice env cid c ch reason w) !! k = carts w !! k.
Proof.
  intros Hne. unfold cancel_invoice.
  repeat case_match; simpl; try done;
    unfold update_id; by rewrite lookup_alter_ne.
Qed.

(** The loop body only adds to the trace. *)
Lemma check_pending_payment_emitted w kc :
  ∃ new, emitted w (ShopCog.check_pending_payment env w kc) new.
Proof.
  unfold ShopCog.check_pending_payment. destruct kc as [cid c].
  destruct (channel_id c) as [ch|]; [|by exists []].
  destruct (payment_id c) as [pay|]; [|by exists []].
  destruct (get_channel env ch); [|by exists []].
  destruct (get_payment_details env pay) as [st|]; [|by exists [GatewayQuery pay]].
  case_bool_decide; [|by exists [GatewayQuery pay]].
  case_bool_decide.
  - destruct (process_paid_order_emitted ch cid c 0
                (emit (GatewayCapture pay) (emit (GatewayQuery pay) w)))
      as (new & Hnew & _).
    exists (new ++ [GatewayCapture pay; GatewayQuery pay]).
    unfold emitted in *. rewrite Hnew. cbn [trace emit]. by rewrite <- app_assoc.
  - match goal with |- context [cancel_invoice env cid c ch ?r ?w0] =>
      destruct (cancel_invoice_emitted env cid c ch r w0) as (new & Hnew & _) end.
    exists (new ++ [GatewayCapture pay; GatewayQuery pay]).
    unfold emitted in *. rewrite Hnew. cbn [trace emit]. by rewrite <- app_assoc.
Qed.

Lemma tick_emitted l w :
  ∃ new, emitted w (foldl (ShopCog.check_pending_payment env) w l) new.
Proof.
  revert w. induction l as [|kc l IH]; intros w; [by exists []|].
  cbn [foldl]. destruct (check_pending_payment_emitted w kc) as [l1 H1].
  destruct (IH (ShopCog.check_pending_payment env w kc)) as [l2 H2].
  exists (l2 ++ l1). by eapply emitted_trans.
Qed.

(** The loop body touches no cart row but its own. *)
Lemma check_pending_payment_other w k' c' k :
  k ≠ k' →
  carts (ShopCog.check_pending_payment env w (k', c')) !! k = carts w !! k.
Proof.
  intros Hne. unfold ShopCog.check_pending_payment.
  repeat case_match; simplify_eq; try done.
  - by rewrite process_paid_order_carts, lookup_alter_ne.
  - by rewrite cancel_invoice_other.
Qed.

Lemma tick_others l w k :
  k ∉ l.*1 →
  carts (foldl (ShopCog.check_pending_payment env) w l) !! k = carts w !! k.
Proof.
  revert w. induction l as [|[k' c'] l IH]; simpl; [done|].
  intros w Hk. apply not_elem_of_cons in Hk as [Hne Hk].
  rewrite IH by done. by apply check_pending_payment_other.
Qed.

(** An effect the body emits for a cart of the list is among the effects
    of the tick. *)
Lemma tick_emits l w new cid c e :
  (∀ w0, ∃ new0, emitted w0 (ShopCog.check_pending_payment env w0 (cid, c)) new0
                 ∧ e ∈ new0) →
  (cid, c) ∈ l →
  emitted w (foldl (ShopCog.check_pending_payment env) w l) new →
  e ∈ new.
Proof.
  intros He. revert w new. induction l as [|kc l IH]; cbn [foldl]; intros w new Hin Hnew.
  - by apply elem_of_nil in Hin.
  - destruct (check_pending_payment_emitted w kc) as [l1 H1].
    destruct (tick_emitted l (ShopCog.check_pending_payment env w kc)) as [l2 H2].
    rewrite (emitted_inj _ _ _ _ Hnew (emitted_trans _ _ _ _ _ H1 H2)).
    apply elem_of_app.
    apply elem_of_cons in Hin as [<-|Hin].
    + right. destruct (He w) as (new0 & Hnew0 & Hin0).
      by rewrite (emitted_inj _ _ _ _ H1 Hnew0).
    + left. by eapply IH.
Qed.

(** The row the body leaves for a cart of the list is the row the tick
    leaves. *)
Lemma tick_row (f : cart_row → cart_row) l w cid c :
  (∀ w, carts w !! cid = Some c →
        carts (ShopCog.check_pending_payment env w (cid, c)) !! cid = Some (f c)) →
  NoDup l.*1 → (cid, c) ∈ l → carts w !! cid = Some c →
  carts (foldl (ShopCog.check_pending_payment env) w l) !! cid = Some (f c).
Proof.
  intros Hf. revert w. induction l as [|[k' c'] l IH]; simpl; intros w Hnd Hin Hc.
  - by apply elem_of_nil in Hin.
  - apply NoDup_cons in Hnd as [Hk Hnd].
    apply elem_of_cons in Hin as [[= <- <-]|Hin].
    + rewrite tick_others by done. by apply Hf.
    + apply IH; [done..|].
      etrans; [apply check_pending_payment_other|done].
      intros ->. apply Hk. apply list_elem_of_fmap. by exists (k', c).
Qed.

End Reconciliation.

(** *** C8 *)

(** The sentence of the specification fails on a cart whose channel the
    platform no longer knows (the tick skips it without asking the
    gateway), and on a cart whose invoice message was never recorded (a
    declined capture leaves it awaiting payment). *)
Lemma tick_skips_some_pending_carts :
  ¬ reconciles_every_pending_cart Scenario.env_channel_gone Scenario.invoiced
  ∧ ¬ reconciles_every_pending_cart Scenario.env_capture_declined
        Scenario.invoice_not_recorded.
Proof.
  split; intros H.
  - destruct (H 1 Scenario.invoiced_cart 200 "PAY-1"%string) as [Hq _];
      [vm_compute; reflexivity..|].
    vm_compute in Hq.
    repeat (apply elem_of_cons in Hq as [Hq|Hq]; [discriminate Hq|]).
    by apply elem_of_nil in Hq.
  - destruct (H 1 (set_payment "PAY-1" paypal 0 Scenario.active_cart) 200 "PAY-1"%string)
      as (_ & Happroved); [vm_compute; reflexivity..|].
    destruct Happroved as (_ & _ & Hdeclined); [reflexivity|].
    destruct Hdeclined as [Hrow _]; [discriminate|].
    vm_compute in Hrow. discriminate Hrow.
Qed.

(** C8, as amended: on a tick, a cart of the result set whose channel the
    platform does not find is skipped: nothing is asked of the gateway
    for it and its row stays.  For a cart whose channel is found, the tick
    asks the gateway for the order; it captures an approved order; when
    the capture reports completion it invokes the order-completion
    transition, which marks the cart paid and, when it runs to its end,
    posts the success message; when the capture does not, and the cart
    records an invoice message, the invoice is canceled with a reason
    posted in the channel and the cart is active again, its payment fields
    cleared.  The effects are those the tick itself adds to the trace. *)
Theorem reconciliation_tick env w cid c p :
  carts w !! cid = Some c → ShopCog.awaiting_paypal c = true →
  payment_id c = Some p →
  let w' := ShopCog.check_pending_payments env w in
  ∃ new, emitted w w' new
  ∧ (channel_found env (channel_id c) = false →
     carts w' !! cid = Some c
     ∧ ∀ w0, ShopCog.check_pending_payment env w0 (cid, c) = w0)
  ∧ (∀ ch, channel_id c = Some ch → get_channel env ch = true →
     GatewayQuery p ∈ new
     ∧ (get_payment_details env p = Some "APPROVED"%string →
        GatewayCapture p ∈ new
        ∧ (capture_payment env p = Some "COMPLETED"%string →
           (∀ w0, ShopCog.check_pending_payment env w0 (cid, c)
                  = process_paid_order env ch cid c 0
                      (emit (GatewayCapture p) (emit (GatewayQuery p) w0)))
           ∧ carts w' !! cid = Some (with_status paid c)
           ∧ (order_announced env (user_id c) = true →
              ChannelSend ch PaymentSuccessful ∈ new))
        ∧ (capture_payment env p ≠ Some "COMPLETED"%string →
           truthy_id (invoice_message_id c) = true →
           carts w' !! cid = Some (clear_invoice c)
           ∧ ∃ reason, ChannelSend ch (InvoiceCanceled reason) ∈ new))).
Proof.
  intros Hc Hsel Hp w'. unfold w', ShopCog.check_pending_payments.
  assert ((cid, c) ∈ select_all ShopCog.awaiting_paypal (carts w)) as Hin
    by by apply elem_of_select_all.
  pose proof (NoDup_select_all ShopCog.awaiting_paypal (carts w)) as Hnd.
  destruct (tick_emitted env (select_all ShopCog.awaiting_paypal (carts w)) w)
    as [new Hnew].
  exists new. split; [done|]. split.
  { intros Hgone.
    assert (∀ w0, ShopCog.check_pending_payment env w0 (cid, c) = w0) as Hskip.
    { intros w0. unfold ShopCog.check_pending_payment. rewrite Hp.
      destruct (channel_id c) as [ch|]; [|done].
      simpl in Hgone. by rewrite Hgone. }
    split; [|done].
    apply (tick_row env (λ r, r)); [|done..].
    intros w0 Hc0. by rewrite Hskip. }
  intros ch Hch Hget.
  assert (∀ w0, ∃ new0,
            emitted w0 (ShopCog.check_pending_payment env w0 (cid, c)) new0
            ∧ GatewayQuery p ∈ new0) as Hquery.
  { intros w0. unfold ShopCog.check_pending_payment. rewrite Hch, Hp, Hget.
    destruct (get_payment_details env p) as [st|];
      [|exists [GatewayQuery p]; split; [done|set_solver]].
    case_bool_decide; [|exists [GatewayQuery p]; split; [done|set_solver]].
    case_bool_decide.
    - destruct (process_paid_order_emitted env ch cid c 0
                  (emit (GatewayCapture p) (emit (GatewayQuery p) w0)))
        as (l & Hl & _).
      exists (l ++ [GatewayCapture p; GatewayQuery p]). split; [|set_solver].
      unfold emitted in *. rewrite Hl. cbn [trace emit]. by rewrite <- app_assoc.
    - match goal with |- context [cancel_invoice env cid c ch ?r ?w1] =>
        destruct (cancel_invoice_emitted env cid c ch r w1) as (l & Hl & _) end.
      exists (l ++ [GatewayCapture p; GatewayQuery p]). split; [|set_solver].
      unfold emitted in *. rewrite Hl. cbn [trace emit]. by rewrite <- app_assoc. }
  split; [by eapply tick_emits|].
  intros Happroved. split; [|split].
  - eapply tick_emits; [|done..]. intros w0.
    unfold ShopCog.check_pending_payment. rewrite Hch, Hp, Hget, Happroved.
    rewrite bool_decide_eq_true_2 by done.
    case_bool_decide.
    + destruct (process_paid_order_emitted env ch cid c 0
                  (emit (GatewayCapture p) (emit (GatewayQuery p) w0)))
        as (l & Hl & _).
      exists (l ++ [GatewayCapture p; GatewayQuery p]). split; [|set_solver].
      unfold emitted in *. rewrite Hl. cbn [trace emit]. by rewrite <- app_assoc.
    + match goal with |- context [cancel_invoice env cid c ch ?r ?w1] =>
        destruct (cancel_invoice_emitted env cid c ch r w1) as (l & Hl & _) end.
      exists (l ++ [GatewayCapture p; GatewayQuery p]). split; [|set_solver].
      unfold emitted in *. rewrite Hl. cbn [trace emit]. by rewrite <- app_assoc.
  - intros Hdone.
    assert (∀ w0, ShopCog.check_pending_payment env w0 (cid, c)
                  = process_paid_order env ch cid c 0
                      (emit (GatewayCapture p) (emit (GatewayQuery p) w0)))
      as Hbody.
    { intros w0. unfold ShopCog.check_pending_payment.
      rewrite Hch, Hp, Hget, Happroved, Hdone.
      by rewrite !bool_decide_eq_true_2 by done. }
    split; [done|]. split.
    + apply (tick_row env (with_status paid)); [|done..].
      intros w0 Hc0. rewrite Hbody.
      rewrite process_paid_order_carts, lookup_alter_eq. cbn [carts emit].
      by rewrite Hc0.
    + intros Hend. eapply tick_emits; [|done..]. intros w0. rewrite Hbody.
      destruct (process_paid_order_emitted env ch cid c 0
                  (emit (GatewayCapture p) (emit (GatewayQuery p) w0)))
        as (l & Hl & Hsuccess).
      exists (l ++ [GatewayCapture p; GatewayQuery p]). split.
      * unfold emitted in *. rewrite Hl. cbn [trace emit]. by rewrite <- app_assoc.
      * apply elem_of_app. left. by apply Hsuccess.
  - intros Hfail Hinv.
    destruct (invoice_message_id c) as [m|] eqn:Hm; [|done].
    simpl in Hinv. apply negb_true_iff in Hinv.
    split.
    + apply (tick_row env clear_invoice); [|done..].
      intros w0 Hc0. unfold ShopCog.check_pending_payment.
      rewrite Hch, Hp, Hget, Happroved.
      rewrite bool_decide_eq_true_2 by done.
      rewrite (bool_decide_eq_false_2 _ Hfail).
      unfold cancel_invoice. rewrite Hm, Hinv.
      destruct (fetch_message env m); cbn [carts emit set_carts];
        unfold update_id; by rewrite lookup_alter_eq, Hc0.
    + exists "There was an issue finalizing your PayPal payment. Please contact support."%string.
      eapply tick_emits; [|done..]. intros w0.
      unfold ShopCog.check_pending_payment.
      rewrite Hch, Hp, Hget, Happroved.
      rewrite bool_decide_eq_true_2 by done.
      rewrite (bool_decide_eq_false_2 _ Hfail).
      unfold cancel_invoice. rewrite Hm, Hinv.
      destruct (fetch_message env m).
      * eexists (_ :: _ :: _ :: _ :: []). split; [reflexivity|]. set_solver.
      * eexists (_ :: _ :: _ :: []). split; [reflexivity|]. set_solver.
Qed.

Lemma reconciliation_tick_witness :
  (let w' := ShopCog.check_pending_payments Scenario.env Scenario.invoiced in
   ∃ new, emitted Scenario.invoiced w' new
     ∧ GatewayQuery "PAY-1" ∈ new ∧ GatewayCapture "PAY-1" ∈ new
     ∧ ChannelSend 200 PaymentSuccessful ∈ new
     ∧ carts w' !! 1 = Some (with_status paid Scenario.invoiced_cart))
  ∧ (let w' := ShopCog.check_pending_payments Scenario.env_capture_declined
                 Scenario.invoiced in
     carts w' !! 1 = Some (clear_invoice Scenario.invoiced_cart))
  ∧ (let w' := ShopCog.check_pending_payments Scenario.env_channel_gone
                 Scenario.invoiced in
     carts w' !! 1 = Some Scenario.invoiced_cart).
Proof.
  split; [|split].
  - destruct (reconciliation_tick Scenario.env Scenario.invoiced 1
                Scenario.invoiced_cart "PAY-1"%string)
      as (new & Hnew & _ & Hfound).
    + vm_compute. reflexivity.
    + vm_compute. reflexivity.
    + reflexivity.
    + destruct (Hfound 200) as (Hquery & Happroved); [reflexivity..|].
      destruct Happroved as (Hcapture & Hdone & _); [reflexivity|].
      destruct Hdone as (_ & Hrow & Hsuccess); [reflexivity|].
      cbv zeta. exists new. repeat split; try done. apply Hsuccess. reflexivity.
  - destruct (reconciliation_tick Scenario.env_capture_declined Scenario.invoiced 1
                Scenario.invoiced_cart "PAY-1"%string)
      as (new & _ & _ & Hfound).
    + vm_compute. reflexivity.
    + vm_compute. reflexivity.
    + reflexivity.
    + destruct (Hfound 200) as (_ & Happroved); [reflexivity..|].
      destruct Happroved as (_ & _ & Hdeclined); [reflexivity|].
      destruct Hdeclined as [Hrow _]; [discriminate|reflexivity|].
      exact Hrow.
  - destruct (reconciliation_tick Scenario.env_channel_gone Scenario.invoiced 1
                Scenario.invoiced_cart "PAY-1"%string)
      as (new & _ & Hgone & _).
    + vm_compute. reflexivity.
    + vm_compute. reflexivity.
    + reflexivity.
    + destruct Hgone as [Hrow _]; [reflexivity|]. exact Hrow.
Defined.

(** ** Where invoice references come from *)

Section InvoiceOrigin.
Variable w0 : world.

Lemma nni_refl : no_new_invoice w0 w0.
Proof. intros cid c' Hc. right. eauto. Qed.

Lemma nni_alter k f w :
  (∀ r, invoice_message_id (f r) = None
        ∨ invoice_message_id (f r) = invoice_message_id r) →
  no_new_invoice w0 w → no_new_invoice w0 (set_carts (update_id k f) w).
Proof.
  intros Hf Hw cid c'. unfold update_id. simpl. rewrite lookup_alter.
  case_decide; [|by apply Hw].
  subst. destruct (carts w !! cid) as [r|] eqn:Hr; simpl; [|done].
  intros [= <-]. destruct (Hf r) as [Hnone| ->]; [by left|]. by apply Hw.
Qed.

Lemma nni_emit e w : no_new_invoice w0 w → no_new_invoice w0 (emit e w).
Proof. intros H. exact H. Qed.

Lemma nni_set_items f w : no_new_invoice w0 w → no_new_invoice w0 (set_items f w).
Proof. intros H. exact H. Qed.

Lemma nni_set_users f w : no_new_invoice w0 w → no_new_invoice w0 (set_users f w).
Proof. intros H. exact H. Qed.

Lemma nni_set_tickets f w : no_new_invoice w0 w → no_new_invoice w0 (set_tickets f w).
Proof. intros H. exact H. Qed.

Lemma nni_set_settings f w : no_new_invoice w0 w → no_new_invoice w0 (set_settings f w).
Proof. intros H. exact H. Qed.

Lemma nni_log_analytics r w : no_new_invoice w0 w → no_new_invoice w0 (log_analytics r w).
Proof. intros H. exact H. Qed.

Lemma nni_insert_ticket user channel w :
  no_new_invoice w0 w → no_new_invoice w0 (insert_ticket user channel w).
Proof. intros H. exact H. Qed.

Lemma nni_insert_item r w : no_new_invoice w0 w → no_new_invoice w0 (insert_item r w).
Proof. intros H. unfold insert_item. by case_match. Qed.

Lemma nni_insert_cart user now w k w' :
  insert_cart user now w = (k, w') → no_new_invoice w0 w → no_new_invoice w0 w'.
Proof.
  intros [= <- <-] Hw cid r. simpl. rewrite lookup_insert.
  case_decide; [|by apply Hw].
  intros [= <-]. by left.
Qed.

Lemma nni_delete k w : no_new_invoice w0 w → no_new_invoice w0 (set_carts (delete k) w).
Proof.
  intros Hw cid r. simpl. intros H.
  apply lookup_delete_Some in H as [_ H]. by apply Hw.
Qed.

Lemma nni_delete_where p w :
  no_new_invoice w0 w → no_new_invoice w0 (set_carts (delete_where p) w).
Proof.
  intros Hw cid r. simpl. intros H.
  apply lookup_delete_where_Some in H. by apply Hw.
Qed.

Lemma nni_foldl {B} (f : world → B → world) l w :
  (∀ w x, no_new_invoice w0 w → no_new_invoice w0 (f w x)) →
  no_new_invoice w0 w → no_new_invoice w0 (foldl f w l).
Proof.
  intros Hf. revert w. induction l as [|x l IH]; simpl; [done|].
  intros w Hw. apply IH. by apply Hf.
Qed.

Lemma isp_of_nni w : no_new_invoice w0 w → invoices_stored_pending w0 w.
Proof. intros Hw cid c' Hc. destruct (Hw cid c' Hc); eauto. Qed.

Lemma isp_emit e w : invoices_stored_pending w0 w → invoices_stored_pending w0 (emit e w).
Proof. intros H. exact H. Qed.

(** The two statements that store an invoice reference: the row has just
    been set to await payment. *)
Lemma isp_alter_twice k f g e w :
  (∀ r, status (g (f r)) = pending_payment) →
  no_new_invoice w0 w →
  invoices_stored_pending w0
    (set_carts (update_id k g) (emit e (set_carts (update_id k f) w))).
Proof.
  intros Hgf Hw cid c'. unfold update_id. simpl. rewrite !lookup_alter.
  repeat case_decide; try done.
  - subst. destruct (carts w !! cid) as [r|]; simpl; [|done].
    intros [= <-]. right. right. apply Hgf.
  - intros Hc. destruct (Hw cid c' Hc); eauto.
Qed.

End InvoiceOrigin.

Ltac keeps_invoice := intros []; simpl; (by left) || (by right).

#[local] Hint Resolve nni_refl nni_emit nni_set_items nni_set_users nni_set_tickets
  nni_set_settings nni_log_analytics nni_insert_ticket nni_insert_item
  nni_insert_cart nni_delete nni_delete_where isp_emit : inv.
#[local] Hint Extern 2 (no_new_invoice _ (set_carts (update_id _ _) _)) =>
  apply nni_alter; [keeps_invoice|] : inv.
#[local] Hint Extern 3 (invoices_stored_pending _ (set_carts (update_id _ _) (emit _ (set_carts (update_id _ _) _)))) =>
  apply isp_alter_twice; [by intros []|] : inv.

Lemma nni_cancel_invoice w0 env cid c ch reason w :
  no_new_invoice w0 w → no_new_invoice w0 (cancel_invoice env cid c ch reason w).
Proof. intros. unfold cancel_invoice. by_cases. Qed.

Lemma nni_log_purchases w0 env user l w :
  no_new_invoice w0 w → no_new_invoice w0 (log_purchases env user l w).
Proof.
  intros. unfold log_purchases. apply nni_foldl; [|done].
  intros. by_cases.
Qed.

#[local] Hint Resolve nni_cancel_invoice nni_log_purchases : inv.

Lemma nni_process_paid_order w0 env ch cid c credit w :
  no_new_invoice w0 w → no_new_invoice w0 (process_paid_order env ch cid c credit w).
Proof. intros. unfold process_paid_order. by_cases. Qed.

Lemma nni_delete_channel w0 env ch w :
  no_new_invoice w0 w → no_new_invoice w0 (delete_channel env ch w).
Proof. intros. unfold delete_channel. by_cases. Qed.

Lemma nni_restore_stock w0 l w :
  no_new_invoice w0 w → no_new_invoice w0 (CartView.restore_stock l w).
Proof.
  intros. unfold CartView.restore_stock. apply nni_foldl; [|done].
  intros. by_cases.
Qed.

#[local] Hint Resolve nni_process_paid_order nni_delete_channel
  nni_restore_stock : inv.

(** Only [handle_checkout] and [coin_select] store an invoice reference,
    and they store it on the row they have just set to await payment. *)
Lemma invoices_stored_pending_run env op w :
  invoices_stored_pending w (run env op w).
Proof.
  destruct op; simpl.
  - apply isp_of_nni. unfold CancelInvoiceView.cancel_transaction. by_cases.
  - unfold CryptoCoinSelectionView.coin_select.
    repeat case_match; eauto 8 using isp_of_nni with inv.
  - apply isp_of_nni. unfold CryptoConfirmationView.confirm_payment. by_cases.
  - apply isp_of_nni. unfold CryptoConfirmationView.cancel_payment. by_cases.
  - apply isp_of_nni. unfold PaymentMethodView.crypto_checkout. by_cases.
  - unfold PaymentMethodView.handle_checkout.
    repeat case_match; eauto 8 using isp_of_nni with inv.
  - apply isp_of_nni. unfold LeaveReviewView.close_cart. by_cases.
  - apply isp_of_nni. unfold DeleteCartView.delete_cart. by_cases.
  - apply isp_of_nni. unfold DeleteTicketView.delete_ticket. by_cases.
  - apply isp_of_nni. unfold ShopItemView.handle_cart_action. by_cases.
  - apply isp_of_nni. unfold CartView.apply_credit. by_cases.
  - apply isp_of_nni. unfold CartView.checkout. by_cases.
  - apply isp_of_nni. unfold CartView.close_cart. by_cases.
  - apply isp_of_nni. unfold TicketCreationView.open_ticket. by_cases.
  - apply isp_of_nni. unfold TicketChannelView.close_ticket. by_cases.
  - apply isp_of_nni. unfold ShopCog.complete_order. by_cases.
  - apply isp_of_nni. unfold ShopCog.complete_crypto_order. by_cases.
  - apply isp_of_nni. unfold ShopCog.create. by_cases.
  - apply isp_of_nni. unfold ShopCog.restock. by_cases.
  - apply isp_of_nni. unfold ShopCog.remove. by_cases.
  - apply isp_of_nni. unfold ShopCog.set_status, set_setting. by_cases.
  - apply isp_of_nni. unfold ShopCog.wipe_all_carts.
    apply nni_foldl; [|apply nni_refl]. intros. by_cases.
  - apply isp_of_nni. unfold ShopCog.check_pending_payments.
    apply nni_foldl; [|apply nni_refl].
    intros. unfold ShopCog.check_pending_payment. by_cases.
  - apply isp_of_nni. unfold ShopCog.purge_closed_carts. apply nni_delete_where.
    apply nni_foldl; [|apply nni_refl]. intros. by_cases.
  - apply isp_of_nni. unfold CreditCog.balance_add. by_cases.
  - apply isp_of_nni. unfold CreditCog.balance_set. by_cases.
  - apply isp_of_nni. unfold TicketCog.purge_closed_tickets. apply nni_set_tickets.
    apply nni_foldl; [|apply nni_refl]. intros. by_cases.
  - apply isp_of_nni. unfold WebhookServer.process_webhook_payment. by_cases.
Qed.

(** *** C4 *)

(** *** Overlapping runs *)

Section Overlap.
Import Interleaving.

(** The store of [coin_select], past its guards, is the store of its two
    UPDATEs; the instructions are posted between them. *)
Lemma coin_select_statements env cid c total coin m w ch :
  get_coin_price env coin = true → wallet_address env coin = true →
  channel_id c = Some ch → get_channel env ch = true →
  carts (CryptoCoinSelectionView.coin_select env cid c total coin m w)
  = carts (perform_all [Statement (UpdateMethod cid coin (utcnow env));
                        Statement (UpdateInvoiceMessage cid m)] w).
Proof.
  intros Hprice Hwallet Hch Hget. unfold CryptoCoinSelectionView.coin_select.
  by rewrite Hprice, Hwallet, Hch, Hget.
Qed.

(** Every statement but the invoice UPDATE keeps the invariant wherever it
    takes effect; the invoice UPDATE keeps it on a cart that is not
    ['active']. *)
Lemma invoice_invariant_execute s w :
  invoice_invariant w →
  match s with
  | UpdateInvoiceMessage cid _ => not_active cid w = true
  | _ => True
  end →
  invoice_invariant (execute s w).
Proof.
  intros Hw Hguard.
  destruct s; cbn [execute];
    try (apply inv_alter; [intros r Hr; unfold cart_ok in *; by simpl|done]);
    try (by apply inv_delete_where); try (by apply inv_delete); try done.
  - eapply inv_insert_cart; [apply surjective_pairing|done].
  - intros cid r. unfold update_id. cbn [carts set_carts].
    rewrite lookup_alter. case_decide as Heq; [|by apply Hw].
    subst. unfold not_active in Hguard.
    destruct (carts w !! cid) as [r0|]; simpl; [|done].
    intros [= <-] Hactive. apply bool_decide_eq_true in Hguard. done.
Qed.

Lemma invoice_invariant_perform st w :
  invoice_invariant w → invoices_stored_undisturbed [st] w = true →
  invoice_invariant (perform st w).
Proof.
  intros Hw Hguard. destruct st as [env op|s]; cbn [perform].
  - by apply invoice_invariant_run.
  - apply invoice_invariant_execute; [done|].
    cbn [invoices_stored_undisturbed] in Hguard.
    apply andb_true_iff in Hguard as [Hguard _]. by destruct s.
Qed.

Lemma invoice_invariant_perform_all l w :
  invoice_invariant w → invoices_stored_undisturbed l w = true →
  invoice_invariant (perform_all l w).
Proof.
  revert w. induction l as [|st l IH]; intros w Hw Hguard; [done|].
  cbn [invoices_stored_undisturbed] in Hguard.
  apply andb_true_iff in Hguard as [Hst Hl].
  cbn [perform_all foldl]. apply IH; [|done].
  apply invoice_invariant_perform; [done|].
  cbn [invoices_stored_undisturbed]. by rewrite Hst.
Qed.

End Overlap.

(** The sentence of the specification fails when handlers overlap.
    Buyer 7's cart awaits the hosted-link payment under invoice 400; a
    coin is picked in a menu opened before, and "Cancel Transaction" takes
    effect between the two UPDATEs of [coin_select]: the cart is
    ['active'] and refers to the instructions, message 401. *)
Lemma invoice_stored_on_reopened_cart : ¬ no_invoice_while_active_in_any_run.
Proof.
  intros H.
  specialize (H Walkthrough.canceled_midway 1
    {| user_id := 7; channel_id := Some 200; cart_data := Scenario.two_swords;
       message_id := Some 300; invoice_message_id := Some 401;
       payment_id := None; credit_applied := 0; last_activity := 0;
       status := active; cart_payment_method := None |}).
  assert (Some 401 = None :> option Z) as Habsurd; [|discriminate Habsurd].
  apply H; [vm_compute; reflexivity|reflexivity].
Qed.

(** C4, as amended: in every run, of handlers that overlap or not, in
    which no invoice UPDATE of a checkout takes effect on a cart that was
    set back to ['active'] since the status UPDATE of that checkout, a
    cart whose status is ['active'] has no invoice message reference.
    Every further step keeps it so: a handler run to its end, and every
    statement, the invoice UPDATE on the same condition; a row set back
    to ['active'] has its reference cleared by the same statement.  An
    invoice reference that a handler run to its end newly stores sits on
    a cart whose status is ['pending_payment']. *)
Theorem no_invoice_while_active l :
  Interleaving.invoices_stored_undisturbed l initial_world = true →
  let w := Interleaving.perform_all l initial_world in
  (∀ cid c, carts w !! cid = Some c → status c = active →
            invoice_message_id c = None)
  ∧ (∀ st cid c,
       Interleaving.invoices_stored_undisturbed [st] w = true →
       carts (Interleaving.perform st w) !! cid = Some c → status c = active →
       invoice_message_id c = None)
  ∧ (∀ cid c,
       carts (Interleaving.execute (Interleaving.ClearInvoice cid) w) !! cid
         = Some c →
       status c = active ∧ invoice_message_id c = None)
  ∧ (∀ env op, invoices_stored_pending w (run env op w)).
Proof.
  intros Hl w.
  assert (invoice_invariant w) as Hw.
  { apply invoice_invariant_perform_all; [|done].
    intros cid r Hr. cbn in Hr. by rewrite lookup_empty in Hr. }
  split; [|split; [|split]].
  - intros cid c Hc. by apply (Hw cid c).
  - intros st cid c Hst Hc.
    by apply (invoice_invariant_perform st w Hw Hst cid c).
  - intros cid c. cbn [Interleaving.execute carts set_carts]. unfold update_id.
    rewrite lookup_alter_eq.
    destruct (carts w !! cid) as [r|]; simpl; [|done]. by intros [= <-].
  - intros env op. apply invoices_stored_pending_run.
Qed.

Lemma no_invoice_while_active_witness :
  let w := Interleaving.perform_all Walkthrough.canceled_afterwards initial_world in
  (status <$> carts w !! 1 = Some active)
  ∧ (∀ c, carts w !! 1 = Some c → status c = active → invoice_message_id c = None).
Proof.
  destruct (no_invoice_while_active Walkthrough.canceled_afterwards)
    as (Hinv & _).
  - vm_compute. reflexivity.
  - cbv zeta. split; [vm_compute; reflexivity|].
    intros c. exact (Hinv 1 c).
Defined.

(** *** C10 *)

Section OverlapTickets.
Import Interleaving.

(** The store of an accepted [open_ticket] is the store of its INSERT; the
    channel is created between the SELECT and the INSERT. *)
Lemma open_ticket_statements user new_channel w :
  select_one (TicketCreationView.is_open_ticket_of user) (tickets w) = None →
  tickets (TicketCreationView.open_ticket user new_channel w)
  = tickets (execute (InsertTicket user new_channel) w).
Proof. intros Hnone. unfold TicketCreationView.open_ticket. by rewrite Hnone. Qed.

Lemma ticket_invariant_execute s w :
  ticket_invariant w →
  match s with
  | InsertTicket user _ =>
      select_one (TicketCreationView.is_open_ticket_of user) (tickets w) = None
  | _ => True
  end →
  ticket_invariant (execute s w).
Proof.
  intros Hw Hguard.
  destruct s; cbn [execute];
    try (by apply tinv_set_carts); try (by apply tinv_delete_where).
  - eapply tinv_insert_cart; [apply surjective_pairing|done].
  - by apply tinv_insert_ticket.
  - by apply tinv_close_where.
Qed.

Lemma ticket_invariant_perform_all l w :
  ticket_invariant w → tickets_inserted_undisturbed l w = true →
  ticket_invariant (perform_all l w).
Proof.
  revert w. induction l as [|st l IH]; intros w Hw Hguard; [done|].
  cbn [tickets_inserted_undisturbed] in Hguard.
  apply andb_true_iff in Hguard as [Hst Hl].
  cbn [perform_all foldl]. apply IH; [|done].
  destruct st as [env op|s]; cbn [perform].
  - by apply ticket_invariant_run.
  - apply ticket_invariant_execute; [done|].
    destruct s; try done. by apply bool_decide_eq_true in Hst.
Qed.

End OverlapTickets.

(** The sentence of the specification fails when two presses of one user
    overlap: both SELECTs run before either INSERT, both find no open
    ticket, and both tickets are inserted. *)
Lemma two_open_tickets_after_overlapping_presses :
  ¬ one_open_ticket_in_any_run.
Proof.
  intros H.
  assert (select_one (TicketCreationView.is_open_ticket_of 7)
            (tickets initial_world) = None) as _ by (vm_compute; reflexivity).
  specialize (H Walkthrough.pressed_twice 1 2
    {| ticket_user_id := 7; ticket_channel_id := 500; ticket_state := ticket_open |}
    {| ticket_user_id := 7; ticket_channel_id := 501; ticket_state := ticket_open |}).
  assert (1 = 2) as Habsurd; [|discriminate Habsurd].
  apply H; [vm_compute; reflexivity|vm_compute; reflexivity|reflexivity..].
Qed.

(** C10, as amended: while a user has a ticket whose status is ['open'],
    [open_ticket] answers that a ticket is already open and does nothing
    else (no row is inserted, no channel is created).  Hence, in every
    run, of handlers that overlap or not, in which no INSERT of an
    [open_ticket] takes effect after another open ticket of the same user
    has appeared since its SELECT, two open tickets of one user are the
    same ticket. *)
Theorem one_open_ticket_per_user l :
  Interleaving.tickets_inserted_undisturbed l initial_world = true →
  let w := Interleaving.perform_all l initial_world in
  (∀ user new_channel k t,
     tickets w !! k = Some t → ticket_user_id t = user →
     ticket_state t = ticket_open →
     TicketCreationView.open_ticket user new_channel w
     = emit (Reply AlreadyOpenTicket) w)
  ∧ (∀ k1 k2 t1 t2,
       tickets w !! k1 = Some t1 → tickets w !! k2 = Some t2 →
       ticket_user_id t1 = ticket_user_id t2 →
       ticket_state t1 = ticket_open → ticket_state t2 = ticket_open →
       k1 = k2).
Proof.
  intros Hl w. split.
  - intros user new_channel k t Hk Hu Ho.
    unfold TicketCreationView.open_ticket.
    destruct (select_one_is_Some (TicketCreationView.is_open_ticket_of user)
                (tickets w) k t Hk) as [kt ->]; [|done].
    unfold TicketCreationView.is_open_ticket_of.
    by rewrite !bool_decide_eq_true_2.
  - apply ticket_invariant_perform_all; [|done].
    intros k1 k2 t1 t2 H1. cbn in H1. by rewrite lookup_empty in H1.
Qed.

Lemma one_open_ticket_per_user_witness :
  let w := Interleaving.perform_all Walkthrough.pressed_in_turn initial_world in
  tickets w !! 2 = None
  ∧ TicketCreationView.open_ticket 7 502 w = emit (Reply AlreadyOpenTicket) w.
Proof.
  destruct (one_open_ticket_per_user Walkthrough.pressed_in_turn) as [Hrefuse _].
  - vm_compute. reflexivity.
  - cbv zeta. split; [vm_compute; reflexivity|].
    apply (Hrefuse 7 502 1 {| ticket_user_id := 7; ticket_channel_id := 500;
                              ticket_state := ticket_open |}).
    + vm_compute. reflexivity.
    + reflexivity.
    + reflexivity.
Defined.

(** * Further properties of the handlers *)

(** ** Frames: what the shared transitions leave alone *)

Section Frames.
Variable env : environment.

Lemma cancel_invoice_frame cid c ch reason w :
  let w' := cancel_invoice env cid c ch reason w in
  items w' = items w ∧ users w' = users w ∧ tickets w' = tickets w
  ∧ analytics w' = analytics w
  ∧ carts_auto_increment w' = carts_auto_increment w
  ∧ dom (carts w') = dom (carts w).
Proof.
  unfold cancel_invoice. repeat case_match; simpl; try done;
    unfold update_id; by rewrite dom_alter_L.
Qed.

Lemma log_purchases_counters user l w :
  let w' := log_purchases env user l w in
  settings w' = settings w
  ∧ items_auto_increment w' = items_auto_increment w
  ∧ carts_auto_increment w' = carts_auto_increment w
  ∧ tickets_auto_increment w' = tickets_auto_increment w.
Proof.
  unfold log_purchases. revert w. induction l as [|x l IH]; simpl; [done|].
  intros w. destruct (IH (if analytics_cog env
    then log_analytics {| event_type := "purchase"; event_item_id := x;
                          event_user_id := user |} w else w))
    as (-> & -> & -> & ->).
  by destruct (analytics_cog env).
Qed.

Lemma process_paid_order_frame ch cid c credit w :
  let w' := process_paid_order env ch cid c credit w in
  items w' = items w ∧ tickets w' = tickets w
  ∧ carts_auto_increment w' = carts_auto_increment w.
Proof.
  unfold process_paid_order.
  match goal with
  | |- context [log_purchases ?e ?u ?l ?w0] =>
      destruct (log_purchases_frame e u l w0) as (Hitems & _ & _ & Htickets & _);
      destruct (log_purchases_counters u l w0) as (_ & _ & Hcounter & _)
  end.
  repeat case_match; cbn [items tickets carts_auto_increment emit];
    by rewrite Hitems, Htickets, Hcounter.
Qed.

End Frames.

(** ** The cart buttons *)

Section CartButtons.
Variable env : environment.

(** The only row of [items] an accepted cart action touches is the row of
    the item under the button. *)
Lemma cart_action_items user message n add new_channel new_message w item_id i :
  shop_closed w = false →
  select_one (λ i, bool_decide (item_message_id i = message)) (items w)
    = Some (item_id, i) →
  (add = true → n ≤ item_quantity i) →
  items (ShopItemView.handle_cart_action env user message n add
           new_channel new_message w)
  = alter (add_quantity (if add then - n else n)) item_id (items w).
Proof.
  intros Hopen Hitem Hstock.
  unfold ShopItemView.handle_cart_action. rewrite Hopen, Hitem.
  destruct add.
  - rewrite (proj2 (Z.ltb_ge _ _) (Hstock eq_refl)).
    repeat case_match; simplify_eq; cbn [items set_items set_carts emit];
      try rewrite (proj1 (cancel_invoice_frame env _ _ _ _ _));
      cbn [items set_items set_carts emit];
      unfold update_id, insert_cart in *; simplify_eq; done.
  - repeat case_match; simplify_eq; cbn [items set_items set_carts emit];
      try rewrite (proj1 (cancel_invoice_frame env _ _ _ _ _));
      cbn [items set_items set_carts emit];
      unfold update_id, insert_cart in *; simplify_eq; try done.
    exfalso.
    match goal with
    | H : _ <$> _ !! _ = None |- _ =>
        cbn [carts set_carts emit] in H;
        rewrite lookup_alter_eq, lookup_insert_eq in H; discriminate H
    end.
Qed.

End CartButtons.

(** X1.  "Add to Cart" with the shop open, on an item that exists: the
    request is accepted exactly when the quantity does not exceed the
    stock.  Accepted, it takes the quantity from the stock of that item
    and of no other, and the stock stays at zero or above; refused, it
    answers that the stock is insufficient and leaves [items] as it
    was. *)
Theorem add_to_cart_respects_stock env user message n new_channel new_message
    w item_id i :
  shop_closed w = false →
  select_one (λ i, bool_decide (item_message_id i = message)) (items w)
    = Some (item_id, i) →
  let w' := ShopItemView.add_to_cart env user message n new_channel new_message w in
  (n ≤ item_quantity i →
     stock_of w' item_id = Some (item_quantity i - n)
     ∧ 0 ≤ item_quantity i - n
     ∧ ∀ j, j ≠ item_id → stock_of w' j = stock_of w j)
  ∧ (item_quantity i < n →
     items w' = items w ∧ head (trace w') = Some (Reply InsufficientStock)).
Proof.
  intros Hopen Hitem w'.
  pose proof (select_one_Some _ _ _ _ Hitem) as [Hi _].
  split.
  - intros Hle. unfold w', ShopItemView.add_to_cart, stock_of.
    rewrite (cart_action_items env user message n true new_channel new_message
               w item_id i Hopen Hitem (λ _, Hle)).
    split; [|split; [lia|]].
    + rewrite lookup_alter_eq, Hi. simpl. f_equal; lia.
    + intros j Hj. by rewrite lookup_alter_ne.
  - intros Hlt. unfold w', ShopItemView.add_to_cart, ShopItemView.handle_cart_action.
    rewrite Hopen, Hitem, (proj2 (Z.ltb_lt _ _) Hlt).
    repeat case_match; simplify_eq; unfold insert_cart in *; simplify_eq; done.
Qed.

Lemma add_to_cart_respects_stock_witness :
  (stock_of (ShopItemView.add_to_cart Scenario.env 7 100 5 200 300 Scenario.shop) 1
   = Some 0)
  ∧ (items (ShopItemView.add_to_cart Scenario.env 7 100 6 200 300 Scenario.shop)
     = items Scenario.shop).
Proof.
  destruct (add_to_cart_respects_stock Scenario.env 7 100 5 200 300 Scenario.shop 1
              {| item_name := "sword"; item_price := 1000; item_quantity := 5;
                 item_message_id := 100; item_channel_id := 1 |})
    as [Haccept _]; [vm_compute; reflexivity..|].
  destruct (add_to_cart_respects_stock Scenario.env 7 100 6 200 300 Scenario.shop 1
              {| item_name := "sword"; item_price := 1000; item_quantity := 5;
                 item_message_id := 100; item_channel_id := 1 |})
    as [_ Hrefuse]; [vm_compute; reflexivity..|].
  split.
  - destruct Haccept as [Hstock _]; [simpl; lia|]. exact Hstock.
  - destruct Hrefuse as [Hitems _]; [simpl; lia|]. exact Hitems.
Defined.

(** ** Cart totals *)

Section Totals.




Lemma total_price_empty : total_price ∅ = 0.
Proof. unfold total_price. by rewrite map_to_list_empty. Qed.

End Totals.





(** ** Credit *)

(** X4.  An accepted credit application (shop open, amount within the
    caller's balance, cart found in the channel) moves [min(amount, total)]
    from the caller's balance to the cart's [credit_applied] and leaves the
    cart's contents alone.  The cart becomes ['paid'] when the amount
    exceeds the total and keeps its status when the total exceeds the
    amount; where the two are the same figure the rounding of the float
    sum decides, and nothing is said.  In no case does the owner's
    lifetime spend change: an order paid by credit counts for nothing. *)
Theorem apply_credit_moves_credit env user channel amount w r cid c :
  shop_closed w = false →
  users w !! user = Some r →
  amount ≤ balance r →
  select_one (in_channel channel) (carts w) = Some (cid, c) →
  let total := total_price (cart_data c) in
  let credit := Z.min amount total in
  let w' := CartView.apply_credit env user channel amount w in
  balance_of w' user = balance r - credit
  ∧ lifetime_spent_of w' (user_id c) = lifetime_spent_of w (user_id c)
  ∧ ∃ c', carts w' !! cid = Some c'
          ∧ credit_applied c' = credit_applied c + credit
          ∧ cart_data c' = cart_data c
          ∧ (total < amount → status c' = paid)
          ∧ (amount < total → status c' = status c).
Proof.
  intros Hopen Hr Hle Hsel total credit w'.
  pose proof (select_one_Some _ _ _ _ Hsel) as [Hc _].
  unfold w', CartView.apply_credit.
  rewrite Hopen, Hr, Hsel.
  destruct (amount >? balance r) eqn:Hgt; [lia|].
  fold total. fold credit.
  destruct (decide (total ≤ amount)) as [Hcover|Hpart].
  - assert ((total - credit <=? 0) = true) as -> by (unfold credit; lia).
    split; [|split].
    + unfold balance_of. rewrite process_paid_order_users.
      cbn [users set_users set_carts emit]. unfold upsert_user, update_id.
      destruct (decide (user_id c = user)) as [->|Hne].
      * rewrite lookup_alter_eq, Hr. simpl. rewrite lookup_insert_eq. simpl. lia.
      * destruct (alter _ user (users w) !! user_id c);
          rewrite lookup_insert_ne by done;
          rewrite lookup_alter_eq, Hr; simpl; lia.
    + rewrite process_paid_order_lifetime. unfold lifetime_spent_of.
      cbn [users set_users set_carts emit]. unfold update_id.
      rewrite lookup_alter.
      assert (total_price (cart_data c) - credit = 0) as -> by (unfold credit, total; lia).
      case_decide; [subst; rewrite Hr; simpl; lia|].
      destruct (users w !! user_id c); lia.
    + rewrite process_paid_order_carts. cbn [carts set_users set_carts emit].
      unfold update_id. rewrite !lookup_alter_eq, Hc. simpl.
      eexists. split; [reflexivity|]. simpl.
      repeat split; try done. intros. lia.
  - assert ((total - credit <=? 0) = false) as -> by (unfold credit; lia).
    split; [|split].
    + unfold balance_of. cbn [users set_users set_carts emit]. unfold update_id.
      rewrite lookup_alter_eq, Hr. simpl. lia.
    + unfold lifetime_spent_of. cbn [users set_users set_carts emit].
      unfold update_id. rewrite lookup_alter.
      case_decide; [subst; by rewrite Hr|done].
    + cbn [carts set_users set_carts emit]. unfold update_id.
      rewrite lookup_alter_eq, Hc. simpl.
      eexists. split; [reflexivity|]. simpl.
      repeat split; try done. intros. lia.
Qed.

Lemma apply_credit_moves_credit_witness :
  let w' := CartView.apply_credit Scenario.env 7 200 2500 Scenario.credit_once in
  balance_of w' 7 = 500
  ∧ lifetime_spent_of w' 7 = 0
  ∧ status <$> carts w' !! 1 = Some paid.
Proof.
  destruct (apply_credit_moves_credit Scenario.env 7 200 2500 Scenario.credit_once
              {| balance := 2500; lifetime_spent := 0; delivery_value_handled := 0 |}
              1
              {| user_id := 7; channel_id := Some 200; cart_data := Scenario.two_swords;
                 message_id := Some 300; invoice_message_id := None;
                 payment_id := None; credit_applied := 1500; last_activity := 0;
                 status := active; cart_payment_method := None |})
    as (Hbalance & Hlifetime & c' & Hrow & _ & _ & Hpaid & _).
  - reflexivity.
  - vm_compute. reflexivity.
  - simpl. lia.
  - vm_compute. reflexivity.
  - cbv zeta. split; [|split].
    + rewrite Hbalance. vm_compute. reflexivity.
    + transitivity (lifetime_spent_of Scenario.credit_once 7);
        [exact Hlifetime|vm_compute; reflexivity].
    + rewrite Hrow. simpl. rewrite Hpaid; [reflexivity|]. vm_compute. reflexivity.
Defined.

(** ** Order completion *)

(** X5.  What [process_paid_order] never does: it leaves the stock and the
    tickets alone, changes no balance, changes the lifetime spend of no
    user but the cart's owner, and in [carts] it rewrites one column of one
    row: the status of its cart, contents and credit untouched. *)
Theorem order_completion_touches_only_the_ledger env ch cid c credit w :
  let w' := process_paid_order env ch cid c credit w in
  items w' = items w
  ∧ tickets w' = tickets w
  ∧ (∀ u, balance_of w' u = balance_of w u)
  ∧ (∀ u, u ≠ user_id c → lifetime_spent_of w' u = lifetime_spent_of w u)
  ∧ (∀ k, k ≠ cid → carts w' !! k = carts w !! k)
  ∧ (∀ r, carts w !! cid = Some r →
       ∃ r', carts w' !! cid = Some r' ∧ status r' = paid
             ∧ cart_data r' = cart_data r
             ∧ credit_applied r' = credit_applied r
             ∧ invoice_message_id r' = invoice_message_id r).
Proof.
  intros w'. unfold w'.
  destruct (process_paid_order_frame env ch cid c credit w) as (Hitems & Htickets & _).
  split; [done|split; [done|]].
  split; [|split; [|split]].
  - intros u. unfold balance_of. rewrite process_paid_order_users.
    unfold upsert_user. destruct (users w !! user_id c) as [r|] eqn:Hr;
      rewrite lookup_insert; case_decide; subst; rewrite ?Hr; done.
  - intros u Hu. unfold lifetime_spent_of. rewrite process_paid_order_users.
    unfold upsert_user. destruct (users w !! user_id c);
      by rewrite lookup_insert_ne.
  - intros k Hk. by rewrite process_paid_order_carts, lookup_alter_ne.
  - intros r Hr. rewrite process_paid_order_carts, lookup_alter_eq, Hr.
    simpl. eauto 6.
Qed.

Lemma order_completion_touches_only_the_ledger_witness :
  let w' := process_paid_order Scenario.env 200 1 Scenario.invoiced_cart 0
              Scenario.invoiced in
  lifetime_spent_of w' 8 = lifetime_spent_of Scenario.invoiced 8
  ∧ ∃ r', carts w' !! 1 = Some r' ∧ status r' = paid
          ∧ cart_data r' = Scenario.two_swords.
Proof.
  destruct (order_completion_touches_only_the_ledger Scenario.env 200 1
              Scenario.invoiced_cart 0 Scenario.invoiced)
    as (_ & _ & _ & Hlife & _ & Hrow).
  split.
  - apply Hlife. discriminate.
  - destruct (Hrow Scenario.invoiced_cart) as (r' & Hr' & Hs & Hd & _).
    + vm_compute. reflexivity.
    + exists r'. auto.
Defined.

Section PurchaseEvents.

Lemma log_purchases_analytics env user l w :
  analytics (log_purchases env user l w)
  = analytics w ++ (if analytics_cog env
                    then (λ k, {| event_type := "purchase"; event_item_id := k;
                                  event_user_id := user |}) <$> l
                    else []).
Proof.
  unfold log_purchases. revert w. induction l as [|x l IH]; intros w; simpl.
  - destruct (analytics_cog env); simpl; by rewrite app_nil_r.
  - rewrite IH. destruct (analytics_cog env); simpl; [|done].
    by rewrite <- app_assoc.
Qed.

Lemma count_purchase_rows user (l : list Z) i :
  NoDup l →
  length (filter (λ r, event_type r = "purchase"%string ∧ event_item_id r = i)
            ((λ k, {| event_type := "purchase"; event_item_id := k;
                      event_user_id := user |}) <$> l))
  = if bool_decide (i ∈ l) then 1%nat else 0%nat.
Proof.
  induction l as [|k l IH]; intros Hnd; [done|].
  apply NoDup_cons in Hnd as [Hk Hnd].
  rewrite fmap_cons, filter_cons. cbn [event_type event_item_id].
  destruct (decide (k = i)) as [->|Hne].
  - rewrite decide_True by done. cbn [length]. rewrite IH by done.
    rewrite (bool_decide_eq_false_2 _ Hk).
    rewrite bool_decide_eq_true_2; [done|left].
  - rewrite decide_False by (intros [_ Heq]; exact (Hne Heq)). rewrite IH by done.
    apply (f_equal (λ b : bool, if b then 1%nat else 0%nat)).
    apply bool_decide_ext. rewrite elem_of_cons. naive_solver.
Qed.

(** X6.  Order completion logs one ['purchase'] event for each line of the
    cart, whatever the quantity of the line, and none when the analytics
    cog is not loaded: the purchase count [item_analytics] shows for an
    item grows by one when the cart has a line of it, by nothing
    otherwise. *)
Theorem purchase_events_count_lines env ch cid c credit w i :
  purchase_count (process_paid_order env ch cid c credit w) i
  = (purchase_count w i
     + if analytics_cog env && bool_decide (i ∈ dom (cart_data c))
       then 1 else 0)%nat.
Proof.
  unfold purchase_count.
  assert (analytics (process_paid_order env ch cid c credit w)
          = analytics (log_purchases env (user_id c)
                         (map_to_list (cart_data c)).*1 w)) as ->.
  { unfold process_paid_order.
    repeat case_match; cbn [analytics emit]; by rewrite !log_purchases_analytics. }
  rewrite log_purchases_analytics.
  rewrite filter_app, length_app. f_equal.
  destruct (analytics_cog env); simpl; [|done].
  rewrite (count_purchase_rows (user_id c) _ i (NoDup_fst_map_to_list _)).
  apply (f_equal (λ b : bool, if b then 1%nat else 0%nat)).
  apply bool_decide_ext. rewrite elem_of_dom.
  split.
  - intros Hin. apply list_elem_of_fmap in Hin as [[k x] [-> Hin]].
    apply elem_of_map_to_list in Hin. eauto.
  - intros [x Hx]. apply list_elem_of_fmap. exists (i, x).
    split; [done|]. by apply elem_of_map_to_list.
Qed.

End PurchaseEvents.

(** ** Sweeps *)

Section Sweeps.
Variable env : environment.

Lemma delete_channels_frame {B} (ch : B → option Z) l w :
  let w' := foldl (λ w x, delete_channel env (ch x) w) w l in
  items w' = items w ∧ carts w' = carts w ∧ users w' = users w
  ∧ tickets w' = tickets w.
Proof.
  revert w. induction l as [|x l IH]; simpl; [done|].
  intros w. destruct (IH (delete_channel env (ch x) w)) as (-> & -> & -> & ->).
  unfold delete_channel. by repeat case_match.
Qed.

Lemma wipe_frame l w :
  let w' := foldl (λ w kc, set_carts (delete kc.1)
                             (delete_channel env (channel_id kc.2) w)) w l in
  items w' = items w ∧ users w' = users w ∧ tickets w' = tickets w
  ∧ ∀ k, carts w' !! k = if bool_decide (k ∈ l.*1) then None else carts w !! k.
Proof.
  revert w. induction l as [|[k0 c0] l IH]; intros w; cbn [foldl].
  - by repeat split.
  - cbn [fst snd].
    destruct (IH (set_carts (delete k0) (delete_channel env (channel_id c0) w)))
      as (-> & -> & -> & Hcarts).
    assert (carts (delete_channel env (channel_id c0) w) = carts w
            ∧ items (delete_channel env (channel_id c0) w) = items w
            ∧ users (delete_channel env (channel_id c0) w) = users w
            ∧ tickets (delete_channel env (channel_id c0) w) = tickets w)
      as (Hc & Hi & Hu & Ht)
      by (unfold delete_channel; by repeat case_match).
    split; [done|]. split; [done|]. split; [done|].
    intros k. rewrite Hcarts. cbn [carts set_carts]. rewrite Hc, fmap_cons.
    cbn [fst]. destruct (decide (k = k0)) as [->|Hne].
    + rewrite (bool_decide_eq_true_2 (k0 ∈ k0 :: l.*1)) by left.
      case_bool_decide; [done|]. by rewrite lookup_delete_eq.
    + rewrite lookup_delete_ne by done.
      apply (f_equal (λ b : bool, if b then None else carts w !! k)).
      apply bool_decide_ext. set_solver.
Qed.

End Sweeps.

(** X7.  The weekly purge deletes exactly the carts whose status is
    ['closed'] or ['completed']: every other cart survives with its row
    unchanged, and the purge touches neither the stock nor the users. *)
Theorem purge_removes_exactly_archived_carts env w :
  let w' := ShopCog.purge_closed_carts env w in
  (∀ k c, carts w' !! k = Some c
          ↔ carts w !! k = Some c ∧ status c ≠ closed ∧ status c ≠ completed)
  ∧ items w' = items w ∧ users w' = users w.
Proof.
  intros w'. unfold w', ShopCog.purge_closed_carts.
  set (l := select_all _ (carts w)).
  destruct (delete_channels_frame env (λ kc : Z * cart_row, channel_id kc.2) l w)
    as (Hitems & Hcarts & Husers & _).
  cbn [carts items users set_carts]. rewrite Hitems, Hcarts, Husers.
  split; [|done].
  intros k c. unfold delete_where. rewrite map_lookup_filter_Some. simpl.
  split.
  - intros [Hk Hp]. split; [done|].
    apply orb_false_iff in Hp as [H1 H2].
    apply bool_decide_eq_false in H1, H2. done.
  - intros (Hk & H1 & H2). split; [done|].
    by rewrite !bool_decide_eq_false_2.
Qed.

(** X8.  [wipe_all_carts], once confirmed, leaves no cart row at all, and
    does nothing else to the store: the stock the carts had reserved and
    the credit applied to them are not given back. *)
Theorem wipe_all_carts_empties_carts env w :
  let w' := ShopCog.wipe_all_carts env w in
  carts w' = ∅ ∧ items w' = items w ∧ users w' = users w.
Proof.
  intros w'. unfold w', ShopCog.wipe_all_carts.
  destruct (wipe_frame env (select_all (λ _, true) (carts w)) w)
    as (-> & -> & _ & Hcarts).
  split; [|done].
  apply map_eq. intros k. rewrite Hcarts, lookup_empty.
  case_bool_decide as Hin; [done|].
  destruct (carts w !! k) as [c|] eqn:Hk; [|done].
  exfalso. apply Hin. apply list_elem_of_fmap. exists (k, c).
  split; [done|]. by apply elem_of_select_all.
Qed.

(** X9.  A reconciliation tick changes a cart row only if the cart is in
    the result set of its query (awaiting a hosted-link payment with a
    payment reference), its channel is found and the gateway reports the
    order ['APPROVED'].  Every other cart - active, paid, awaiting a crypto
    payment, or with a gateway request that failed or is not yet
    approved - keeps its row, to be looked at again on the next tick. *)
Theorem tick_changes_only_approved_carts env w cid c :
  carts w !! cid = Some c →
  ¬ (ShopCog.awaiting_paypal c = true
     ∧ channel_found env (channel_id c) = true
     ∧ ∃ p, payment_id c = Some p
            ∧ get_payment_details env p = Some "APPROVED"%string) →
  carts (ShopCog.check_pending_payments env w) !! cid = Some c.
Proof.
  intros Hc Hnot. unfold ShopCog.check_pending_payments.
  destruct (ShopCog.awaiting_paypal c) eqn:Hsel.
  - apply (tick_row env id); [|apply NoDup_select_all|by apply elem_of_select_all|done].
    intros w0 Hc0. unfold ShopCog.check_pending_payment.
    destruct (channel_id c) as [ch|] eqn:Hch; [|done].
    destruct (payment_id c) as [p|] eqn:Hp; [|done].
    simpl in Hnot.
    destruct (get_channel env ch) eqn:Hget; [|done].
    destruct (get_payment_details env p) as [st|] eqn:Hst; [|done].
    case_bool_decide as Happ; [|done].
    exfalso. apply Hnot. subst. eauto.
  - rewrite tick_others; [done|].
    intros Hin. apply list_elem_of_fmap in Hin as [[k c'] [-> Hin]].
    apply elem_of_select_all in Hin as [Hk Hc']. simpl in *. congruence.
Qed.

Lemma tick_changes_only_approved_carts_witness :
  carts (ShopCog.check_pending_payments Scenario.env Scenario.cart_of_two) !! 1
  = Some Scenario.active_cart.
Proof.
  apply tick_changes_only_approved_carts.
  - vm_compute. reflexivity.
  - intros [Hsel _]. vm_compute in Hsel. discriminate Hsel.
Defined.

(** ** From checkout to payment *)

(** The row [handle_checkout] leaves when the gateway issues a link for a
    cart without a stale invoice. *)
Lemma handle_checkout_row env channel method m w cid c url pay :
  select_one (in_channel channel) (carts w) = Some (cid, c) →
  already_processed (status c) = false →
  status c ≠ pending_payment →
  shop_closed w && negb (truthy_str (payment_id c)) = false →
  purchase_minimum env ≤ total_price (cart_data c) →
  invoice_message_id c = None →
  create_payment env (total_price (cart_data c)) cid = Some (url, pay) →
  url ≠ ""%string → pay ≠ ""%string →
  let w' := PaymentMethodView.handle_checkout env channel method m w in
  carts w' !! cid
  = Some (set_invoice_message_id m (set_payment pay method (utcnow env) c))
  ∧ users w' = users w ∧ items w' = items w.
Proof.
  intros Hsel Hnew Hpend Hshop Hmin Hinv Hpay Hurl Hp w'.
  pose proof (select_one_Some _ _ _ _ Hsel) as [Hc _].
  unfold w', PaymentMethodView.handle_checkout.
  rewrite Hsel, Hnew, (bool_decide_eq_false_2 _ Hpend), Hshop,
    (proj2 (Z.ltb_ge _ _) Hmin), Hinv.
  cbn [truthy_id andb]. rewrite Hpay.
  rewrite !(bool_decide_eq_false_2 _) by done.
  cbn [negb andb carts users items set_carts emit]. unfold update_id.
  by rewrite !lookup_alter_eq, Hc.
Qed.

(** X10.  Checkout and reconciliation compose.  A cart that passes the
    gates of [handle_checkout] with a total above the minimum (at the
    minimum itself the rounding of the float sum decides), and for which
    the gateway issues a payment link, is afterwards awaiting
    payment with the gateway's reference and the posted invoice; when the
    next tick finds its channel, the order approved and the capture
    completed, the cart is paid, keeping its contents. *)
Theorem checkout_then_tick_pays env channel m w cid c url pay :
  select_one (in_channel channel) (carts w) = Some (cid, c) →
  already_processed (status c) = false →
  status c ≠ pending_payment →
  shop_closed w && negb (truthy_str (payment_id c)) = false →
  purchase_minimum env < total_price (cart_data c) →
  invoice_message_id c = None →
  create_payment env (total_price (cart_data c)) cid = Some (url, pay) →
  url ≠ ""%string → pay ≠ ""%string →
  get_channel env channel = true →
  get_payment_details env pay = Some "APPROVED"%string →
  capture_payment env pay = Some "COMPLETED"%string →
  let w1 := PaymentMethodView.handle_checkout env channel paypal m w in
  let w2 := ShopCog.check_pending_payments env w1 in
  (∃ c1, carts w1 !! cid = Some c1 ∧ status c1 = pending_payment
         ∧ payment_id c1 = Some pay ∧ invoice_message_id c1 = Some m
         ∧ cart_payment_method c1 = Some paypal)
  ∧ (∃ c2, carts w2 !! cid = Some c2 ∧ status c2 = paid
           ∧ cart_data c2 = cart_data c).
Proof.
  intros Hsel Hnew Hpend Hshop Hmin Hinv Hpay Hurl Hp Hget Happ Hcap w1 w2.
  pose proof (select_one_Some _ _ _ _ Hsel) as [Hc Hin].
  destruct (handle_checkout_row env channel paypal m w cid c url pay)
    as (Hrow & _); try done; try lia.
  fold w1 in Hrow. split; [eauto 10|].
  set (c1 := set_invoice_message_id m (set_payment pay paypal (utcnow env) c)) in *.
  exists (with_status paid c1). split; [|done].
  unfold w2, ShopCog.check_pending_payments.
  apply (tick_row env (with_status paid));
    [|apply NoDup_select_all|by apply elem_of_select_all|done].
  intros w0 Hc0. unfold ShopCog.check_pending_payment.
  unfold in_channel in Hin. apply bool_decide_eq_true in Hin.
  cbn [channel_id payment_id c1 set_invoice_message_id set_payment].
  rewrite Hin, Hget, Happ, Hcap.
  rewrite !bool_decide_eq_true_2 by done.
  rewrite process_paid_order_carts, lookup_alter_eq. cbn [carts emit].
  by rewrite Hc0.
Qed.

Lemma checkout_then_tick_pays_witness :
  ∃ c2, carts (ShopCog.check_pending_payments Scenario.env
                 (PaymentMethodView.handle_checkout Scenario.env 200 paypal 400
                    Scenario.cart_of_two)) !! 1 = Some c2
        ∧ status c2 = paid ∧ cart_data c2 = Scenario.two_swords.
Proof.
  destruct (checkout_then_tick_pays Scenario.env 200 400 Scenario.cart_of_two 1
              Scenario.active_cart "https://pay.example/1"%string "PAY-1"%string)
    as [_ Hpaid].
  - vm_compute. reflexivity.
  - reflexivity.
  - discriminate.
  - reflexivity.
  - vm_compute. reflexivity.
  - reflexivity.
  - reflexivity.
  - discriminate.
  - discriminate.
  - reflexivity.
  - reflexivity.
  - reflexivity.
  - exact Hpaid.
Defined.

(** X11.  The crypto path, start to end.  After [coin_select] (price and
    wallet available, channel found) the cart awaits payment under the
    method [crypto_<COIN>], which the reconciliation query never selects;
    "I Have Paid" moves it to manual verification; the admin's
    [complete_crypto_order] then marks it paid and adds the full cart
    total to the owner's lifetime spend. *)
Theorem crypto_flow_pays env w cid c ch total coin m :
  carts w !! cid = Some c →
  channel_id c = Some ch → get_channel env ch = true →
  get_coin_price env coin = true → wallet_address env coin = true →
  let w1 := CryptoCoinSelectionView.coin_select env cid c total coin m w in
  let w2 := CryptoConfirmationView.confirm_payment cid ch w1 in
  let w3 := ShopCog.complete_crypto_order env cid w2 in
  (∃ c1, carts w1 !! cid = Some c1 ∧ status c1 = pending_payment
         ∧ cart_payment_method c1 = Some (crypto coin)
         ∧ invoice_message_id c1 = Some m
         ∧ ShopCog.awaiting_paypal c1 = false)
  ∧ status <$> carts w2 !! cid = Some pending_manual_verification
  ∧ status <$> carts w3 !! cid = Some paid
  ∧ lifetime_spent_of w3 (user_id c)
    = lifetime_spent_of w (user_id c) + total_price (cart_data c).
Proof.
  intros Hc Hch Hget Hprice Hwallet w1 w2 w3.
  assert (carts w1 !! cid
          = Some (set_invoice_message_id m (set_method (crypto coin) (utcnow env) c)))
    as Hw1.
  { unfold w1, CryptoCoinSelectionView.coin_select.
    rewrite Hprice, Hwallet, Hch, Hget.
    cbn [negb carts set_carts emit]. unfold update_id.
    by rewrite !lookup_alter_eq, Hc. }
  assert (users w1 = users w) as Hu1.
  { unfold w1, CryptoCoinSelectionView.coin_select.
    by rewrite Hprice, Hwallet, Hch, Hget. }
  set (c1 := set_invoice_message_id m (set_method (crypto coin) (utcnow env) c)) in *.
  assert (carts w2 !! cid = Some (with_status pending_manual_verification c1)) as Hw2.
  { unfold w2, CryptoConfirmationView.confirm_payment.
    cbn [carts set_carts emit]. unfold update_id.
    by rewrite lookup_alter_eq, Hw1. }
  set (w3' := process_paid_order env ch cid
                (with_status pending_manual_verification c1) 0 w2).
  assert (carts w3 = carts w3' ∧ users w3 = users w3') as [Hc3 Hu3].
  { unfold w3, ShopCog.complete_crypto_order. rewrite Hw2.
    cbn [status with_status]. rewrite bool_decide_eq_true_2 by done.
    cbn [channel_id user_id with_status c1 set_invoice_message_id set_method].
    rewrite Hch, Hget. fold w3'.
    by destruct (order_announced env (user_id c)). }
  split; [|split; [|split]].
  - exists c1. repeat split; try done.
  - by rewrite Hw2.
  - rewrite Hc3. unfold w3'.
    by rewrite process_paid_order_carts, lookup_alter_eq, Hw2.
  - transitivity (lifetime_spent_of w3' (user_id c)).
    { unfold lifetime_spent_of. by rewrite Hu3. }
    unfold w3'.
    change (user_id c) with (user_id (with_status pending_manual_verification c1)).
    rewrite process_paid_order_lifetime.
    unfold lifetime_spent_of, w2, CryptoConfirmationView.confirm_payment.
    cbn [users set_carts emit]. rewrite Hu1. simpl. lia.
Qed.

Lemma crypto_flow_pays_witness :
  let w3 := ShopCog.complete_crypto_order Scenario.env 1
              (CryptoConfirmationView.confirm_payment 1 200
                 (CryptoCoinSelectionView.coin_select Scenario.env 1
                    Scenario.active_cart 2000 "BTC" 400 Scenario.cart_of_two)) in
  status <$> carts w3 !! 1 = Some paid ∧ lifetime_spent_of w3 7 = 2000.
Proof.
  destruct (crypto_flow_pays Scenario.env Scenario.cart_of_two 1 Scenario.active_cart
              200 2000 "BTC"%string 400) as (_ & _ & Hpaid & Hlife).
  - vm_compute. reflexivity.
  - reflexivity.
  - reflexivity.
  - reflexivity.
  - reflexivity.
  - cbv zeta. split; [exact Hpaid|].
    etrans; [exact Hlife|]. vm_compute. reflexivity.
Defined.

Lemma purge_removes_exactly_archived_carts_witness :
  carts (ShopCog.purge_closed_carts Scenario.env
           (CartView.close_cart 200 Scenario.cart_of_two)) !! 1 = None
  ∧ carts (ShopCog.purge_closed_carts Scenario.env Scenario.cart_of_two) !! 1
    = Some Scenario.active_cart.
Proof.
  split.
  - destruct (carts (ShopCog.purge_closed_carts Scenario.env
                       (CartView.close_cart 200 Scenario.cart_of_two)) !! 1)
      as [c|] eqn:Hc; [|reflexivity].
    apply (proj1 (purge_removes_exactly_archived_carts Scenario.env
                    (CartView.close_cart 200 Scenario.cart_of_two))) in Hc
      as (Hrow & Hclosed & _).
    vm_compute in Hrow. injection Hrow as <-. exfalso. apply Hclosed. reflexivity.
  - apply (proj1 (purge_removes_exactly_archived_carts Scenario.env
                    Scenario.cart_of_two)).
    split; [vm_compute; reflexivity|]. split; discriminate.
Defined.

(** ** Cancelling an invoice *)

(** X12.  "Cancel Transaction" on a cart with an invoice message (channel
    found) reopens exactly that cart: its status is ['active'] again, its
    invoice, payment reference and payment method are cleared, and its
    contents and applied credit stay; no other cart, no stock and no user
    row changes.  Pressed again, the button changes nothing in the
    store. *)
Theorem cancel_transaction_reopens_cart env w cid c ch :
  carts w !! cid = Some c →
  channel_id c = Some ch → get_channel env ch = true →
  truthy_id (invoice_message_id c) = true →
  let w1 := CancelInvoiceView.cancel_transaction env cid w in
  let w2 := CancelInvoiceView.cancel_transaction env cid w1 in
  (∃ c1, carts w1 !! cid = Some c1
         ∧ status c1 = active ∧ invoice_message_id c1 = None
         ∧ payment_id c1 = None ∧ cart_payment_method c1 = None
         ∧ cart_data c1 = cart_data c ∧ credit_applied c1 = credit_applied c)
  ∧ (∀ k, k ≠ cid → carts w1 !! k = carts w !! k)
  ∧ items w1 = items w ∧ users w1 = users w
  ∧ carts w2 = carts w1 ∧ items w2 = items w1 ∧ users w2 = users w1.
Proof.
  intros Hc Hch Hget Hinv w1 w2.
  destruct (invoice_message_id c) as [m|] eqn:Hm; [|done].
  simpl in Hinv. apply negb_true_iff in Hinv.
  assert (carts w1 = alter clear_invoice cid (carts w)
          ∧ items w1 = items w ∧ users w1 = users w) as (Hcarts & Hitems & Husers).
  { unfold w1, CancelInvoiceView.cancel_transaction, cancel_invoice.
    rewrite Hc, Hch, Hget, Hm, Hinv. by destruct (fetch_message env m). }
  assert (carts w1 !! cid = Some (clear_invoice c)) as Hrow
    by by rewrite Hcarts, lookup_alter_eq, Hc.
  split; [exists (clear_invoice c); by repeat split|].
  split; [intros k Hk; by rewrite Hcarts, lookup_alter_ne|].
  split; [done|split; [done|]].
  unfold w2, CancelInvoiceView.cancel_transaction, cancel_invoice.
  rewrite Hrow. cbn [channel_id clear_invoice invoice_message_id].
  by rewrite Hch, Hget.
Qed.

Lemma cancel_transaction_reopens_cart_witness :
  ∃ c1, carts (CancelInvoiceView.cancel_transaction Scenario.env 1 Scenario.invoiced)
          !! 1 = Some c1
        ∧ status c1 = active ∧ invoice_message_id c1 = None.
Proof.
  destruct (cancel_transaction_reopens_cart Scenario.env Scenario.invoiced 1
              Scenario.invoiced_cart 200) as ((c1 & Hrow & Hs & Hi & _) & _).
  - vm_compute. reflexivity.
  - reflexivity.
  - reflexivity.
  - reflexivity.
  - exists c1. auto.
Defined.

(** ** Tickets *)



(** X14.  The weekly ticket purge deletes exactly the tickets whose status
    is ['closed']; an open ticket is never purged. *)
Theorem purge_removes_exactly_closed_tickets env w k t :
  tickets (TicketCog.purge_closed_tickets env w) !! k = Some t
  ↔ tickets w !! k = Some t ∧ ticket_state t = ticket_open.
Proof.
  unfold TicketCog.purge_closed_tickets.
  set (l := select_all _ (tickets w)).
  destruct (delete_channels_frame env
              (λ kt : Z * ticket_row, Some (ticket_channel_id kt.2)) l w)
    as (_ & _ & _ & Htickets).
  cbn [tickets set_tickets]. rewrite Htickets.
  unfold delete_where. rewrite map_lookup_filter_Some. simpl.
  split.
  - intros [Hk Hp]. split; [done|].
    apply bool_decide_eq_false in Hp. by destruct (ticket_state t).
  - intros [Hk Ho]. split; [done|]. rewrite Ho. done.
Qed.

Lemma purge_removes_exactly_closed_tickets_witness :
  tickets (TicketCog.purge_closed_tickets Scenario.env Scenario.ticket_opened) !! 1
  = Some {| ticket_user_id := 7; ticket_channel_id := 500;
            ticket_state := ticket_open |}.
Proof.
  apply purge_removes_exactly_closed_tickets.
  split; [vm_compute; reflexivity|reflexivity].
Defined.

(** ** Balance commands *)

(** X15.  [/balance admin add].  Run by a caller with the administrator
    permission, with a positive amount, it adds exactly that amount to
    the user's balance, creating the row when needed, and touches no
    lifetime spend and no other user; an amount of zero or less is
    refused.  Run by a caller without the permission it is refused
    whatever the amount.  A refusal only answers; the store stays as it
    was. *)
Theorem balance_add_adds_exactly administrator user amount w :
  let w' := CreditCog.balance_add administrator user amount w in
  (administrator = true → 0 < amount →
     balance_of w' user = balance_of w user + amount
     ∧ (∀ u, lifetime_spent_of w' u = lifetime_spent_of w u)
     ∧ (∀ u, u ≠ user → users w' !! u = users w !! u))
  ∧ (administrator = true → amount ≤ 0 →
     w' = emit (Reply AmountMustBePositive) w)
  ∧ (administrator = false → w' = emit (Reply NoPermission) w).
Proof.
  intros w'. unfold w', CreditCog.balance_add. split; [|split].
  - intros -> Hpos. cbn [negb]. rewrite (proj2 (Z.leb_gt _ _) Hpos).
    unfold balance_of, lifetime_spent_of. cbn [users set_users emit].
    unfold upsert_user. split; [|split].
    + destruct (users w !! user) as [r|]; rewrite lookup_insert_eq; simpl; lia.
    + intros u. destruct (users w !! user) as [r|] eqn:Hr;
        rewrite lookup_insert; case_decide; subst; rewrite ?Hr; done.
    + intros u Hu. destruct (users w !! user); by rewrite lookup_insert_ne.
  - intros -> Hle. cbn [negb]. by rewrite (proj2 (Z.leb_le _ _) Hle).
  - by intros ->.
Qed.

Lemma balance_add_adds_exactly_witness :
  balance_of (CreditCog.balance_add true 7 4000 Scenario.shop) 7 = 4000
  ∧ CreditCog.balance_add true 7 (-1) Scenario.shop
    = emit (Reply AmountMustBePositive) Scenario.shop
  ∧ CreditCog.balance_add false 7 4000 Scenario.shop
    = emit (Reply NoPermission) Scenario.shop.
Proof.
  destruct (balance_add_adds_exactly true 7 4000 Scenario.shop) as (Hadd & _ & _).
  destruct (balance_add_adds_exactly true 7 (-1) Scenario.shop) as (_ & Hrefuse & _).
  destruct (balance_add_adds_exactly false 7 4000 Scenario.shop) as (_ & _ & Hdenied).
  split; [|split].
  - destruct Hadd as [Hb _]; [reflexivity|lia|]. rewrite Hb. vm_compute. reflexivity.
  - apply Hrefuse; [reflexivity|lia].
  - apply Hdenied. reflexivity.
Defined.

(** X16.  [/shop completeorder] credits the delivery ledger of the admin
    who runs it with the cart total, only in the channel of a ['paid']
    cart, and changes no cart row: the cart stays ['paid'].  In any other
    channel the command is refused and the store stays as it was. *)
Theorem complete_order_credits_delivery admin channel w :
  let w' := ShopCog.complete_order admin channel w in
  carts w' = carts w ∧ items w' = items w
  ∧ (∀ cid c, select_one (in_channel channel) (carts w) = Some (cid, c) →
       status c = paid →
       delivery_value_of w' admin
       = delivery_value_of w admin + total_price (cart_data c)
       ∧ balance_of w' admin = balance_of w admin
       ∧ lifetime_spent_of w' admin = lifetime_spent_of w admin)
  ∧ ((∀ cid c, select_one (in_channel channel) (carts w) = Some (cid, c) →
        status c ≠ paid) →
     w' = emit (Reply NotPaidCart) w).
Proof.
  intros w'. unfold w', ShopCog.complete_order.
  split; [by repeat case_match|]. split; [by repeat case_match|]. split.
  - intros cid c Hsel Hpaid. rewrite Hsel, bool_decide_eq_true_2 by done.
    unfold delivery_value_of, balance_of, lifetime_spent_of.
    cbn [users set_users emit]. unfold upsert_user.
    destruct (users w !! admin) as [r|]; rewrite lookup_insert_eq; simpl; lia.
  - intros Hnot. destruct (select_one _ (carts w)) as [[cid c]|] eqn:Hsel; [|done].
    by rewrite (bool_decide_eq_false_2 _ (Hnot cid c eq_refl)).
Qed.

Lemma complete_order_credits_delivery_witness :
  delivery_value_of (ShopCog.complete_order 99 200 Walkthrough.settled) 99 = 2000
  ∧ ShopCog.complete_order 99 200 Scenario.cart_of_two
    = emit (Reply NotPaidCart) Scenario.cart_of_two.
Proof.
  split.
  - destruct (complete_order_credits_delivery 99 200 Walkthrough.settled)
      as (_ & _ & Hpaid & _).
    destruct (Hpaid 1 Walkthrough.paid_cart) as (Hd & _).
    + vm_compute. reflexivity.
    + reflexivity.
    + rewrite Hd. vm_compute. reflexivity.
  - destruct (complete_order_credits_delivery 99 200 Scenario.cart_of_two)
      as (_ & _ & _ & Hrefuse).
    apply Hrefuse. intros cid c Hsel.
    vm_compute in Hsel. injection Hsel as <- <-. discriminate.
Defined.

(** ** The notification endpoint *)

(** X17.  [process_webhook_payment] on a cart that is not yet processed
    and whose channel is found: a failing status (failed, refunded,
    expired, partially_paid) cancels the invoice, so a cart with an
    invoice message is active again with its payment fields cleared; a
    status that is neither confirming nor failing changes nothing.  A
    notification for an unknown cart changes nothing either. *)
Theorem webhook_outcomes env w cid s :
  let w' := WebhookServer.process_webhook_payment env cid s w in
  (carts w !! cid = None → w' = w)
  ∧ (∀ c ch, carts w !! cid = Some c → already_processed (status c) = false →
       channel_id c = Some ch → get_channel env ch = true →
       (WebhookServer.failing s = true → truthy_id (invoice_message_id c) = true →
          carts w' !! cid = Some (clear_invoice c)
          ∧ users w' = users w ∧ items w' = items w)
       ∧ (WebhookServer.confirming s = false → WebhookServer.failing s = false →
          w' = w)).
Proof.
  intros w'. unfold w', WebhookServer.process_webhook_payment. split.
  - by intros ->.
  - intros c ch Hc Hnew Hch Hget. rewrite Hc, Hnew, Hch, Hget. split.
    + intros Hfail Hinv.
      assert (WebhookServer.confirming s = false) as ->.
      { unfold WebhookServer.confirming, WebhookServer.failing in *.
        apply bool_decide_eq_true in Hfail. apply bool_decide_eq_false.
        intros Hconf.
        repeat (apply elem_of_cons in Hfail as [->|Hfail];
                [repeat (apply elem_of_cons in Hconf as [Hconf|Hconf];
                         [discriminate Hconf|]); by apply elem_of_nil in Hconf|]).
        by apply elem_of_nil in Hfail. }
      rewrite Hfail. unfold cancel_invoice.
      destruct (invoice_message_id c) as [m|]; [|done].
      simpl in Hinv. apply negb_true_iff in Hinv. rewrite Hinv.
      destruct (fetch_message env m); cbn [carts users items set_carts emit];
        unfold update_id; by rewrite lookup_alter_eq, Hc.
    + by intros -> ->.
Qed.

Lemma webhook_outcomes_witness :
  carts (WebhookServer.process_webhook_payment Scenario.env 1 "expired"
           Scenario.invoiced) !! 1 = Some (clear_invoice Scenario.invoiced_cart)
  ∧ WebhookServer.process_webhook_payment Scenario.env 1 "waiting" Scenario.invoiced
    = Scenario.invoiced
  ∧ WebhookServer.process_webhook_payment Scenario.env 5 "approved" Scenario.invoiced
    = Scenario.invoiced.
Proof.
  split; [|split].
  - destruct (proj2 (webhook_outcomes Scenario.env Scenario.invoiced 1 "expired")
                Scenario.invoiced_cart 200) as [Hfail _];
      [vm_compute; reflexivity|reflexivity..|].
    destruct Hfail as [Hrow _]; [vm_compute; reflexivity|reflexivity|].
    exact Hrow.
  - destruct (proj2 (webhook_outcomes Scenario.env Scenario.invoiced 1 "waiting")
                Scenario.invoiced_cart 200) as [_ Hother];
      [vm_compute; reflexivity|reflexivity..|].
    apply Hother; vm_compute; reflexivity.
  - apply (proj1 (webhook_outcomes Scenario.env Scenario.invoiced 5 "approved")).
    vm_compute. reflexivity.
Defined.

(** ** Closing the shop *)

(** X18.  Once [/shop set_status closed] has run, the buyer buttons that
    change the store are frozen: "Add to Cart", "Remove from Cart" and
    "Apply Credit" only answer that the shop is closed, and a checkout of
    a cart without a payment reference is refused, by hosted link and by
    crypto alike.  [/shop set_status open] lifts the freeze, and a status
    other than the two words is ignored. *)
Theorem closing_the_shop_freezes_buyers env w :
  let w1 := ShopCog.set_status "closed" w in
  (∀ user message n add new_channel new_message,
     ShopItemView.handle_cart_action env user message n add new_channel new_message w1
     = emit (Reply ShopClosed) w1)
  ∧ (∀ user channel amount,
       CartView.apply_credit env user channel amount w1 = emit (Reply ShopClosed) w1)
  ∧ (∀ channel method m cid c,
       select_one (in_channel channel) (carts w1) = Some (cid, c) →
       already_processed (status c) = false → status c ≠ pending_payment →
       (payment_id c = None →
        PaymentMethodView.handle_checkout env channel method m w1
        = emit (Reply ShopClosedCheckout) w1)
       ∧ PaymentMethodView.crypto_checkout env channel w1
         = emit (Reply ShopClosedCheckout) w1)
  ∧ shop_closed (ShopCog.set_status "open" w1) = false
  ∧ (∀ s, s ≠ "open"%string → s ≠ "closed"%string → ShopCog.set_status s w = w).
Proof.
  intros w1.
  assert (shop_closed w1 = true) as Hclosed.
  { unfold w1, shop_closed, ShopCog.set_status, set_setting, get_setting. simpl.
    rewrite lookup_insert_eq. by apply bool_decide_eq_true. }
  split; [|split; [|split; [|split]]].
  - intros. unfold ShopItemView.handle_cart_action. by rewrite Hclosed.
  - intros. unfold CartView.apply_credit. by rewrite Hclosed.
  - intros channel method m cid c Hsel Hnew Hpend. split.
    + intros Hpay. unfold PaymentMethodView.handle_checkout.
      by rewrite Hsel, Hnew, (bool_decide_eq_false_2 _ Hpend), Hclosed, Hpay.
    + unfold PaymentMethodView.crypto_checkout.
      by rewrite Hsel, Hnew, (bool_decide_eq_false_2 _ Hpend), Hclosed.
  - unfold shop_closed, ShopCog.set_status, set_setting, get_setting. simpl.
    rewrite lookup_insert_eq. by apply bool_decide_eq_false.
  - intros s Ho Hc. unfold ShopCog.set_status.
    by rewrite !bool_decide_eq_false_2.
Qed.

Lemma closing_the_shop_freezes_buyers_witness :
  ShopItemView.add_to_cart Scenario.env 7 100 1 200 300 Walkthrough.closed_shop
  = emit (Reply ShopClosed) Walkthrough.closed_shop
  ∧ PaymentMethodView.handle_checkout Scenario.env 200 paypal 400
      Walkthrough.closed_shop
    = emit (Reply ShopClosedCheckout) Walkthrough.closed_shop
  ∧ ShopCog.set_status "ajar" Scenario.shop = Scenario.shop.
Proof.
  destruct (closing_the_shop_freezes_buyers Scenario.env Scenario.cart_of_two)
    as (Hcart & _ & Hcheckout & _ & _).
  destruct (closing_the_shop_freezes_buyers Scenario.env Scenario.shop)
    as (_ & _ & _ & _ & Hignored).
  split; [|split].
  - apply Hcart.
  - destruct (Hcheckout 200 paypal 400 1 Scenario.active_cart) as [Hlink _].
    + vm_compute. reflexivity.
    + reflexivity.
    + discriminate.
    + apply Hlink. reflexivity.
  - apply Hignored; discriminate.
Defined.

(** ** Role tiers *)

Section RoleTiers.
Implicit Types (guild roles : gset Z) (tiers : gmap Z Z).

Lemma elem_of_tiers_ascending tiers r a :
  (r, a) ∈ Roles.tiers_ascending tiers ↔ tiers !! r = Some a.
Proof.
  unfold Roles.tiers_ascending.
  rewrite (merge_sort_Permutation Roles.tier_le (map_to_list tiers)).
  apply elem_of_map_to_list.
Qed.

Lemma NoDup_tiers_ascending tiers : NoDup (Roles.tiers_ascending tiers).*1.
Proof.
  unfold Roles.tiers_ascending.
  rewrite (merge_sort_Permutation Roles.tier_le (map_to_list tiers)).
  apply NoDup_fst_map_to_list.
Qed.

Lemma elem_of_granted_roles guild lifetime tiers roles r :
  r ∈ Roles.granted_roles guild lifetime tiers roles
  ↔ ∃ a, tiers !! r = Some a ∧ a ≤ lifetime ∧ r ∈ guild ∧ r ∉ roles.
Proof.
  unfold Roles.granted_roles. rewrite list_elem_of_fmap. split.
  - intros [[r' a] [-> Hin]]. apply list_elem_of_filter in Hin as [Hp Hin].
    apply elem_of_tiers_ascending in Hin. simpl in *. eauto.
  - intros (a & Ht & Hp). exists (r, a). split; [done|].
    apply list_elem_of_filter. split; [done|]. by apply elem_of_tiers_ascending.
Qed.

End RoleTiers.

(** X19.  [check_and_apply_roles] grants exactly the tier roles the member
    has earned and lacks: a role is handed to [add_roles] if and only if it
    is a tier whose threshold the lifetime spend meets, the guild still has
    the role, and the member does not hold it yet; no role is granted
    twice.  Afterwards the member holds every earned tier role that
    exists, and every role held before: nothing is revoked. *)
Theorem role_grants_are_exactly_the_earned_tiers guild lifetime tiers roles :
  let granted := Roles.granted_roles guild lifetime tiers roles in
  (∀ r, r ∈ granted
        ↔ ∃ a, tiers !! r = Some a ∧ a ≤ lifetime ∧ r ∈ guild ∧ r ∉ roles)
  ∧ NoDup granted
  ∧ roles ⊆ Roles.roles_after roles granted
  ∧ (∀ r a, tiers !! r = Some a → a ≤ lifetime → r ∈ guild →
            r ∈ Roles.roles_after roles granted).
Proof.
  intros granted. split; [|split; [|split]].
  - intros r. apply elem_of_granted_roles.
  - unfold granted, Roles.granted_roles.
    pose proof (NoDup_tiers_ascending tiers) as Hnd.
    induction (Roles.tiers_ascending tiers) as [|[r a] l IH]; [constructor|].
    rewrite fmap_cons in Hnd. apply NoDup_cons in Hnd as [Hr Hnd].
    rewrite filter_cons. case_decide; [|by apply IH].
    rewrite fmap_cons. apply NoDup_cons. split; [|by apply IH].
    intros Hin. apply Hr. apply list_elem_of_fmap in Hin as [[r' a'] [-> Hin]].
    apply list_elem_of_filter in Hin as [_ Hin].
    apply list_elem_of_fmap. by exists (r', a').
  - unfold Roles.roles_after. set_solver.
  - intros r a Ht Ha Hg. unfold Roles.roles_after.
    destruct (decide (r ∈ roles)) as [Hin|Hnin]; [set_solver|].
    apply elem_of_union_r, elem_of_list_to_set, elem_of_granted_roles. eauto.
Qed.

Lemma role_grants_are_exactly_the_earned_tiers_witness :
  Roles.granted_roles {[10; 11; 12]} 2000 {[10 := 1000; 11 := 5000; 13 := 500]} {[12]}
  = [10]
  ∧ 13 ∉ Roles.granted_roles {[10; 11; 12]} 2000
           {[10 := 1000; 11 := 5000; 13 := 500]} {[12]}.
Proof.
  split; [vm_compute; reflexivity|].
  intros Hin.
  apply (proj1 (role_grants_are_exactly_the_earned_tiers {[10; 11; 12]} 2000
                  {[10 := 1000; 11 := 5000; 13 := 500]} {[12]})) in Hin
    as (a & _ & _ & Hguild & _).
  vm_compute in Hguild. discriminate Hguild.
Defined.

(** X20.  Granting is idempotent: run again on the member as the first run
    left them, with the same tiers and lifetime spend,
    [check_and_apply_roles] calls [add_roles] for nothing. *)
Theorem role_grants_are_idempotent guild lifetime tiers roles :
  Roles.granted_roles guild lifetime tiers
    (Roles.roles_after roles (Roles.granted_roles guild lifetime tiers roles))
  = [].
Proof.
  apply elem_of_nil_inv. intros r Hr.
  apply elem_of_granted_roles in Hr as (a & Ht & Ha & Hg & Hnew).
  apply Hnew. unfold Roles.roles_after.
  destruct (decide (r ∈ roles)) as [Hin|Hnin]; [set_solver|].
  apply elem_of_union_r, elem_of_list_to_set, elem_of_granted_roles. eauto.
Qed.

(** X21.  Grants are monotone in the lifetime spend: with the same tiers,
    guild and member, whatever role the member holds after a run at some
    lifetime spend, the member also holds after a run at any greater
    one. *)
Theorem role_grants_are_monotone guild tiers roles lifetime lifetime' r :
  lifetime ≤ lifetime' →
  r ∈ Roles.roles_after roles (Roles.granted_roles guild lifetime tiers roles) →
  r ∈ Roles.roles_after roles (Roles.granted_roles guild lifetime' tiers roles).
Proof.
  intros Hle. unfold Roles.roles_after. rewrite !elem_of_union.
  intros [Hin|Hin]; [by left|right].
  apply elem_of_list_to_set. apply elem_of_list_to_set in Hin.
  apply elem_of_granted_roles in Hin as (a & Ht & Ha & Hg & Hnew).
  apply elem_of_granted_roles. exists a. repeat split; try done. lia.
Qed.

Lemma role_grants_are_monotone_witness :
  10 ∈ Roles.roles_after ∅
         (Roles.granted_roles {[10; 11]} 6000 {[10 := 1000; 11 := 5000]} ∅).
Proof.
  apply (role_grants_are_monotone {[10; 11]} {[10 := 1000; 11 := 5000]} ∅
           2000 6000 10).
  - lia.
  - vm_compute. reflexivity.
Defined.

(** X22.  The two copies of [check_and_apply_roles].  For a user with a
    row in [users] the copy run after a payment ([ui/views.py]) and the
    copy run when a member joins ([cogs/delivery.py]) grant the same
    roles.  For a user without a row the first grants nothing and does not
    even fetch the member, while the second counts a lifetime spend of
    zero and grants the tiers whose threshold is zero or less.  Both stop
    without a grant when the member cannot be fetched. *)
Theorem role_checks_agree_on_known_users w tiers guild member user :
  (is_Some (users w !! user) →
     Roles.check_and_apply_roles w tiers guild member user
     = Roles.check_and_apply_roles_on_join w tiers guild member user)
  ∧ (users w !! user = None →
     Roles.check_and_apply_roles w tiers guild member user = Some []
     ∧ ∀ roles, member = Some roles →
         Roles.check_and_apply_roles_on_join w tiers guild member user
         = Some (Roles.granted_roles guild 0 tiers roles))
  ∧ (member = None →
     Roles.check_and_apply_roles_on_join w tiers guild member user = None).
Proof.
  unfold Roles.check_and_apply_roles, Roles.check_and_apply_roles_on_join,
    lifetime_spent_of.
  split; [|split].
  - intros [u ->]. done.
  - intros ->. split; [done|]. by intros roles ->.
  - by intros ->.
Qed.

Lemma role_checks_agree_on_known_users_witness :
  Roles.check_and_apply_roles Scenario.shop {[10 := 0]} {[10]} (Some ∅) 7 = Some []
  ∧ Roles.check_and_apply_roles_on_join Scenario.shop {[10 := 0]} {[10]} (Some ∅) 7
    = Some [10].
Proof.
  destruct (role_checks_agree_on_known_users Scenario.shop {[10 := 0]} {[10]}
              (Some ∅) 7) as (_ & Hunknown & _).
  destruct Hunknown as [Hviews Hjoin]; [vm_compute; reflexivity|].
  split; [exact Hviews|].
  rewrite (Hjoin ∅ eq_refl). vm_compute. reflexivity.
Defined.

(** ** Giveaways *)

Section GiveawayFacts.
Import Giveaway.

Lemma latest_in_list {A} (p : A → bool) (l : list (Z * A)) k r :
  foldr (λ kr best,
           if p kr.2 then
             match best with
             | Some (k', r') => if k' <? kr.1 then Some kr else Some (k', r')
             | None => Some kr
             end
           else best) None l = Some (k, r) →
  (k, r) ∈ l ∧ p r = true
  ∧ ∀ k' r', (k', r') ∈ l → p r' = true → k' ≤ k.
Proof.
  revert k r. induction l as [|[k0 r0] l IH]; intros k r; simpl; [done|].
  destruct (p r0) eqn:Hp0.
  - destruct (foldr _ None l) as [[k1 r1]|] eqn:Hbest.
    + destruct (IH k1 r1 eq_refl) as (Hin & Hp & Hmax).
      destruct (k1 <? k0) eqn:Hlt; intros [= <- <-].
      * split; [left|split; [done|]]. intros k' r' Hin' Hp'.
        apply elem_of_cons in Hin' as [[= -> ->]|Hin']; [lia|].
        specialize (Hmax k' r' Hin' Hp'). lia.
      * split; [by right|split; [done|]]. intros k' r' Hin' Hp'.
        apply elem_of_cons in Hin' as [[= -> ->]|Hin']; [lia|].
        by apply (Hmax k' r').
    + intros [= <- <-]. split; [left|split; [done|]].
      intros k' r' Hin' Hp'.
      apply elem_of_cons in Hin' as [[= -> ->]|Hin']; [lia|].
      exfalso. clear IH. revert Hbest Hin' Hp'.
      induction l as [|[k2 r2] l IH2]; simpl; [by intros _ ?%elem_of_nil|].
      intros Hbest Hin' Hp'.
      destruct (p r2) eqn:Hp2.
      * destruct (foldr _ None l) as [[k3 r3]|]; [by destruct (k3 <? k2)|done].
      * apply elem_of_cons in Hin' as [[= -> ->]|Hin']; [congruence|].
        by apply IH2.
  - intros Hbest. destruct (IH k r Hbest) as (Hin & Hp & Hmax).
    split; [by right|split; [done|]]. intros k' r' Hin' Hp'.
    apply elem_of_cons in Hin' as [[= -> ->]|Hin']; [congruence|].
    by apply (Hmax k' r').
Qed.

Lemma latest_Some {A} (p : A → bool) (t : gmap Z A) k r :
  latest p t = Some (k, r) →
  t !! k = Some r ∧ p r = true
  ∧ ∀ k' r', t !! k' = Some r' → p r' = true → k' ≤ k.
Proof.
  unfold latest. intros H. destruct (latest_in_list _ _ _ _ H) as (Hin & Hp & Hmax).
  split; [by apply elem_of_map_to_list|split; [done|]].
  intros k' r' Hk'. apply (Hmax k' r'). by apply elem_of_map_to_list.
Qed.

Lemma latest_None {A} (p : A → bool) (t : gmap Z A) k r :
  latest p t = None → t !! k = Some r → p r = false.
Proof.
  unfold latest. intros H Hk. apply elem_of_map_to_list in Hk.
  revert H Hk. induction (map_to_list t) as [|[k0 r0] l IH]; simpl.
  - by intros _ ?%elem_of_nil.
  - intros H Hin. destruct (p r0) eqn:Hp0.
    + destruct (foldr _ None l) as [[k1 r1]|]; [by destruct (k1 <? k0)|done].
    + apply elem_of_cons in Hin as [[= -> ->]|Hin]; [done|]. by apply IH.
Qed.

Lemma end_giveaway_giveaways c gid g s :
  let r := end_giveaway c gid g s in
  giveaways r.2 = (if r.1 then alter end_row gid (giveaways s) else giveaways s)
  ∧ giveaways_auto_increment r.2 = giveaways_auto_increment s.
Proof.
  unfold end_giveaway. repeat case_match; simpl; done.
Qed.

Lemma one_active_start c message s :
  (∀ k g, giveaways s !! k = Some g → giveaway_state g = giveaway_ended) →
  one_active (start_new_giveaway c message s).
Proof.
  intros Hnone. unfold start_new_giveaway.
  destruct (channel_found c); simpl.
  - intros k1 k2 g1 g2. simpl. rewrite !lookup_insert.
    repeat case_decide; simplify_eq/=; try done;
      intros; simplify_eq/=;
      repeat match goal with
      | H : giveaways s !! _ = Some _ |- _ => apply Hnone in H
      end; congruence.
  - intros k1 k2 g1 g2 H1 H2 Ha1. apply Hnone in H1. congruence.
Qed.

Lemma one_active_perform a s : one_active s → one_active (perform a s).
Proof.
  intros Hs. destruct a as [c message|user]; simpl.
  - unfold giveaway_manager.
    destruct (latest _ (giveaways s)) as [[gid g]|] eqn:Hlatest.
    + apply latest_Some in Hlatest as (Hgid & Hact & _).
      apply bool_decide_eq_true in Hact.
      destruct (now c >? end_time g); [|done].
      destruct (end_giveaway c gid g s) as [finished s'] eqn:Hend.
      pose proof (end_giveaway_giveaways c gid g s) as [Hg _].
      rewrite Hend in Hg. simpl in Hg.
      destruct finished.
      * apply one_active_start. intros k g' Hk. rewrite Hg in Hk.
        rewrite lookup_alter in Hk. case_decide as Heq.
        -- subst. rewrite Hgid in Hk. by simplify_eq/=.
        -- destruct (giveaway_state g') eqn:Hst; [|done].
           exfalso. apply Heq. symmetry. by eapply (Hs k gid g' g).
      * intros k1 k2 g1 g2. rewrite Hg. apply Hs.
    + apply one_active_start. intros k g Hk.
      pose proof (latest_None _ _ _ _ Hlatest Hk) as Hp.
      apply bool_decide_eq_false in Hp. by destruct (giveaway_state g).
  - unfold enter_giveaway. repeat case_match; simpl; done.
Qed.

End GiveawayFacts.

(** X23.  Giveaways never overlap: in every state the giveaway task and
    the "Enter Giveaway" button can produce, at most one giveaway is
    ['active'].  The task starts a giveaway only when it finds none active
    or has just ended the active one. *)
Theorem at_most_one_active_giveaway s :
  Giveaway.reachable_store s →
  ∀ k1 k2 g1 g2,
    Giveaway.giveaways s !! k1 = Some g1 → Giveaway.giveaways s !! k2 = Some g2 →
    Giveaway.giveaway_state g1 = Giveaway.giveaway_active →
    Giveaway.giveaway_state g2 = Giveaway.giveaway_active →
    k1 = k2.
Proof.
  induction 1 as [|a s _ IH].
  - intros k1 k2 g1 g2 H1. cbn in H1. by rewrite lookup_empty in H1.
  - by apply one_active_perform.
Qed.

Lemma at_most_one_active_giveaway_witness :
  Giveaway.giveaway_state <$> Giveaway.giveaways Walkthrough.second_giveaway !! 1
    = Some Giveaway.giveaway_ended
  ∧ ∀ k g, Giveaway.giveaways Walkthrough.second_giveaway !! k = Some g →
           Giveaway.giveaway_state g = Giveaway.giveaway_active → k = 2.
Proof.
  split; [vm_compute; reflexivity|].
  intros k g Hk Hactive.
  apply (at_most_one_active_giveaway Walkthrough.second_giveaway) with
    (g1 := g)
    (g2 := {| Giveaway.giveaway_message_id := 901; Giveaway.end_time := 173801;
              Giveaway.giveaway_state := Giveaway.giveaway_active |}).
  - unfold Walkthrough.second_giveaway, Walkthrough.two_entrants,
      Walkthrough.first_giveaway.
    do 4 apply Giveaway.reachable_perform. apply Giveaway.reachable_initial_store.
  - exact Hk.
  - vm_compute. reflexivity.
  - exact Hactive.
  - reflexivity.
Defined.

Section GiveawayEntrants.
Import Giveaway.

Lemma elem_of_entrants_of gid s u :
  u ∈ entrants_of gid s ↔ (gid, u) ∈ giveaway_entrants s.
Proof.
  unfold entrants_of. rewrite list_elem_of_fmap. split.
  - intros [[g u'] [-> Hin]]. apply elem_of_elements, elem_of_filter in Hin as [Hg Hin].
    simpl in *. by subst.
  - intros Hin. exists (gid, u). split; [done|].
    apply elem_of_elements, elem_of_filter. done.
Qed.

Lemma NoDup_entrants_of gid s : NoDup (entrants_of gid s).
Proof.
  unfold entrants_of.
  apply (NoDup_fmap_2_strong snd); [|apply NoDup_elements].
  intros [g1 u1] [g2 u2] H1 H2 Heq.
  apply elem_of_elements, elem_of_filter in H1 as [H1 _].
  apply elem_of_elements, elem_of_filter in H2 as [H2 _].
  simpl in *. congruence.
Qed.

Lemma choose_elem_of d l w : choose d l = Some w → w ∈ l.
Proof.
  unfold choose. destruct l as [|x l]; [done|].
  intros H. by eapply list_elem_of_lookup_2.
Qed.

Lemma choose_is_Some d l : l ≠ [] → is_Some (choose d l).
Proof.
  unfold choose. destruct l as [|x l]; [done|]. intros _.
  apply lookup_lt_is_Some. apply Nat.mod_upper_bound. done.
Qed.

End GiveawayEntrants.

(** X24.  A user enters a giveaway at most once.  The button enters the
    user into the giveaway with the greatest id; pressed again it answers
    that the user has already entered and changes nothing; with no
    giveaway in the table it answers so.  The entrants the draw is made
    from never list a user twice. *)
Theorem enter_giveaway_at_most_once user s :
  (Giveaway.giveaways s = ∅ →
     Giveaway.enter_giveaway user s = (Giveaway.NoGiveaway, s))
  ∧ (∀ gid g, Giveaway.latest (λ _, true) (Giveaway.giveaways s) = Some (gid, g) →
       let s1 := (Giveaway.enter_giveaway user s).2 in
       (∀ k g', Giveaway.giveaways s !! k = Some g' → k ≤ gid)
       ∧ Giveaway.giveaway_entrants s1
         = {[ (gid, user) ]} ∪ Giveaway.giveaway_entrants s
       ∧ Giveaway.enter_giveaway user s1 = (Giveaway.AlreadyEntered, s1))
  ∧ (∀ gid, NoDup (Giveaway.entrants_of gid s)).
Proof.
  split; [|split].
  - intros Hempty. unfold Giveaway.enter_giveaway, Giveaway.latest.
    by rewrite Hempty, map_to_list_empty.
  - intros gid g Hlatest s1.
    pose proof (latest_Some _ _ _ _ Hlatest) as (_ & _ & Hmax).
    split; [intros k g' Hk; by apply (Hmax k g')|].
    assert (Giveaway.giveaways s1 = Giveaway.giveaways s) as Hsame.
    { unfold s1, Giveaway.enter_giveaway. rewrite Hlatest. by case_bool_decide. }
    assert (Giveaway.giveaway_entrants s1
            = {[ (gid, user) ]} ∪ Giveaway.giveaway_entrants s) as Hentered.
    { unfold s1, Giveaway.enter_giveaway. rewrite Hlatest.
      case_bool_decide; simpl; [set_solver|done]. }
    split; [done|].
    unfold Giveaway.enter_giveaway at 1. rewrite Hsame, Hlatest.
    rewrite bool_decide_eq_true_2; [done|]. rewrite Hentered. set_solver.
  - intros gid. apply NoDup_entrants_of.
Qed.

Lemma enter_giveaway_at_most_once_witness :
  (let s1 := (Giveaway.enter_giveaway 7 Walkthrough.first_giveaway).2 in
   Giveaway.enter_giveaway 7 s1 = (Giveaway.AlreadyEntered, s1))
  ∧ Giveaway.enter_giveaway 7 Giveaway.initial_store
    = (Giveaway.NoGiveaway, Giveaway.initial_store).
Proof.
  split.
  - destruct (enter_giveaway_at_most_once 7 Walkthrough.first_giveaway)
      as (_ & Hentered & _).
    destruct (Hentered 1 {| Giveaway.giveaway_message_id := 900;
                            Giveaway.end_time := 87400;
                            Giveaway.giveaway_state := Giveaway.giveaway_active |})
      as (_ & _ & Hagain).
    + vm_compute. reflexivity.
    + exact Hagain.
  - apply (proj1 (enter_giveaway_at_most_once 7 Giveaway.initial_store)).
    reflexivity.
Defined.

Section GiveawayEnd.
Import Giveaway.

Lemma finished_giveaway c gid g s :
  channel_found c = true →
  (end_giveaway c gid g s).1 = true →
  giveaway_entrants (end_giveaway c gid g s).2
  = filter (λ e, e.1 ≠ gid) (giveaway_entrants s).
Proof.
  intros Hch. unfold end_giveaway. rewrite Hch. simpl.
  repeat case_match; simpl; done.
Qed.

End GiveawayEnd.

(** X25.  Ending a giveaway (channel found).  With no entrant, no balance
    changes.  With entrants, the draw names one of them, and a winner with
    a non-zero id is credited exactly the prize, no other balance
    changing; the run then finishes unless the winner's account cannot be
    fetched.  A run that finishes marks the giveaway ended and deletes its
    entrants, and only its own. *)
Theorem end_giveaway_pays_one_entrant c gid g s :
  Giveaway.channel_found c = true →
  let r := Giveaway.end_giveaway c gid g s in
  (Giveaway.entrants_of gid s = [] →
     r.1 = true ∧ users (Giveaway.shop r.2) = users (Giveaway.shop s))
  ∧ (Giveaway.entrants_of gid s ≠ [] →
     ∃ winner, (gid, winner) ∈ Giveaway.giveaway_entrants s
       ∧ (winner ≠ 0 →
          balance_of (Giveaway.shop r.2) winner
          = balance_of (Giveaway.shop s) winner + Giveaway.prize c
          ∧ (∀ u, u ≠ winner →
               balance_of (Giveaway.shop r.2) u = balance_of (Giveaway.shop s) u)
          ∧ r.1 = Giveaway.fetch_user c winner))
  ∧ (r.1 = true →
     Giveaway.entrants_of gid r.2 = []
     ∧ Giveaway.giveaways r.2 = alter Giveaway.end_row gid (Giveaway.giveaways s)
     ∧ ∀ gid' u, gid' ≠ gid →
         ((gid', u) ∈ Giveaway.giveaway_entrants r.2
          ↔ (gid', u) ∈ Giveaway.giveaway_entrants s)).
Proof.
  intros Hch r. split; [|split].
  - intros Hnone. unfold r, Giveaway.end_giveaway. by rewrite Hch, Hnone.
  - intros Hsome.
    destruct (choose_is_Some (Giveaway.draw c) _ Hsome) as [winner Hw].
    exists winner. split.
    { apply elem_of_entrants_of. by eapply choose_elem_of. }
    intros Hnz. unfold r, Giveaway.end_giveaway. rewrite Hch, Hw.
    cbn [negb]. rewrite (proj2 (Z.eqb_neq _ _) Hnz).
    assert (∀ u, balance_of (Giveaway.shop (Giveaway.credit_prize winner
                   (Giveaway.prize c) s)) u
                 = balance_of (Giveaway.shop s) u
                   + if decide (u = winner) then Giveaway.prize c else 0) as Hbal.
    { intros u. unfold balance_of. simpl. unfold upsert_user.
      destruct (decide (u = winner)) as [->|Hu].
      - destruct (users (Giveaway.shop s) !! winner) as [x|] eqn:Hx;
          rewrite lookup_insert_eq; simpl; lia.
      - destruct (users (Giveaway.shop s) !! winner) as [x|] eqn:Hx;
          rewrite lookup_insert_ne by done;
          destruct (users (Giveaway.shop s) !! u); lia. }
    destruct (Giveaway.fetch_user c winner).
    + split; [|split; [|done]].
      * destruct (Giveaway.fetch_giveaway_message c _); cbn [fst snd Giveaway.shop Giveaway.set_ended Giveaway.clear_entrants
               Giveaway.announce];
          rewrite (Hbal winner), decide_True by done; done.
      * intros u Hu.
        destruct (Giveaway.fetch_giveaway_message c _); cbn [fst snd Giveaway.shop Giveaway.set_ended Giveaway.clear_entrants
               Giveaway.announce];
          rewrite (Hbal u), decide_False by done; lia.
    + cbn [fst snd]. split; [|split; [|done]].
      * rewrite (Hbal winner), decide_True by done. done.
      * intros u Hu. rewrite (Hbal u), decide_False by done. lia.
  - intros Hfinished.
    pose proof (finished_giveaway c gid g s Hch Hfinished) as Hentrants.
    fold r in Hentrants.
    pose proof (end_giveaway_giveaways c gid g s) as [Hg _].
    fold r in Hg. rewrite Hfinished in Hg.
    split; [|split; [done|]].
    + apply elem_of_nil_inv. intros u Hu.
      apply elem_of_entrants_of in Hu. rewrite Hentrants in Hu.
      apply elem_of_filter in Hu as [Hne _]. by apply Hne.
    + intros gid' u Hne. rewrite Hentrants, elem_of_filter. simpl. tauto.
Qed.

Lemma end_giveaway_pays_one_entrant_witness :
  ∃ winner,
    (winner = 7 ∨ winner = 8)
    ∧ balance_of (Giveaway.shop (Giveaway.end_giveaway Walkthrough.next_day 1
                    {| Giveaway.giveaway_message_id := 900;
                       Giveaway.end_time := 87400;
                       Giveaway.giveaway_state := Giveaway.giveaway_active |}
                    Walkthrough.two_entrants).2) winner
      = balance_of (Giveaway.shop Walkthrough.two_entrants) winner + 500.
Proof.
  destruct (end_giveaway_pays_one_entrant Walkthrough.next_day 1
              {| Giveaway.giveaway_message_id := 900;
                 Giveaway.end_time := 87400;
                 Giveaway.giveaway_state := Giveaway.giveaway_active |}
              Walkthrough.two_entrants) as (_ & Hpay & _).
  - reflexivity.
  - destruct Hpay as (winner & Hin & Hwinner).
    + vm_compute. discriminate.
    + assert (Giveaway.giveaway_entrants Walkthrough.two_entrants
              = {[ (1, 8) ]} ∪ ({[ (1, 7) ]} ∪ ∅)) as Hentrants
        by (vm_compute; reflexivity).
      rewrite Hentrants in Hin.
      assert (winner = 7 ∨ winner = 8) as Hwho by set_solver.
      exists winner. split; [exact Hwho|].
      apply Hwinner. destruct Hwho; subst; discriminate.
Defined.

(** ** The PayPal credential *)

(** X26.  The PayPal token cache.  After a token was fetched and stored at
    [received] with lifetime [expires_in], a query made before
    [received + expires_in - 300] goes through on the stored token,
    whatever the token endpoint would answer, and leaves the cache as it
    is; from that time on a query made while the token endpoint fails
    returns nothing, whatever the order endpoint would answer, and leaves
    the cache as it is. *)
Theorem access_token_reused_until_refresh_time
    (s : PayPalPayment.token_cache) (now received expires_in : Z)
    (token : string) :
  truthy_str (PayPalPayment.access_token s)
    && (now <? PayPalPayment.token_expires_at s) = false →
  token ≠ ""%string →
  let fetched := PayPalPayment.get_access_token now
                   (Some (token, expires_in)) received s in
  fetched.1 = Some token
  ∧ ∀ (A : Type) (now' received' : Z) (order : option A),
      (now' < received + expires_in - 300 →
       ∀ response',
         PayPalPayment.with_token now' response' received' order fetched.2
         = (order, fetched.2))
      ∧ (received + expires_in - 300 ≤ now' →
         PayPalPayment.with_token now' None received' order fetched.2
         = (None, fetched.2)).
Proof.
  intros Hfetch Htoken fetched. unfold fetched, PayPalPayment.get_access_token.
  rewrite Hfetch. cbn [fst snd]. split; [done|].
  intros A now' received' order.
  unfold PayPalPayment.with_token, PayPalPayment.get_access_token.
  cbn [PayPalPayment.access_token PayPalPayment.token_expires_at truthy_str].
  rewrite bool_decide_eq_false_2 by done. cbn [negb andb]. split.
  - intros Hearly response'.
    rewrite (proj2 (Z.ltb_lt _ _) Hearly).
    by rewrite bool_decide_eq_false_2 by done.
  - intros Hlate. by rewrite (proj2 (Z.ltb_ge _ _) Hlate).
Qed.

Lemma access_token_reused_until_refresh_time_witness :
  let cache := (PayPalPayment.get_access_token 0 (Some ("A21"%string, 32400)) 1
                  PayPalPayment.no_token).2 in
  PayPalPayment.with_token 1000 None 1001 (Some "APPROVED"%string) cache
  = (Some "APPROVED"%string, cache)
  ∧ PayPalPayment.with_token 32101 None 32102 (Some "APPROVED"%string) cache
    = (None, cache).
Proof.
  intros cache.
  destruct (access_token_reused_until_refresh_time PayPalPayment.no_token
              0 1 32400 "A21"%string) as [_ Hcache].
  - reflexivity.
  - discriminate.
  - destruct (Hcache string 1000 1001 (Some "APPROVED"%string)) as [Hearly _].
    destruct (Hcache string 32101 32102 (Some "APPROVED"%string)) as [_ Hlate].
    split.
    + apply Hearly. lia.
    + apply Hlate. lia.
Defined.

(** ** The pages of [list_carts] *)

Section ListCartsPages.
Import ListCarts.

Lemma length_append (a b : string) :
  String.length (a +:+ b) = (String.length a + String.length b)%nat.
Proof.
  induction a as [|x a IH]; [done|].
  change (String x a +:+ b) with (String x (a +:+ b)).
  cbn [String.length]. by rewrite IH.
Qed.

Lemma append_assoc (a b c : string) : (a +:+ b) +:+ c = a +:+ (b +:+ c).
Proof.
  induction a as [|x a IH]; [done|].
  change (String x ((a +:+ b) +:+ c) = String x (a +:+ (b +:+ c))).
  by rewrite IH.
Qed.

Lemma append_empty_r (a : string) : a +:+ ""%string = a.
Proof.
  induction a as [|x a IH]; [done|].
  change (String x (a +:+ ""%string) = String x a). by rewrite IH.
Qed.

Lemma text_snoc (l : list string) (x : string) :
  foldr String.append ""%string (l ++ [x])
  = foldr String.append ""%string l +:+ x.
Proof.
  induction l as [|y l IH]; cbn [foldr app].
  - rewrite append_empty_r. reflexivity.
  - by rewrite IH, append_assoc.
Qed.

Lemma add_line_step sent current line :
  add_line (sent, current) line
  = if (4000 <? String.length current + String.length line)%nat
    then (sent ++ [current], line)
    else (sent, current +:+ line +:+ newline).
Proof. reflexivity. Qed.

Lemma add_lines_fit lines : ∀ sent current,
  Forall (λ line, String.length line ≤ 4000)%nat lines →
  Forall (λ d, 0 < String.length d ≤ 4001)%nat sent →
  (String.length current ≤ 4001)%nat →
  Forall (λ d, 0 < String.length d ≤ 4001)%nat (foldl add_line (sent, current) lines).1
  ∧ (String.length (foldl add_line (sent, current) lines).2 ≤ 4001)%nat.
Proof.
  induction lines as [|line lines IH]; intros sent current Hlines Hsent Hcur.
  { done. }
  apply Forall_cons in Hlines as [Hline Hlines].
  cbn [foldl]. rewrite add_line_step.
  destruct (4000 <? String.length current + String.length line)%nat eqn:Hfull.
  - apply Nat.ltb_lt in Hfull.
    apply (IH (sent ++ [current]) line); [done| |lia].
    apply Forall_app. split; [done|]. apply Forall_singleton. lia.
  - apply Nat.ltb_ge in Hfull.
    apply (IH sent (current +:+ line +:+ newline)); [done..|].
    rewrite !length_append. unfold newline. cbn [String.length]. lia.
Qed.

Lemma add_lines_text lines : ∀ sent current,
  ∃ breaks,
    length breaks = length lines
    ∧ Forall (λ b, b = ""%string ∨ b = newline) breaks
    ∧ foldr String.append ""%string (foldl add_line (sent, current) lines).1
        +:+ (foldl add_line (sent, current) lines).2
      = foldr String.append ""%string sent +:+ current
        +:+ foldr String.append ""%string (zip_with String.append lines breaks).
Proof.
  induction lines as [|line lines IH]; intros sent current.
  { exists []. split; [done|]. split; [done|]. simpl. by rewrite append_empty_r. }
  cbn [foldl]. rewrite add_line_step.
  destruct (4000 <? String.length current + String.length line)%nat.
  - destruct (IH (sent ++ [current]) line) as (breaks & Hlen & Hbreaks & Htext).
    exists (""%string :: breaks). split; [simpl; by rewrite Hlen|].
    split; [by constructor; [left|]|].
    rewrite Htext, text_snoc. cbn [zip_with foldr].
    by rewrite append_empty_r, !append_assoc.
  - destruct (IH sent (current +:+ line +:+ newline))
      as (breaks & Hlen & Hbreaks & Htext).
    exists (newline :: breaks). split; [simpl; by rewrite Hlen|].
    split; [by constructor; [right|]|].
    rewrite Htext. cbn [zip_with foldr]. by rewrite !append_assoc.
Qed.

End ListCartsPages.

(** X27.  [list_carts] sends descriptions that fit.  When no cart line is
    longer than 4000 characters, every description sent has at least one
    and at most 4001 characters: the test of the loop leaves the line
    break it appends out of the count. *)
Theorem list_carts_descriptions_fit (lines : list string) :
  Forall (λ line, String.length line ≤ 4000)%nat lines →
  Forall (λ d, 0 < String.length d ≤ 4001)%nat (ListCarts.descriptions lines).
Proof.
  intros Hlines. unfold ListCarts.descriptions.
  destruct (add_lines_fit lines [] ""%string Hlines) as [Hsent Hcurrent];
    [done|simpl; lia|].
  destruct (foldl ListCarts.add_line ([], ""%string) lines) as [sent current].
  cbn [fst snd] in *. case_bool_decide as Hempty; [done|].
  apply Forall_app. split; [done|]. apply Forall_singleton.
  split; [|done]. destruct current; [done|simpl; lia].
Qed.

Lemma list_carts_descriptions_fit_witness :
  Forall (λ d, 0 < String.length d ≤ 4001)%nat
    (ListCarts.descriptions [Walkthrough.long_line; Walkthrough.long_line])
  ∧ length (ListCarts.descriptions [Walkthrough.long_line; Walkthrough.long_line])
    = 2%nat.
Proof.
  split.
  - apply list_carts_descriptions_fit.
    repeat constructor; apply Nat.leb_le; vm_compute; reflexivity.
  - vm_compute. reflexivity.
Defined.

(** X28.  [list_carts] drops nothing.  Read one after the other, the
    descriptions sent are the cart lines in their order, each followed by
    a line break or by nothing. *)
Theorem list_carts_descriptions_keep_every_line (lines : list string) :
  ∃ breaks,
    length breaks = length lines
    ∧ Forall (λ b, b = ""%string ∨ b = ListCarts.newline) breaks
    ∧ foldr String.append ""%string (ListCarts.descriptions lines)
      = foldr String.append ""%string (zip_with String.append lines breaks).
Proof.
  destruct (add_lines_text lines [] ""%string)
    as (breaks & Hlen & Hbreaks & Htext).
  exists breaks. split; [done|]. split; [done|].
  unfold ListCarts.descriptions.
  destruct (foldl ListCarts.add_line ([], ""%string) lines) as [sent current].
  cbn [fst snd] in Htext.
  change (foldr String.append ""%string sent +:+ current
          = foldr String.append ""%string (zip_with String.append lines breaks))
    in Htext.
  rewrite <- Htext. case_bool_decide as Hempty.
  - subst current. by rewrite append_empty_r.
  - apply text_snoc.
Qed.
